(** * nextwebi_frontend: the flowchart client (flowchart.js)

    A shallow embedding of the tree store, the visibility filter, the
    recursive renderer, the full-tree ingest, the search filter, the edit and
    delete handlers, the retry wrapper and the breadcrumb walk of
    [flowchart.js], with the properties the specification states about them;
    and of the functions around them: the level colours, the text forms of a
    path and of a subtree, the create-child handler, the repaint of one
    children container, the link modal, the link scanner of the descriptions
    and the zoom clamp, with properties read off the code.

    Conventions of the embedding.
    - Node ids, names and status values are JavaScript strings, here [string]
      (ASCII; [toLowerCase] and the default sort order are modelled on bytes).
      A string is falsy exactly when it is empty; [null] and [undefined] are
      [None].
    - [nodeMap], [parentMap] and [nodeStats] are plain JavaScript objects.
      They are modelled as property lists in insertion order, because the
      code enumerates them ([for ... in], [Object.keys]); the enumeration
      order of an object (array-index keys first, ascending, then the other
      keys in insertion order) is [JS.ownKeys].  Ids are assumed not to be
      names of properties inherited from [Object.prototype].
    - Module-level variables are the fields of [State]; every function that
      reads or writes them is a computation in the monad [M] (state passing;
      [None] means that the recursion budget [fuel] ran out, never a
      JavaScript exception).
    - The markup built by [renderNode] is abstracted to its structure: one
      [RNode] per emitted card with its nesting level and the cards of its
      children container.  Timers that only repaint the page are left out.
    - A request made through [fetchWithRetry] is represented, inside the
      handlers, by the way it finally settles ([Fetched]); the retry wrapper
      itself is modelled on its own as a machine over the shared counter.
      [messages] therefore holds the messages the handlers show themselves;
      the fatal message the wrapper shows before it rethrows is counted in
      [Retry.fatalMessages].  A request that never settles (one whose [ok]
      responses never parse is retried for ever) is outside the handlers.
      Handlers run one at a time; where passes overlap, the two halves of
      [loadAndRenderVisuals] around its [await] are run in the order stated.
    - The regular expression of the link scanner, [/(https?:\/\/[^\s]+)/], is
      modelled as the scanner it denotes, with the ASCII white space for
      [\s].  Numbers that are counts are [nat] or [N]; the zoom scale is a
      binary64 [float].
    - The page elements the functions look up are assumed to exist, except
      the two filter selects, whose absence the code handles itself. *)

From Stdlib Require Import List String Ascii Bool Arith NArith ZArith Lia.
From Stdlib Require Import DecimalString DecimalNat Permutation Floats.
Import ListNotations.
Local Open Scope string_scope.
Local Open Scope list_scope.

Set Implicit Arguments.
Set Warnings "-register-all".

(* ================================================================== *)
(** * Part I. Definitions                                              *)
(* ================================================================== *)

(** ** The JavaScript runtime the client relies on *)

Module JS.

(** Truthiness of a string value. *)
Definition truthy (s : string) : bool := negb (String.eqb s "").

(** [a || b] on values that are strings or null. *)
Definition orElse (a b : option string) : option string :=
  match a with
  | Some s => if truthy s then a else b
  | None => b
  end.

(** Truthiness of a string-or-null value. *)
Definition truthyOpt (a : option string) : bool :=
  match a with Some s => truthy s | None => false end.

(** [Set.prototype.has] / [Array.prototype.includes] on ids. *)
Definition has (l : list string) (x : string) : bool :=
  existsb (String.eqb x) l.

(** An object used as a dictionary: properties in insertion order. *)
Definition obj (V : Type) : Type := list (string * V).

Fixpoint get {V} (o : obj V) (k : string) : option V :=
  match o with
  | [] => None
  | (k', v) :: rest => if String.eqb k' k then Some v else get rest k
  end.

(** [o[k] = v]: an existing property keeps its place, a new one goes last. *)
Fixpoint set {V} (o : obj V) (k : string) (v : V) : obj V :=
  match o with
  | [] => [(k, v)]
  | (k', v') :: rest =>
    if String.eqb k' k then (k, v) :: rest else (k', v') :: set rest k v
  end.

(** [delete o[k]]. *)
Definition delete {V} (o : obj V) (k : string) : obj V :=
  filter (fun kv => negb (String.eqb (fst kv) k)) o.

Definition keys {V} (o : obj V) : list string := map fst o.

(** Canonical array indices: "0", or digits without a leading zero, below
    2^32 - 1. *)
Definition digitOf (c : ascii) : option N :=
  let n := N_of_ascii c in
  if (48 <=? n)%N && (n <=? 57)%N then Some (n - 48)%N else None.

Fixpoint decimalValue (s : string) (acc : N) : option N :=
  match s with
  | EmptyString => Some acc
  | String c rest =>
    match digitOf c with
    | Some d => decimalValue rest (acc * 10 + d)%N
    | None => None
    end
  end.

Definition arrayIndex (s : string) : option N :=
  match s with
  | EmptyString => None
  | String c rest =>
    if Ascii.eqb c "0" then
      match rest with EmptyString => Some 0%N | _ => None end
    else
      match decimalValue s 0 with
      | Some n => if (n <? 4294967295)%N then Some n else None
      | None => None
      end
  end.

Definition isIndex (s : string) : bool :=
  match arrayIndex s with Some _ => true | None => false end.

Fixpoint insertIndex (k : N * string) (l : list (N * string)) : list (N * string) :=
  match l with
  | [] => [k]
  | h :: t => if (fst k <=? fst h)%N then k :: l else h :: insertIndex k t
  end.

Definition indexKeys (ks : list string) : list (N * string) :=
  flat_map (fun k => match arrayIndex k with Some n => [(n, k)] | None => [] end) ks.

(** The order in which [for (k in o)] and [Object.keys(o)] enumerate. *)
Definition ownKeys {V} (o : obj V) : list string :=
  map snd (fold_right insertIndex [] (indexKeys (keys o)))
  ++ filter (fun k => negb (isIndex k)) (keys o).

(** [Object.entries(o)]. *)
Definition entries {V} (o : obj V) : list (string * V) :=
  flat_map (fun k => match get o k with Some v => [(k, v)] | None => [] end)
         (ownKeys o).

(** [Array.prototype.sort()] without a comparator, on strings. *)
Fixpoint insertSorted (x : string) (l : list string) : list string :=
  match l with
  | [] => [x]
  | h :: t => if String.leb x h then x :: l else h :: insertSorted x t
  end.

Definition sort (l : list string) : list string :=
  fold_right insertSorted [] l.

(** [String.prototype.toLowerCase] (ASCII letters). *)
Definition lowerAscii (c : ascii) : ascii :=
  let n := N_of_ascii c in
  if (65 <=? n)%N && (n <=? 90)%N then ascii_of_N (n + 32) else c.

Fixpoint toLowerCase (s : string) : string :=
  match s with
  | EmptyString => EmptyString
  | String c rest => String (lowerAscii c) (toLowerCase rest)
  end.

(** [String.prototype.trim] (ASCII white space). *)
Definition isSpace (c : ascii) : bool :=
  let n := N_of_ascii c in
  (n =? 32)%N || ((9 <=? n)%N && (n <=? 13)%N).

Fixpoint trimStart (s : string) : string :=
  match s with
  | EmptyString => EmptyString
  | String c rest => if isSpace c then trimStart rest else s
  end.

Fixpoint trimEnd (s : string) : string :=
  match s with
  | EmptyString => EmptyString
  | String c rest =>
    match trimEnd rest with
    | EmptyString => if isSpace c then EmptyString else String c EmptyString
    | t => String c t
    end
  end.

Definition trim (s : string) : string := trimEnd (trimStart s).

(** [hay.includes(needle)]. *)
Fixpoint includes (hay needle : string) : bool :=
  String.prefix needle hay
  || match hay with
   | EmptyString => false
   | String _ rest => includes rest needle
   end.

(** [String(n)] for a counter. *)
Definition ofNat (n : nat) : string := NilEmpty.string_of_uint (Nat.to_uint n).

Fixpoint zeros (n : nat) : string :=
  match n with 0 => EmptyString | S m => String "0" (zeros m) end.

(** [s.padStart(width, '0')]. *)
Definition padStart0 (width : nat) (s : string) : string :=
  (zeros (width - String.length s) ++ s)%string.

(** [names.join(sep)]. *)
Definition join (sep : string) (l : list string) : string := String.concat sep l.

End JS.

(** ** Data model *)

(** A node as the server sends it and as [nodeMap] stores it.  [children] is
    [None] when the property is missing or not an array; [friendlyId] and
    [_forceVisible] are the two properties the client adds. *)
Record Node : Type := mkNode {
  contentId : string;
  name : string;
  description : string;
  status : string;
  children : option (list string);
  friendlyId : option string;
  _forceVisible : bool
}.

Definition withForceVisible (n : Node) (b : bool) : Node :=
  mkNode (contentId n) (name n) (description n) (status n) (children n) (friendlyId n) b.

Definition withFriendlyId (n : Node) (f : option string) : Node :=
  mkNode (contentId n) (name n) (description n) (status n) (children n) f (_forceVisible n).

Definition withChildren (n : Node) (c : option (list string)) : Node :=
  mkNode (contentId n) (name n) (description n) (status n) c (friendlyId n) (_forceVisible n).

Definition withContent (n : Node) (nm ds stt : string) : Node :=
  mkNode (contentId n) nm ds stt (children n) (friendlyId n) (_forceVisible n).

(** [node.children || []]. *)
Definition childrenOrEmpty (n : Node) : list string :=
  match children n with Some c => c | None => [] end.

(** An entry of the stats cache. *)
Record Stats : Type := mkStats { inboundCount : N; outboundCount : N }.

(** An entry of the [/stats/all] response ([None]: null or missing). *)
Record RawStats : Type := mkRawStats {
  total_inbound_count : option N;
  total_outbound_count : option N
}.

(** What the tree wrapper shows. *)
Inductive RTree : Type :=
| RNode (id : string) (level : nat) (kids : list RTree).

Inductive View : Type :=
| VInitial
| VSpinner
| VRendering
| VTree (forest : list RTree)
| VNoRoot
| VNoMatch
| VNoNodes
| VLoadError (msg : string).

Record Message : Type := mkMessage { msgText : string; msgType : string }.

(** The module-level variables of the client, and what the page shows. *)
Record State : Type := mkState {
  nodeMap : JS.obj Node;
  parentMap : JS.obj string;
  nodeStats : JS.obj Stats;
  stableRootId : option string;
  nodeToFocusId : option string;
  preserveViewport : bool;
  renderedNodes : list string;
  singleNodeMode : bool;
  view : View;
  messages : list Message;
  pageReloads : nat
}.

(** The two filter selects of the page ([None]: the element is missing). *)
Record Filters : Type := mkFilters {
  connectionFilter : option string;
  statusFilter : option string
}.

(** How a request made through [fetchWithRetry] settles for its caller. *)
Inductive Fetched (A : Type) : Type :=
| Resolved (a : A)
| Rejected (message : string).
Arguments Resolved {A} a.
Arguments Rejected {A} message.

(** One snapshot of the server, as seen by one handler run. *)
Record Server : Type := mkServer {
  treeResponse : Fetched (list Node);
  statsResponse : option (JS.obj RawStats);
  updateResponse : Fetched unit;
  deleteResponse : Fetched unit
}.

(** ** State passing *)

Definition M (A : Type) : Type := State -> option (A * State).

Definition ret {A} (a : A) : M A := fun st => Some (a, st).

Definition bind {A B} (m : M A) (k : A -> M B) : M B :=
  fun st => match m st with
            | Some (a, st') => k a st'
            | None => None
            end.

Definition outOfFuel {A} : M A := fun _ => None.

Definition gets {A} (f : State -> A) : M A := fun st => Some (f st, st).

Definition modify (f : State -> State) : M unit := fun st => Some (tt, f st).

Declare Scope m_scope.
Delimit Scope m_scope with M.
Notation "x <- m ;; k" := (bind m (fun x => k))
  (at level 61, m at next level, right associativity) : m_scope.
Notation "m ;;; k" := (bind m (fun _ => k))
  (at level 61, right associativity) : m_scope.
Local Open Scope m_scope.

Fixpoint forEach {A} (l : list A) (body : A -> M unit) : M unit :=
  match l with
  | [] => ret tt
  | x :: rest => body x ;;; forEach rest body
  end.

(** Field updates. *)
Definition setNodeMap (nm : JS.obj Node) (st : State) : State :=
  mkState nm (parentMap st) (nodeStats st) (stableRootId st) (nodeToFocusId st)
          (preserveViewport st) (renderedNodes st) (singleNodeMode st) (view st)
          (messages st) (pageReloads st).
Definition setParentMap (pm : JS.obj string) (st : State) : State :=
  mkState (nodeMap st) pm (nodeStats st) (stableRootId st) (nodeToFocusId st)
          (preserveViewport st) (renderedNodes st) (singleNodeMode st) (view st)
          (messages st) (pageReloads st).
Definition setNodeStats (ns : JS.obj Stats) (st : State) : State :=
  mkState (nodeMap st) (parentMap st) ns (stableRootId st) (nodeToFocusId st)
          (preserveViewport st) (renderedNodes st) (singleNodeMode st) (view st)
          (messages st) (pageReloads st).
Definition setStableRootId (r : option string) (st : State) : State :=
  mkState (nodeMap st) (parentMap st) (nodeStats st) r (nodeToFocusId st)
          (preserveViewport st) (renderedNodes st) (singleNodeMode st) (view st)
          (messages st) (pageReloads st).
Definition setNodeToFocusId (f : option string) (st : State) : State :=
  mkState (nodeMap st) (parentMap st) (nodeStats st) (stableRootId st) f
          (preserveViewport st) (renderedNodes st) (singleNodeMode st) (view st)
          (messages st) (pageReloads st).
Definition setPreserveViewport (b : bool) (st : State) : State :=
  mkState (nodeMap st) (parentMap st) (nodeStats st) (stableRootId st) (nodeToFocusId st)
          b (renderedNodes st) (singleNodeMode st) (view st)
          (messages st) (pageReloads st).
Definition setRenderedNodes (r : list string) (st : State) : State :=
  mkState (nodeMap st) (parentMap st) (nodeStats st) (stableRootId st) (nodeToFocusId st)
          (preserveViewport st) r (singleNodeMode st) (view st)
          (messages st) (pageReloads st).
Definition setSingleNodeMode (b : bool) (st : State) : State :=
  mkState (nodeMap st) (parentMap st) (nodeStats st) (stableRootId st) (nodeToFocusId st)
          (preserveViewport st) (renderedNodes st) b (view st)
          (messages st) (pageReloads st).
Definition setView (v : View) (st : State) : State :=
  mkState (nodeMap st) (parentMap st) (nodeStats st) (stableRootId st) (nodeToFocusId st)
          (preserveViewport st) (renderedNodes st) (singleNodeMode st) v
          (messages st) (pageReloads st).

(** [showMessage(message, type)]. *)
Definition showMessage (text type : string) : M unit :=
  modify (fun st =>
    mkState (nodeMap st) (parentMap st) (nodeStats st) (stableRootId st) (nodeToFocusId st)
            (preserveViewport st) (renderedNodes st) (singleNodeMode st) (view st)
            (messages st ++ [mkMessage text type]) (pageReloads st)).

(** [location.reload()]. *)
Definition locationReload : M unit :=
  modify (fun st =>
    mkState (nodeMap st) (parentMap st) (nodeStats st) (stableRootId st) (nodeToFocusId st)
            (preserveViewport st) (renderedNodes st) (singleNodeMode st) (view st)
            (messages st) (S (pageReloads st))).

(** ** getBreadcrumbPath (flowchart.js:60-71) *)

Definition BREADCRUMB_GUARD : nat := 1000.

(** The [while] loop; the result is the [names] array and the final [guard]. *)
Fixpoint breadcrumbLoop (fuel : nat) (st : State) (currentId : string)
         (guard : nat) (names : list string) : option (list string * nat) :=
  match fuel with
  | 0 => None
  | S fuel' =>
      match JS.get (nodeMap st) currentId with
      | Some node =>
          if JS.truthy currentId && Nat.ltb guard BREADCRUMB_GUARD then
            let names' := names ++ [name node] in
            if JS.truthyOpt (JS.get (parentMap st) currentId) then
              match JS.get (parentMap st) currentId with
              | Some parentId => breadcrumbLoop fuel' st parentId (S guard) names'
              | None => Some (names', guard)
              end
            else Some (names', guard)
          else Some (names, guard)
      | None => Some (names, guard)
      end
  end.

Definition getBreadcrumbPath (fuel : nat) (st : State) (nodeId : string) : option string :=
  match breadcrumbLoop fuel st nodeId 0 [] with
  | Some (names, _) => Some (JS.join " > " (rev names))
  | None => None
  end.

(** ** isNodeVisible (flowchart.js:238-257) *)

Definition isSome {A} (o : option A) : bool :=
  match o with Some _ => true | None => false end.

(** [value === s] for the value of a select that may be missing. *)
Definition valueIs (value : option string) (s : string) : bool :=
  match value with Some v => String.eqb v s | None => false end.

(** The two early returns that depend on the stats entry. *)
Definition connectionRejects (connection : option string) (stats : option Stats) : bool :=
  match stats with
  | Some s =>
      (valueIs connection "inbound" && (inboundCount s =? 0)%N)
      || (valueIs connection "outbound" && (outboundCount s =? 0)%N)
  | None => false
  end.

(** The early return of the status select. *)
Definition statusRejects (statusSelect : option string) (node : Node) : bool :=
  match statusSelect with
  | Some statusFilter =>
      negb (String.eqb statusFilter "all") && negb (String.eqb (status node) statusFilter)
  | None => false
  end.

Definition isNodeVisible (dom : Filters) (st : State) (nodeId : string) : bool :=
  match JS.get (nodeMap st) nodeId with
  | None => false
  | Some node =>
      if _forceVisible node then true
      else if connectionRejects (connectionFilter dom) (JS.get (nodeStats st) nodeId) then false
      else if statusRejects (statusFilter dom) node then false
      else true
  end.

(** ** fetchAllStats (flowchart.js:371-391) *)

Definition orZero (n : option N) : N :=
  match n with Some v => v | None => 0%N end.

Definition statsOfRaw (r : RawStats) : Stats :=
  mkStats (orZero (total_inbound_count r)) (orZero (total_outbound_count r)).

Definition statsFromResponse (allStats : JS.obj RawStats) : JS.obj Stats :=
  fold_left (fun acc kv => JS.set acc (fst kv) (statsOfRaw (snd kv)))
            (JS.entries allStats) [].

Definition fetchAllStats (srv : Server) : M unit :=
  match statsResponse srv with
  | Some allStats => modify (setNodeStats (statsFromResponse allStats))
  | None => modify (setNodeStats [])
  end.

(** ** renderNode (flowchart.js:565-674) *)

(** [ids.map(call).join('')], the visited set being threaded through. *)
Fixpoint mapRender (call : string -> M (list RTree)) (ids : list string) : M (list RTree) :=
  match ids with
  | [] => ret []
  | c :: rest =>
      h <- call c ;;
      t <- mapRender call rest ;;
      ret (h ++ t)
  end.

Fixpoint renderNode (fuel : nat) (dom : Filters) (nodeId : string) (level : nat)
  : M (list RTree) :=
  match fuel with
  | 0 => outOfFuel
  | S fuel' => fun st =>
      match JS.get (nodeMap st) nodeId with
      | None => ret [] st
      | Some node =>
          if negb (_forceVisible node) && negb (isNodeVisible dom st nodeId) then ret [] st
          else if JS.has (renderedNodes st) nodeId then ret [] st
          else
            (modify (fun s => setRenderedNodes (renderedNodes s ++ [nodeId]) s) ;;;
             let sortedChildren := JS.sort (childrenOrEmpty node) in
             let hasChildren := negb (Nat.eqb (List.length sortedChildren) 0) in
             if hasChildren && negb (singleNodeMode st && Nat.eqb level 0) then
               kids <- mapRender (fun childId => renderNode fuel' dom childId (S level))
                                 sortedChildren ;;
               ret [RNode nodeId level kids]
             else ret [RNode nodeId level []]) st
      end
  end.

(** The focus and viewport step that follows a render: a pending focus
    request is consumed. *)
Definition finishRender : M unit :=
  modify (fun st => if JS.truthyOpt (nodeToFocusId st) then setNodeToFocusId None st else st).

(** ** assignFriendlyIds (flowchart.js:748-758) *)

(** [nodesInOrder], as the keys under which the node objects are stored. *)
Definition nodesInOrder (orderArray : option (list Node)) (nm : JS.obj Node) : list string :=
  match orderArray with
  | Some arr => filter (fun k => isSome (JS.get nm k)) (map contentId arr)
  | None => JS.ownKeys nm
  end.

Definition stampFriendlyId (acc : JS.obj Node * nat) (k : string) : JS.obj Node * nat :=
  let (nm, counter) := acc in
  (match JS.get nm k with
   | Some node => JS.set nm k (withFriendlyId node (Some (JS.padStart0 2 (JS.ofNat counter))))
   | None => nm
   end, S counter).

Definition assignFriendlyIds (orderArray : option (list Node)) : M unit :=
  modify (fun st =>
    setNodeMap (fst (fold_left stampFriendlyId (nodesInOrder orderArray (nodeMap st))
                               (nodeMap st, 1))) st).

(** ** loadAndRenderTree (flowchart.js:677-745) *)

Definition buildNodeMap (response : list Node) : JS.obj Node :=
  fold_left (fun nm node => JS.set nm (contentId node) node) response [].

Definition recordParent (nm : JS.obj Node) (parent : string)
           (pm : JS.obj string) (childId : string) : JS.obj string :=
  if JS.truthy childId && isSome (JS.get nm childId) then JS.set pm childId parent else pm.

Definition buildParentMap (nm : JS.obj Node) (response : list Node) : JS.obj string :=
  fold_left (fun pm node =>
               match children node with
               | Some cs => fold_left (recordParent nm (contentId node)) cs pm
               | None => pm
               end)
            response [].

Definition loadAndRenderTree (fuel : nat) (dom : Filters) (srv : Server) : M unit :=
  modify (setView VSpinner) ;;;
  modify (setRenderedNodes []) ;;;
  modify (setNodeMap []) ;;;
  modify (setParentMap []) ;;;
  match treeResponse srv with
  | Rejected msg => modify (setView (VLoadError msg))
  | Resolved [] => modify (setView VNoRoot)
  | Resolved ((first :: _) as response) =>
      modify (setNodeMap (buildNodeMap response)) ;;;
      modify (fun st => setParentMap (buildParentMap (nodeMap st) response) st) ;;;
      assignFriendlyIds (Some response) ;;;
      let rootNodeId := contentId first in
      if negb (JS.truthy rootNodeId) then modify (setView (VLoadError "No root node found"))
      else
        modify (setStableRootId (Some rootNodeId)) ;;;
        fetchAllStats srv ;;;
        forest <- renderNode fuel dom rootNodeId 0 ;;
        modify (setView (VTree forest)) ;;;
        finishRender
  end.

(** ** loadAndRenderVisuals (flowchart.js:502-562) *)

Fixpoint markParentsVisible (fuel : nat) (currentId : string) : M unit :=
  match fuel with
  | 0 => outOfFuel
  | S fuel' => fun st =>
      match JS.get (parentMap st) currentId with
      | Some parentId =>
          if JS.truthy parentId then
            match JS.get (nodeMap st) parentId with
            | None => ret tt st
            | Some parent =>
                (modify (setNodeMap (JS.set (nodeMap st) parentId (withForceVisible parent true))) ;;;
                 markParentsVisible fuel' parentId) st
            end
          else ret tt st
      | None => ret tt st
      end
  end.

(** [for (const nodeId in nodeMap) if (isNodeVisible(nodeId)) markParentsVisible(nodeId)] *)
Definition markVisibleParents (fuel : nat) (dom : Filters) : M unit :=
  ks <- gets (fun st => JS.ownKeys (nodeMap st)) ;;
  forEach ks (fun nodeId st =>
                if isNodeVisible dom st nodeId then markParentsVisible fuel nodeId st
                else ret tt st).

(** [for (const nodeId in nodeMap) delete nodeMap[nodeId]._forceVisible] *)
Definition clearForceVisible : M unit :=
  ks <- gets (fun st => JS.ownKeys (nodeMap st)) ;;
  forEach ks (fun nodeId =>
                modify (fun st =>
                  match JS.get (nodeMap st) nodeId with
                  | Some node => setNodeMap (JS.set (nodeMap st) nodeId (withForceVisible node false)) st
                  | None => st
                  end)).

(** [rootOverrideId || stableRootId || Object.keys(nodeMap)[0]] *)
Definition chooseRoot (rootOverrideId : option string) (st : State) : option string :=
  JS.orElse rootOverrideId (JS.orElse (stableRootId st) (hd_error (JS.ownKeys (nodeMap st)))).

Definition loadAndRenderVisuals (fuel : nat) (dom : Filters) (srv : Server)
           (rootOverrideId : option string) : M unit :=
  modify (setRenderedNodes []) ;;;
  modify (setView VRendering) ;;;
  markVisibleParents fuel dom ;;;
  root <- gets (chooseRoot rootOverrideId) ;;
  nm <- gets nodeMap ;;
  match root with
  | Some rootNodeId =>
      if JS.truthy rootNodeId && isSome (JS.get nm rootNodeId) then
        fetchAllStats srv ;;;
        forest <- renderNode fuel dom rootNodeId 0 ;;
        modify (setView (VTree forest)) ;;;
        finishRender ;;;
        clearForceVisible
      else
        stable <- gets stableRootId ;;
        if JS.truthyOpt stable then loadAndRenderTree fuel dom srv else ret tt
  | None =>
      stable <- gets stableRootId ;;
      if JS.truthyOpt stable then loadAndRenderTree fuel dom srv else ret tt
  end.

(** ** applyFilters (flowchart.js:314-368) *)

Inductive JSValue : Type :=
| VUndefined
| VBool (b : bool).

(** How a handler call completes for its caller. *)
Inductive Completion : Type :=
| Returns (v : JSValue)
| Throws (message : string).

(** The text of the engine's TypeError for a property access on undefined. *)
Definition typeErrorMessage : string := "Cannot set properties of undefined".

Definition dquote : string := String (Ascii.ascii_of_nat 34) EmptyString.

(** [input ? input.value.trim().toLowerCase() : ''] *)
Definition queryOf (input : option string) : string :=
  match input with
  | Some value => JS.toLowerCase (JS.trim value)
  | None => ""
  end.

Definition orEmpty (s : option string) : string :=
  match s with Some v => v | None => "" end.

(** The body of the search loop: [matchesName && matchesId]. *)
Definition matchesSearch (nameQ idQ : string) (node : Node) : bool :=
  let matchesName :=
    if Nat.leb 2 (String.length nameQ) then
      JS.includes (JS.toLowerCase (name node)) nameQ
      || JS.includes (JS.toLowerCase (description node)) nameQ
    else true in
  let matchesId :=
    if Nat.leb 1 (String.length idQ) then
      JS.includes (JS.toLowerCase (orEmpty (friendlyId node))) idQ
    else true in
  matchesName && matchesId.

(** [for (const id in nodeMap) { ... if (matchesName && matchesId) { foundNodeId = id; break; } }] *)
Definition findFirstMatch (nameQ idQ : string) (nm : JS.obj Node) : option string :=
  find (fun id => match JS.get nm id with
                  | Some node => matchesSearch nameQ idQ node
                  | None => false
                  end)
       (JS.ownKeys nm).

Definition searchActive (nameQ idQ : string) : bool :=
  Nat.leb 2 (String.length nameQ) || Nat.leb 1 (String.length idQ).

Definition applyFilters (fuel : nat) (dom : Filters) (srv : Server)
           (nameInput idInput : option string) : M Completion :=
  let nameQ := queryOf nameInput in
  let idQ := queryOf idInput in
  if searchActive nameQ idQ then
    nm <- gets nodeMap ;;
    match findFirstMatch nameQ idQ nm with
    | Some foundNodeId =>
        if JS.truthy foundNodeId then
          modify (setSingleNodeMode true) ;;;
          modify (setNodeToFocusId (Some foundNodeId)) ;;;
          modify (setPreserveViewport false) ;;;
          loadAndRenderVisuals fuel dom srv (Some foundNodeId) ;;;
          n <- gets (fun st => JS.get (nodeMap st) foundNodeId) ;;
          match n with
          | Some node =>
              showMessage ("Displaying only: " ++ name node ++ " (ID "
                             ++ orEmpty (friendlyId node) ++ ")")%string "info" ;;;
              ret (Returns VUndefined)
          | None => ret (Throws "Cannot read properties of undefined")
          end
        else
          modify (setSingleNodeMode false) ;;;
          modify (setView VNoMatch) ;;;
          ret (Returns VUndefined)
    | None =>
        modify (setSingleNodeMode false) ;;;
        modify (setView VNoMatch) ;;;
        ret (Returns VUndefined)
    end
  else
    (if valueIs (connectionFilter dom) "inbound" || valueIs (connectionFilter dom) "outbound"
     then fetchAllStats srv else ret tt) ;;;
    rootId <- gets (fun st => JS.orElse (stableRootId st)
                                (JS.orElse (hd_error (JS.ownKeys (nodeMap st))) None)) ;;
    if JS.truthyOpt rootId then
      modify (setSingleNodeMode false) ;;;
      modify (setPreserveViewport true) ;;;
      loadAndRenderVisuals fuel dom srv rootId ;;;
      ret (Returns VUndefined)
    else
      modify (setView VNoNodes) ;;;
      ret (Returns VUndefined).

(** ** handleEditSubmit (flowchart.js:394-422) *)

Definition handleEditSubmit (fuel : nat) (dom : Filters) (srv : Server)
           (contentId editName editDescription newStatus : string) : M Completion :=
  let newName := JS.trim editName in
  let newDescription := JS.trim editDescription in
  match updateResponse srv with
  | Rejected msg =>
      showMessage ("Failed to update node: " ++ msg)%string "error" ;;;
      loadAndRenderTree fuel dom srv ;;;
      ret (Returns VUndefined)
  | Resolved _ =>
      showMessage ("Node updated to '" ++ newName ++ "' (Status: " ++ newStatus ++ ").")%string
                  "success" ;;;
      nm <- gets nodeMap ;;
      match JS.get nm contentId with
      | Some node =>
          modify (setNodeMap (JS.set nm contentId (withContent node newName newDescription newStatus))) ;;;
          modify (setNodeToFocusId (Some contentId)) ;;;
          modify (setPreserveViewport false) ;;;
          stable <- gets stableRootId ;;
          loadAndRenderVisuals fuel dom srv stable ;;;
          ret (Returns VUndefined)
      | None =>
          (* the assignment to [nodeMap[contentId].name] throws; the handler's
             own catch block takes over *)
          showMessage ("Failed to update node: " ++ typeErrorMessage)%string "error" ;;;
          loadAndRenderTree fuel dom srv ;;;
          ret (Returns VUndefined)
      end
  end.

(** ** deleteNode (flowchart.js:426-456) *)

(** Step 2 of the handler, "update local maps". *)
Definition deleteLocally (contentId : string) (parentId : option string) (st : State) : State :=
  let st1 :=
    match parentId with
    | Some p =>
        if JS.truthy p then
          match JS.get (nodeMap st) p with
          | Some parent =>
              match children parent with
              | Some cs =>
                  setNodeMap
                    (JS.set (nodeMap st) p
                       (withChildren parent
                          (Some (filter (fun id => negb (String.eqb id contentId)) cs))))
                    st
              | None => st
              end
          | None => st
          end
        else st
    | None => st
    end in
  setParentMap (JS.delete (parentMap st1) contentId)
               (setNodeMap (JS.delete (nodeMap st1) contentId) st1).

Definition deleteNode (fuel : nat) (dom : Filters) (srv : Server)
           (contentId nodeName : string) (confirmed : bool) : M Completion :=
  if negb confirmed then ret (Returns VUndefined)
  else
    parentId <- gets (fun st => JS.orElse (JS.get (parentMap st) contentId) None) ;;
    match deleteResponse srv with
    | Rejected msg =>
        showMessage ("Failed to delete node: " ++ msg)%string "error" ;;;
        locationReload ;;;
        ret (Returns VUndefined)
    | Resolved _ =>
        modify (deleteLocally contentId parentId) ;;;
        stable <- gets stableRootId ;;
        modify (setNodeToFocusId (JS.orElse parentId (JS.orElse stable None))) ;;;
        modify (setPreserveViewport false) ;;;
        loadAndRenderTree fuel dom srv ;;;
        showMessage ("Node " ++ dquote ++ nodeName ++ dquote ++ " deleted successfully.")%string
                    "success" ;;;
        ret (Returns VUndefined)
    end.

(** ** The earlier copy of the renderer (flowchart.js:1107-1125, 1605-1809) *)

Module Legacy.

Definition isNodeVisible (dom : Filters) (st : State) (nodeId : string) : bool :=
  match JS.get (nodeMap st) nodeId with
  | None => false
  | Some _ =>
    if connectionRejects (connectionFilter dom) (JS.get (nodeStats st) nodeId) then false
    else true
  end.

(** [(node.children || []).sort()]: when the node has a children array, it
    is that array which is sorted, inside the store. *)
Definition sortChildrenInPlace (nodeId : string) (node : Node) : M (list string) :=
  match children node with
  | Some cs =>
    modify (fun s => setNodeMap (JS.set (nodeMap s) nodeId
                                        (withChildren node (Some (JS.sort cs)))) s) ;;;
    ret (JS.sort cs)
  | None => ret (JS.sort [])
  end.

Fixpoint renderNode (fuel : nat) (dom : Filters) (nodeId : string) (level : nat)
  : M (list RTree) :=
  match fuel with
  | 0 => outOfFuel
  | S fuel' => fun st =>
    match JS.get (nodeMap st) nodeId with
    | None => ret [] st
    | Some node =>
        if negb (isNodeVisible dom st nodeId) then ret [] st
        else if JS.has (renderedNodes st) nodeId then ret [] st
        else
          (modify (fun s => setRenderedNodes (renderedNodes s ++ [nodeId]) s) ;;;
           sortedChildren <- sortChildrenInPlace nodeId node ;;
           let hasChildren := negb (Nat.eqb (List.length sortedChildren) 0) in
           if hasChildren then
             kids <- mapRender (fun childId => renderNode fuel' dom childId (S level))
                               sortedChildren ;;
             ret [RNode nodeId level kids]
           else ret [RNode nodeId level []]) st
    end
  end.

(** loadAndRenderTree (flowchart.js:1721-1768); [visuals] is the call to
    loadAndRenderVisuals it ends with. *)
Definition loadAndRenderTree (visuals : option string -> M unit) (srv : Server) : M unit :=
  modify (setView VSpinner) ;;;
  modify (setRenderedNodes []) ;;;
  match treeResponse srv with
  | Rejected msg => modify (setView (VLoadError msg))
  | Resolved [] => modify (setView VNoRoot)
  | Resolved ((first :: _) as response) =>
    modify (setNodeMap (buildNodeMap response)) ;;;
    modify (setStableRootId (Some (contentId first))) ;;;
    nm <- gets nodeMap ;;
    match JS.get nm (contentId first) with
    | Some rootNode =>
        visuals (Some (contentId first)) ;;;
        showMessage ("Tree loaded successfully, starting from root: "
                       ++ name rootNode ++ ".")%string "success"
    | None => modify (setView (VLoadError "Cannot read properties of undefined"))
    end
  end.

(** loadAndRenderVisuals (flowchart.js:1774-1809). *)
Fixpoint loadAndRenderVisuals (fuel : nat) (dom : Filters) (srv : Server)
       (rootOverrideId : option string) : M unit :=
  match fuel with
  | 0 => outOfFuel
  | S fuel' =>
    modify (setRenderedNodes []) ;;;
    modify (setView VRendering) ;;;
    root <- gets (chooseRoot rootOverrideId) ;;
    nm <- gets nodeMap ;;
    if JS.truthyOpt root && isSome (JS.get nm (orEmpty root)) then
      forest <- renderNode fuel' dom (orEmpty root) 0 ;;
      modify (setView (VTree forest)) ;;;
      finishRender
    else
      stable <- gets stableRootId ;;
      if JS.truthyOpt stable
      then loadAndRenderTree (loadAndRenderVisuals fuel' dom srv) srv
      else ret tt
  end.

End Legacy.

(** ** fetchWithRetry (flowchart.js:25-26, 104-129) *)

Module Retry.

Definition MAX_RETRIES : nat := 5.

(** How one [fetch] settles: with an [ok] response whose body parses, with
    an [ok] response whose [response.json()] rejects, or in any other way
    (network failure, a response that is not [ok]). *)
Inductive Attempt : Type := Succeeds | BadBody | Fails.

(** What the function does once the [fetch] of an activation has settled. *)
Inductive Step : Type :=
  | Resolve                 (* retryCount = 0; return await response.json() *)
  | RetryAfter (delay : nat) (* retryCount++; wait; call fetchWithRetry again *)
  | Fatal.                  (* showMessage, schedule the redirect, throw *)

(** The [catch] block, entered with the counter at [retryCount]. *)
Definition catchBlock (retryCount : nat) : Step * nat :=
  if Nat.ltb retryCount MAX_RETRIES
  then (RetryAfter (Nat.pow 2 (S retryCount) * 100), S retryCount)
  else (Fatal, retryCount).

(** An [ok] response resets the counter before its body is read
    (flowchart.js:115-116), so a body that does not parse reaches the
    [catch] block with the counter at 0. *)
Definition body (a : Attempt) (retryCount : nat) : Step * nat :=
  match a with
  | Succeeds => (Resolve, 0)
  | BadBody => catchBlock 0
  | Fails => catchBlock retryCount
  end.

(** How an operation (one call made by a handler) stands. *)
Inductive Status : Type :=
  | InFlight
  | Resolved
  | Rethrown.

Record Op : Type := mkOp {
  opStatus : Status;
  retries : nat;              (* calls of fetchWithRetry after the first *)
  delays : list nat;          (* the waits, in milliseconds, in order *)
  fatalMessages : nat;        (* showMessage('Fatal Error: ...', 'error') *)
  redirects : nat             (* setTimeout(() => location.href = 'index.html', 1000) *)
  }.

Definition freshOp : Op := mkOp InFlight 0 [] 0 0.

(** One activation of the body inside operation [op]. *)
Definition settle (a : Attempt) (op : Op) (retryCount : nat) : Op * nat :=
  match opStatus op with
  | InFlight =>
    match body a retryCount with
    | (Resolve, rc) => (mkOp Resolved (retries op) (delays op) (fatalMessages op) (redirects op), rc)
    | (RetryAfter d, rc) =>
        (mkOp InFlight (S (retries op)) (delays op ++ [d]) (fatalMessages op) (redirects op), rc)
    | (Fatal, rc) =>
        (mkOp Rethrown (retries op) (delays op) (S (fatalMessages op)) (S (redirects op)), rc)
    end
  | _ => (op, retryCount)
  end.

(** An operation on its own: its fetches settle as [attempts] says, nothing
    else touches the counter in between. *)
Fixpoint fetchWithRetry (attempts : list Attempt) (op : Op) (retryCount : nat) : Op * nat :=
  match attempts with
  | [] => (op, retryCount)
  | a :: rest =>
    let (op', rc) := settle a op retryCount in
    fetchWithRetry rest op' rc
  end.

(** Several operations in flight at once: the page state is the shared
    counter and one record per operation; an event is the settling of the
    pending fetch of one operation. *)
Record Page : Type := mkPage {
  retryCount : nat;
  ops : nat -> Op
  }.

Definition initialPage : Page := mkPage 0 (fun _ => freshOp).

Definition onSettled (ev : nat * Attempt) (p : Page) : Page :=
  let (i, a) := ev in
  let (op', rc) := settle a (ops p i) (retryCount p) in
  mkPage rc (fun j => if Nat.eqb j i then op' else ops p j).

Definition run (schedule : list (nat * Attempt)) (p : Page) : Page :=
  fold_left (fun q ev => onSettled ev q) schedule p.

(** A schedule with requests in flight at once: operation 0 keeps failing
    while, during each of its waits, the fetch of another operation
    succeeds. *)
Definition overlapping (start n : nat) : list (nat * Attempt) :=
  flat_map (fun i => [(0, Fails); (S i, Succeeds)]) (seq start n).

(** The attempts of a list that end in an unparseable body. *)
Definition badBodies (attempts : list Attempt) : nat :=
  List.length (filter (fun a => match a with BadBody => true | _ => false end) attempts).

End Retry.

(** ** Vocabulary of the statements *)

(** The ids of the emitted cards, in document order. *)
Fixpoint idsOf (t : RTree) : list string :=
  match t with
  | RNode id _ kids => id :: flat_map idsOf kids
  end.

Definition ids (forest : list RTree) : list string := flat_map idsOf forest.

Definition rootId (t : RTree) : string :=
  match t with RNode id _ _ => id end.



(** The forest shown by the page, if it shows one. *)
Definition shownForest (st : State) : option (list RTree) :=
  match view st with VTree f => Some f | _ => None end.

(** A node that the renderer does not filter out. *)
Definition passes (dom : Filters) (st : State) (nodeId : string) : bool :=
  match JS.get (nodeMap st) nodeId with
  | Some node => _forceVisible node || isNodeVisible dom st nodeId
  | None => false
  end.

(** [c] is listed among the children of [p]. *)
Definition childOf (st : State) (p c : string) : Prop :=
  exists node, JS.get (nodeMap st) p = Some node /\ In c (childrenOrEmpty node).

(** Reachable from the render root through nodes that are not filtered out. *)
Inductive visiblyReachable (dom : Filters) (st : State) (root : string) : string -> Prop :=
| vr_root : passes dom st root = true -> visiblyReachable dom st root root
| vr_child : forall p c,
    visiblyReachable dom st root p -> childOf st p c -> passes dom st c = true ->
    visiblyReachable dom st root c.

(** [chain] lists the ancestors of [d] as the parent map records them, nearest
    first; every one of them resolves in the node map. *)
Fixpoint ancestorChain (st : State) (d : string) (chain : list string) : Prop :=
  match chain with
  | [] => True
  | a :: rest =>
      JS.get (parentMap st) d = Some a /\ JS.truthy a = true
      /\ isSome (JS.get (nodeMap st) a) = true /\ ancestorChain st a rest
  end.

(** Every walk up the parent map ends within [n] hops. *)
Fixpoint hopsBounded (n : nat) (pm : JS.obj string) (id : string) : bool :=
  match JS.get pm id with
  | Some p =>
      if JS.truthy p then
        match n with 0 => false | S m => hopsBounded m pm p end
      else true
  | None => true
  end.

Definition parentsWellFounded (n : nat) (st : State) : Prop :=
  forall id, hopsBounded n (parentMap st) id = true.

(** The parent map agrees with the children lists. *)
Definition parentsAreListed (st : State) : Prop :=
  forall c p, JS.get (parentMap st) c = Some p -> isSome (JS.get (nodeMap st) p) = true ->
              childOf st p c.

(** The last node of the scan whose children list contains [c]. *)
Definition lastWriter (response : list Node) (c : string) : option string :=
  match find (fun node => JS.has (childrenOrEmpty node) c) (rev response) with
  | Some node => Some (contentId node)
  | None => None
  end.

(** The stored nodes that a render pass has not visited yet. *)
Definition unrenderedCount (ks r : list string) : nat :=
  List.length (filter (fun k => negb (JS.has r k)) ks).



(** What a full reload leaves in the maps, as a function of the response. *)
Definition fetchedStats (srv : Server) : JS.obj Stats :=
  match statsResponse srv with
  | Some allStats => statsFromResponse allStats
  | None => []
  end.

Definition ingestedNodeMap (response : list Node) : JS.obj Node :=
  fst (fold_left stampFriendlyId
                 (nodesInOrder (Some response) (buildNodeMap response))
                 (buildNodeMap response, 1)).

Definition reloadedNodeMap (srv : Server) : JS.obj Node :=
  match treeResponse srv with
  | Resolved response => ingestedNodeMap response
  | Rejected _ => []
  end.

Definition reloadedParentMap (srv : Server) : JS.obj string :=
  match treeResponse srv with
  | Resolved response => buildParentMap (buildNodeMap response) response
  | Rejected _ => []
  end.

Definition reloadedRoot (srv : Server) (before : option string) : option string :=
  match treeResponse srv with
  | Resolved (first :: _) =>
      if JS.truthy (contentId first) then Some (contentId first) else before
  | _ => before
  end.

Definition responseSize (srv : Server) : nat :=
  match treeResponse srv with
  | Resolved response => List.length response
  | Rejected _ => 0
  end.

(** A child id for which the scan records a parent. *)
Definition eligibleChild (nm : JS.obj Node) (c : string) : bool :=
  JS.truthy c && isSome (JS.get nm c).

(** Two entries that differ at most in the force-visible flag, which is not
    taken away. *)
Definition sameButFlag (kv kv' : string * Node) : Prop :=
  fst kv' = fst kv
  /\ snd kv' = withForceVisible (snd kv) (_forceVisible (snd kv'))
  /\ (_forceVisible (snd kv) = true -> _forceVisible (snd kv') = true).

(** [nm'] is [nm] with some more nodes flagged force-visible. *)
Definition flagsExtend (nm nm' : JS.obj Node) : Prop := Forall2 sameButFlag nm nm'.

Definition flagged (nm : JS.obj Node) (a : string) : Prop :=
  exists node, JS.get nm a = Some node /\ _forceVisible node = true.

(** The state change of [finishRender]. *)
Definition finalFocus (st : State) : State :=
  if JS.truthyOpt (nodeToFocusId st) then setNodeToFocusId None st else st.

(** One step of the cleanup loop. *)
Definition clearFlag (nodeId : string) (st : State) : State :=
  match JS.get (nodeMap st) nodeId with
  | Some node => setNodeMap (JS.set (nodeMap st) nodeId (withForceVisible node false)) st
  | None => st
  end.

(** ** getLevelColor (flowchart.js:774-779) *)

Definition levelHue (level : nat) : nat := (level * 57 + 137) mod 360.

Definition getLevelColor (level : nat) : string :=
  ("hsl(" ++ JS.ofNat (levelHue level) ++ ", 55%, 70%)")%string.

(** ** formatTreePath (flowchart.js:88-102) *)

(** [s.split(sep)] for a separator of one character. *)
Fixpoint splitOn (sep : ascii) (s : string) : list string :=
  match s with
  | EmptyString => [EmptyString]
  | String c rest =>
      if Ascii.eqb c sep then EmptyString :: splitOn sep rest
      else match splitOn sep rest with
           | h :: t => String c h :: t
           | [] => [String c EmptyString]
           end
  end.

(** [pathString.split('>').map(p => p.trim()).filter(Boolean)] *)
Definition pathParts (pathString : string) : list string :=
  filter JS.truthy (map JS.trim (splitOn ">"%char pathString)).

(** The en dash of the branch marker, as its UTF-8 bytes. *)
Definition enDash : string :=
  String (ascii_of_nat 226) (String (ascii_of_nat 128) (String (ascii_of_nat 147) EmptyString)).

Definition branchMark : string := ("|" ++ enDash ++ enDash ++ " ")%string.

Definition levelIndent : string := "      ".

Definition newline : string := String (ascii_of_nat 10) EmptyString.

(** The [for] loop over [parts[1..]]; [prefix] grows by one indent a turn. *)
Fixpoint formatLoop (prefix : string) (names : list string) : list string :=
  match names with
  | [] => []
  | nm :: rest =>
      (prefix ++ "|")%string :: (prefix ++ branchMark ++ nm)%string
        :: formatLoop (prefix ++ levelIndent)%string rest
  end.

(** The text laid out from the parts. *)
Definition treeText (parts : list string) : string :=
  match parts with
  | [] => ""
  | first :: rest => JS.join newline (first :: formatLoop "" rest)
  end.

Definition formatTreePath (pathString : string) : string :=
  treeText (pathParts pathString).

(** ** buildSubtreeLines (flowchart.js:73-86) *)

(** The [for ... of node.children] loop; [recur] is the recursive call. *)
Fixpoint subtreeLoop (recur : string -> option (list string)) (nm : JS.obj Node)
         (prefix : string) (cs : list string) : option (list string) :=
  match cs with
  | [] => Some []
  | childId :: rest =>
      match JS.get nm childId with
      | None => subtreeLoop recur nm prefix rest
      | Some child =>
          match recur childId with
          | None => None
          | Some childSub =>
              match subtreeLoop recur nm prefix rest with
              | None => None
              | Some more =>
                  Some ((prefix ++ "|")%string :: (prefix ++ branchMark ++ name child)%string
                          :: childSub ++ more)
              end
          end
      end
  end.

Fixpoint buildSubtreeLines (fuel : nat) (st : State) (nodeId prefix : string)
  : option (list string) :=
  match fuel with
  | 0 => None
  | S fuel' =>
      match JS.get (nodeMap st) nodeId with
      | None => Some []
      | Some node =>
          match children node with
          | None => Some []
          | Some cs =>
              subtreeLoop (fun childId =>
                             buildSubtreeLines fuel' st childId (prefix ++ levelIndent)%string)
                          (nodeMap st) prefix cs
          end
      end
  end.

(** The name stored under an id. *)
Definition nameAt (st : State) (id : string) : string :=
  match JS.get (nodeMap st) id with
  | Some node => name node
  | None => ""
  end.

(** No stored child below [id] lies deeper than [n] levels. *)
Fixpoint heightBounded (n : nat) (nm : JS.obj Node) (id : string) : bool :=
  match JS.get nm id with
  | None => true
  | Some node =>
      match n with
      | 0 => forallb (fun c => negb (isSome (JS.get nm c))) (childrenOrEmpty node)
      | S m => forallb (heightBounded m nm) (childrenOrEmpty node)
      end
  end.

(** [c] occurs in [s]. *)
Fixpoint hasChar (c : ascii) (s : string) : bool :=
  match s with
  | EmptyString => false
  | String x rest => Ascii.eqb x c || hasChar c rest
  end.

(** The nesting level of a card. *)
Definition levelOf (t : RTree) : nat :=
  match t with RNode _ level _ => level end.

(** The order of the default [sort()] on ids. *)
Definition idLe (a b : string) : Prop := String.leb a b = true.

Fixpoint ascending (l : list string) : Prop :=
  match l with
  | [] => True
  | x :: rest => Forall (idLe x) rest /\ ascending rest
  end.

(** Every children container holds its cards in ascending order of their
    ids, one level below the card it belongs to. *)
Fixpoint laidOut (t : RTree) : Prop :=
  match t with
  | RNode _ level kids =>
      ascending (map rootId kids)
      /\ (fix each (l : list RTree) : Prop :=
            match l with
            | [] => True
            | k :: rest => levelOf k = S level /\ laidOut k /\ each rest
            end) kids
  end.

(** No node of the store carries the force-visible flag. *)
Definition noFlags (nm : JS.obj Node) : Prop :=
  forall k node, JS.get nm k = Some node -> _forceVisible node = false.

(** ** updateParentContainer (flowchart.js:276-311) *)

(** [document.getElementById('node-' + id)] finds a card. *)
Definition cardDrawn (v : View) (id : string) : bool :=
  match v with
  | VTree forest => JS.has (ids forest) id
  | _ => false
  end.

(** The first element of [l], in order, that [f] rewrites. *)
Fixpoint replaceFirst {A} (f : A -> option A) (l : list A) : option (list A) :=
  match l with
  | [] => None
  | x :: rest =>
      match f x with
      | Some x' => Some (x' :: rest)
      | None => option_map (cons x) (replaceFirst f rest)
      end
  end.

(** The children container of the first card of [id], in document order, is
    given the cards [newKids]. *)
Fixpoint setKids (id : string) (newKids : list RTree) (t : RTree) : option RTree :=
  match t with
  | RNode x level kids =>
      if String.eqb x id then Some (RNode x level newKids)
      else option_map (RNode x level) (replaceFirst (setKids id newKids) kids)
  end.

Definition replaceContainer (id : string) (newKids : list RTree) (st : State) : State :=
  match view st with
  | VTree forest =>
      match replaceFirst (setKids id newKids) forest with
      | Some forest' => setView (VTree forest') st
      | None => st
      end
  | _ => st
  end.

(** [!parentNode || !parentNode.children || parentNode.children.length === 0] *)
Definition hasNoChildren (parentNode : option Node) : bool :=
  match parentNode with
  | None => true
  | Some node =>
      match children node with
      | None => true
      | Some [] => true
      | Some (_ :: _) => false
      end
  end.

Definition updateParentContainer (fuel : nat) (dom : Filters) (parentId : string) : M unit :=
  if negb (JS.truthy parentId) then ret tt
  else
    nm <- gets nodeMap ;;
    if hasNoChildren (JS.get nm parentId) then modify (replaceContainer parentId [])
    else
      v <- gets view ;;
      if negb (cardDrawn v parentId) then ret tt
      else
        kids <- mapRender (fun childId st =>
                             if isSome (JS.get (nodeMap st) childId)
                             then renderNode fuel dom childId 1 st
                             else ret [] st)
                          (match JS.get nm parentId with
                           | Some parentNode => childrenOrEmpty parentNode
                           | None => []
                           end) ;;
        modify (replaceContainer parentId kids).

(** ** The submit handler of the create-child form (flowchart.js:795-857) *)

(** [nodeMap[parentId]?.name || 'Parent'] *)
Definition parentNameOr (nm : JS.obj Node) (parentId : string) : string :=
  match JS.get nm parentId with
  | Some parent => if JS.truthy (name parent) then name parent else "Parent"
  | None => "Parent"
  end.

(** The new node is put into the local maps. *)
Definition insertChildLocally (parentId childId childName childDescription : string)
           (st : State) : State :=
  let nm1 := JS.set (nodeMap st) childId
                    (mkNode childId childName childDescription "New" (Some []) None false) in
  let pm1 := JS.set (parentMap st) childId parentId in
  let nm2 :=
    match JS.get nm1 parentId with
    | Some parent =>
        JS.set nm1 parentId (withChildren parent (Some (childrenOrEmpty parent ++ [childId])))
    | None => nm1
    end in
  setParentMap pm1 (setNodeMap nm2 st).

(** The [catch] block of the handler. *)
Definition createFailed (fuel : nat) (dom : Filters) (srv : Server) (message : string)
  : M Completion :=
  showMessage ("Failed to create node: " ++ message)%string "error" ;;;
  loadAndRenderTree fuel dom srv ;;;
  ret (Returns VUndefined).

(** [created] is how the request to /node/create settles, with the
    [contentId] of its result; [linked] how the request to /relation/create
    settles. *)
Definition handleCreateChild (fuel : nat) (dom : Filters) (srv : Server)
           (created : Fetched (option string)) (linked : Fetched unit)
           (parentId childNameInput childDescriptionInput : string) : M Completion :=
  nm0 <- gets nodeMap ;;
  let parentName := parentNameOr nm0 parentId in
  let childName := JS.trim childNameInput in
  let childDescription := JS.trim childDescriptionInput in
  if negb (JS.truthy childName) then
    showMessage "Please enter a name for the new node" "error" ;;;
    ret (Returns VUndefined)
  else
    modify (setView VSpinner) ;;;
    showMessage ("Creating node '" ++ childName ++ "'...")%string "info" ;;;
    match created with
    | Rejected message => createFailed fuel dom srv message
    | Resolved result =>
        if negb (JS.truthyOpt result)
        then createFailed fuel dom srv "Failed to create node: No ID returned"
        else
          let childId := orEmpty result in
          showMessage ("Linking '" ++ parentName ++ "' to '" ++ childName ++ "'...")%string
                      "info" ;;;
          match linked with
          | Rejected message => createFailed fuel dom srv message
          | Resolved _ =>
              modify (insertChildLocally parentId childId childName childDescription) ;;;
              v <- gets view ;;
              (if cardDrawn v parentId then
                 updateParentContainer fuel dom parentId ;;;
                 modify (setNodeToFocusId (Some childId)) ;;;
                 modify (setPreserveViewport false)
               else
                 modify (setNodeToFocusId (Some childId)) ;;;
                 modify (setPreserveViewport false) ;;;
                 loadAndRenderTree fuel dom srv) ;;;
              showMessage ("Successfully created '" ++ childName ++ "'")%string "success" ;;;
              ret (Returns VUndefined)
          end
    end.

(** The messages of a run of the handler that got past the name check. *)
Definition createMessages (nm : JS.obj Node) (created : Fetched (option string))
           (linked : Fetched unit) (parentId childName : string) : list Message :=
  mkMessage ("Creating node '" ++ childName ++ "'...")%string "info"
  :: match created with
     | Rejected message => [mkMessage ("Failed to create node: " ++ message)%string "error"]
     | Resolved result =>
         if JS.truthyOpt result then
           mkMessage ("Linking '" ++ parentNameOr nm parentId ++ "' to '" ++ childName
                        ++ "'...")%string "info"
           :: match linked with
              | Rejected message =>
                  [mkMessage ("Failed to create node: " ++ message)%string "error"]
              | Resolved _ =>
                  [mkMessage ("Successfully created '" ++ childName ++ "'")%string "success"]
              end
         else [mkMessage "Failed to create node: Failed to create node: No ID returned" "error"]
     end.

(** The children container of the first card of [id] in document order. *)
Fixpoint firstSome {A B} (f : A -> option B) (l : list A) : option B :=
  match l with
  | [] => None
  | x :: rest =>
      match f x with
      | Some b => Some b
      | None => firstSome f rest
      end
  end.

Fixpoint kidsOf (id : string) (t : RTree) : option (list RTree) :=
  match t with
  | RNode x _ kids => if String.eqb x id then Some kids else firstSome (kidsOf id) kids
  end.

(** ** handleSearch (flowchart.js:1399-1441) *)

(** What the link modal shows: the values of the check boxes listed, the
    status line, and whether the confirm button is disabled. *)
Record LinkModal : Type := mkLinkModal {
  resultsList : list string;
  statusText : string;
  confirmDisabled : bool
}.

(** [searchTerm.replace(/\s/g, '_')] *)
Fixpoint underscoreSpaces (s : string) : string :=
  match s with
  | EmptyString => EmptyString
  | String c rest => String (if JS.isSpace c then "_"%char else c) (underscoreSpaces rest)
  end.

(** [results.forEach(node => { nodeMap[node.contentId] = node; ... })] *)
Definition storeResults (results : list Node) (nm : JS.obj Node) : JS.obj Node :=
  fold_left (fun acc node => JS.set acc (contentId node) node) results nm.

(** [search] gives, for the term put into the endpoint, the way the request
    settles. *)
Definition handleSearch (search : string -> Fetched (list Node)) (input : string)
  : M LinkModal :=
  let searchTerm := JS.trim input in
  if Nat.ltb (String.length searchTerm) 3 then
    ret (mkLinkModal [] "Please enter at least 3 characters to search." true)
  else
    match search (underscoreSpaces searchTerm) with
    | Resolved results =>
        modify (fun st => setNodeMap (storeResults results (nodeMap st)) st) ;;;
        ret (mkLinkModal (map contentId results) "" false)
    | Rejected message =>
        ret (mkLinkModal []
               (if JS.includes message "404"
                then ("No matching, unrelated nodes found for " ++ dquote ++ searchTerm
                        ++ dquote ++ ".")%string
                else ("Search failed: " ++ message)%string)
               true)
    end.

(** ** handleLinkSelected (flowchart.js:1443-1505)

    The handler is defined once, in the earlier copy of the client, and is
    bound to the confirm button by the current one; the reload it ends with
    is the current [loadAndRenderTree]. *)

(** The arrow of the progress messages, as its UTF-8 bytes. *)
Definition arrow : string :=
  String (ascii_of_nat 226) (String (ascii_of_nat 134) (String (ascii_of_nat 146) EmptyString)).

(** The error that ends one turn of the loop, if there is one: a rejected
    relation request counts only when its message does not say that the
    relationship exists. *)
Definition linkFailure (relation click : Fetched unit) : option string :=
  match relation with
  | Rejected message =>
      if JS.includes message "Relationship exists"
      then match click with Rejected m => Some m | Resolved _ => None end
      else Some message
  | Resolved _ =>
      match click with Rejected m => Some m | Resolved _ => None end
  end.

Definition relationPassed (relation : Fetched unit) : bool :=
  match relation with
  | Rejected message => JS.includes message "Relationship exists"
  | Resolved _ => true
  end.

Fixpoint linkLoop (relationCreate linkClick : string -> Fetched unit) (parentName : string)
         (checked : list string) (successCount : nat) : M nat :=
  match checked with
  | [] => ret successCount
  | childId :: rest =>
      nm <- gets nodeMap ;;
      let childName := match JS.get nm childId with
                       | Some child => name child
                       | None => "Unknown Node"
                       end in
      showMessage ("1/2: Creating static link " ++ parentName ++ " " ++ arrow ++ " "
                     ++ childName ++ "...")%string "info" ;;;
      (if relationPassed (relationCreate childId)
       then showMessage "2/2: Recording initial click to update IN/OUT counters..." "info"
       else ret tt) ;;;
      match linkFailure (relationCreate childId) (linkClick childId) with
      | Some message =>
          showMessage ("Failed to link " ++ childName ++ ": " ++ message)%string "error" ;;;
          linkLoop relationCreate linkClick parentName rest successCount
      | None => linkLoop relationCreate linkClick parentName rest (S successCount)
      end
  end.

Definition handleLinkSelected (fuel : nat) (dom : Filters) (srv : Server)
           (relationCreate linkClick : string -> Fetched unit)
           (parentId : string) (checked : list string) : M Completion :=
  nm <- gets nodeMap ;;
  match JS.get nm parentId with
  | None => ret (Throws "Cannot read properties of undefined")
  | Some parent =>
      match checked with
      | [] =>
          showMessage "No nodes selected for linking." "error" ;;;
          ret (Returns VUndefined)
      | _ :: _ =>
          successCount <- linkLoop relationCreate linkClick (name parent) checked 0 ;;
          if Nat.ltb 0 successCount then
            showMessage ("Successfully linked " ++ JS.ofNat successCount ++ " node(s) to "
                           ++ name parent ++ ". Updating view...")%string "success" ;;;
            modify (setNodeToFocusId (Some parentId)) ;;;
            loadAndRenderTree fuel dom srv ;;;
            ret (Returns VUndefined)
          else
            showMessage "No new links were successfully created." "error" ;;;
            ret (Returns VUndefined)
      end
  end.

(** A selected node for which both steps of the loop go through. *)
Definition bothStepsPass (relationCreate linkClick : string -> Fetched unit) (childId : string) : bool :=
  match linkFailure (relationCreate childId) (linkClick childId) with
  | None => true
  | Some _ => false
  end.

(** The last result of a search that carries the id [k]. *)
Definition lastResult (results : list Node) (k : string) : option Node :=
  find (fun node => String.eqb (contentId node) k) (rev results).

(** ** getFirstUrl and linkifyDescription (flowchart.js:260-273) *)

(** [s] without the prefix [p], when it starts with it. *)
Fixpoint stripPrefix (p s : string) : option string :=
  match p with
  | EmptyString => Some s
  | String a p' =>
      match s with
      | EmptyString => None
      | String b s' => if Ascii.eqb a b then stripPrefix p' s' else None
      end
  end.

(** The longest run of characters that are not white space at the start of
    [s], and what follows it. *)
Fixpoint spanNonSpace (s : string) : string * string :=
  match s with
  | EmptyString => (EmptyString, EmptyString)
  | String c rest =>
      if JS.isSpace c then (EmptyString, s)
      else let (run, tail) := spanNonSpace rest in (String c run, tail)
  end.

(** [scheme] followed by at least one character that is not white space. *)
Definition schemeThenRun (scheme s : string) : option string :=
  match stripPrefix scheme s with
  | Some rest =>
      match fst (spanNonSpace rest) with
      | EmptyString => None
      | run => Some (scheme ++ run)%string
      end
  | None => None
  end.

(** The match of [/(https?:\/\/[^\s]+)/] that starts at the first character
    of [s], if there is one. *)
Definition matchUrlHere (s : string) : option string :=
  match stripPrefix "https" s with
  | Some _ => schemeThenRun "https://" s
  | None => schemeThenRun "http://" s
  end.

(** [text.match(urlRegex)]: the leftmost match. *)
Fixpoint getFirstUrl (text : string) : option string :=
  match matchUrlHere text with
  | Some url => Some url
  | None =>
      match text with
      | EmptyString => None
      | String _ rest => getFirstUrl rest
      end
  end.

(** [url.replace] of every double quote by [&quot;]. *)
Fixpoint escapeQuotes (s : string) : string :=
  match s with
  | EmptyString => EmptyString
  | String c rest =>
      if Ascii.eqb c (ascii_of_nat 34) then ("&quot;" ++ escapeQuotes rest)%string
      else String c (escapeQuotes rest)
  end.

Definition anchorOf (url : string) : string :=
  ("<a href=" ++ dquote ++ escapeQuotes url ++ dquote ++ " target=" ++ dquote ++ "_blank"
     ++ dquote ++ " rel=" ++ dquote ++ "noopener noreferrer" ++ dquote ++ " class=" ++ dquote
     ++ "text-blue-600 underline" ++ dquote ++ ">" ++ url ++ "</a>")%string.

(** [text.replace(urlRegex, ...)] with the global flag: the matches from left
    to right, each search starting where the last match ended; [skip] counts
    the characters of a match that are still to be passed over. *)
Fixpoint linkifyFrom (skip : nat) (s : string) : string :=
  match s with
  | EmptyString => EmptyString
  | String c rest =>
      match skip with
      | S k => linkifyFrom k rest
      | 0 =>
          match matchUrlHere s with
          | Some url => (anchorOf url ++ linkifyFrom (String.length url - 1) rest)%string
          | None => String c (linkifyFrom 0 rest)
          end
      end
  end.

Definition linkifyDescription (text : string) : string := linkifyFrom 0 text.

(** [s] contains a white space character. *)
Fixpoint hasSpace (s : string) : bool :=
  match s with
  | EmptyString => false
  | String c rest => JS.isSpace c || hasSpace rest
  end.

(** [s] is empty or starts with a white space character. *)
Definition endsRun (s : string) : bool :=
  match s with
  | EmptyString => true
  | String c _ => JS.isSpace c
  end.

(** ** The zoom scale ([applyZoom])

    [currentScale] is a JavaScript number, here a binary64 [float].
    [Math.max] and [Math.min] return [NaN] when an argument is [NaN] and
    order [-0] below [+0]; the transform written to the page and the copy
    kept in [localStorage] are left out, so that [applyZoom] is the value it
    assigns to [currentScale]. *)

Definition MIN_SCALE : float := 0x1.999999999999ap-4%float.   (* 0.1 *)
Definition MAX_SCALE : float := 0x1.8p+1%float.               (* 3.0 *)

Definition mathMax (a b : float) : float :=
  if is_nan a || is_nan b then nan
  else if (a <=? b)%float
       then (if is_zero a && is_zero b && get_sign b then a else b)
       else a.

Definition mathMin (a b : float) : float :=
  if is_nan a || is_nan b then nan
  else if (a <=? b)%float
       then (if is_zero a && is_zero b && get_sign b then b else a)
       else b.

Definition applyZoom (scale : float) : float :=
  mathMin (mathMax scale MIN_SCALE) MAX_SCALE.

(** ** The full-tree ingest, as the specification words it *)

(** The position, counted from [i], and the copy of the last element of the
    list that carries the id [k]. *)
Fixpoint lastWithIdFrom (i : nat) (response : list Node) (k : string) : option (nat * Node) :=
  match response with
  | [] => None
  | node :: rest =>
      match lastWithIdFrom (S i) rest k with
      | Some found => Some found
      | None => if String.eqb (contentId node) k then Some (i, node) else None
      end
  end.

Definition lastWithId (response : list Node) (k : string) : option (nat * Node) :=
  lastWithIdFrom 0 response k.

(** What a full-tree ingest is to leave stored under [k]: the last element
    with that id, with its position in the list, counted from 1 and padded
    to two digits, as friendly id. *)
Definition ingestedNode (response : list Node) (k : string) : option Node :=
  match lastWithId response k with
  | Some (i, node) => Some (withFriendlyId node (Some (JS.padStart0 2 (JS.ofNat (S i)))))
  | None => None
  end.

(** The counter value, counted from [c], of the last occurrence of [k]. *)
Fixpoint lastStampFrom (c : nat) (ks : list string) (k : string) : option nat :=
  match ks with
  | [] => None
  | k0 :: rest =>
      match lastStampFrom (S c) rest k with
      | Some j => Some j
      | None => if String.eqb k0 k then Some c else None
      end
  end.

(** ** The breadcrumb walk, hop by hop *)

(** The id that stands [k] parent hops above [id]: each hop follows an entry
    of the parent map that is not empty. *)
Fixpoint ancestorAt (pm : JS.obj string) (id : string) (k : nat) : option string :=
  match k with
  | 0 => Some id
  | S k' =>
      match JS.get pm id with
      | Some parentId => if JS.truthy parentId then ancestorAt pm parentId k' else None
      | None => None
      end
  end.

(** The walk cannot take hop [k]: there is no such ancestor, or its id is
    empty, or it is not stored. *)
Definition walkEndsAt (st : State) (id : string) (k : nat) : Prop :=
  match ancestorAt (parentMap st) id k with
  | Some a => JS.truthy a && isSome (JS.get (nodeMap st) a) = false
  | None => True
  end.

(** [names] lists the names of the nodes at hops 0, 1, ... above [id]. *)
Definition namesOfWalk (st : State) (id : string) (names : list string) : Prop :=
  forall i, i < List.length names ->
    exists a node,
      ancestorAt (parentMap st) id i = Some a
      /\ JS.truthy a = true
      /\ JS.get (nodeMap st) a = Some node
      /\ nth_error names i = Some (name node).

(** ** Two passes in flight

    [loadAndRenderVisuals] gives up control once, at
    [await fetchAllStats()]: [visualsUntilAwait] is the function up to that
    point (the reset, the marking loop, the choice of the root; [None] when
    it returns before the await) and [visualsAfterAwait] is what runs when
    the statistics have arrived. *)
Definition visualsUntilAwait (fuel : nat) (dom : Filters) (srv : Server)
           (rootOverrideId : option string) : M (option string) :=
  modify (setRenderedNodes []) ;;;
  modify (setView VRendering) ;;;
  markVisibleParents fuel dom ;;;
  root <- gets (chooseRoot rootOverrideId) ;;
  nm <- gets nodeMap ;;
  match root with
  | Some rootNodeId =>
      if JS.truthy rootNodeId && isSome (JS.get nm rootNodeId) then ret (Some rootNodeId)
      else
        stable <- gets stableRootId ;;
        (if JS.truthyOpt stable then loadAndRenderTree fuel dom srv else ret tt) ;;;
        ret None
  | None =>
      stable <- gets stableRootId ;;
      (if JS.truthyOpt stable then loadAndRenderTree fuel dom srv else ret tt) ;;;
      ret None
  end.

Definition visualsAfterAwait (fuel : nat) (dom : Filters) (srv : Server)
           (rootNodeId : string) : M unit :=
  fetchAllStats srv ;;;
  forest <- renderNode fuel dom rootNodeId 0 ;;
  modify (setView (VTree forest)) ;;;
  finishRender ;;;
  clearForceVisible.

Definition resume (fuel : nat) (dom : Filters) (srv : Server)
           (awaiting : option string) : M unit :=
  match awaiting with
  | Some rootNodeId => visualsAfterAwait fuel dom srv rootNodeId
  | None => ret tt
  end.

(** A second pass is started while the first one waits for its statistics;
    the two then resume in the order in which they were started. *)
Definition overlappingPasses (fuel : nat) (dom : Filters) (srv : Server)
           (first second : option string) : M unit :=
  a <- visualsUntilAwait fuel dom srv first ;;
  b <- visualsUntilAwait fuel dom srv second ;;
  resume fuel dom srv a ;;;
  resume fuel dom srv b.

(* ================================================================== *)
(** * Part II. Properties                                              *)
(* ================================================================== *)

(** ** Objects: lookup after update, enumeration *)

Section Objects.

Context {V : Type}.
Implicit Types (o : JS.obj V) (k : string) (v : V).

Lemma get_set_same o k v : JS.get (JS.set o k v) k = Some v.
Proof.
  induction o as [|[k' v'] o IH]; simpl.
  - now rewrite String.eqb_refl.
  - destruct (String.eqb k' k) eqn:E; simpl.
    + now rewrite String.eqb_refl.
    + now rewrite E.
Qed.

Lemma get_set_other o k k' v : k' <> k -> JS.get (JS.set o k v) k' = JS.get o k'.
Proof.
  intros Hne. induction o as [|[k0 v0] o IH]; simpl.
  - destruct (String.eqb k k') eqn:E; [apply String.eqb_eq in E; congruence | reflexivity].
  - destruct (String.eqb k0 k) eqn:E; simpl.
  + apply String.eqb_eq in E. subst k0.
    destruct (String.eqb k k') eqn:E'; [apply String.eqb_eq in E'; congruence | reflexivity].
  + destruct (String.eqb k0 k'); [reflexivity | exact IH].
Qed.

Lemma get_In_keys o k : isSome (JS.get o k) = true <-> In k (JS.keys o).
Proof.
  induction o as [|[k' v'] o IH]; simpl.
  - split; [discriminate | tauto].
  - destruct (String.eqb k' k) eqn:E; simpl.
    + apply String.eqb_eq in E. tauto.
    + apply String.eqb_neq in E. rewrite IH. split; [tauto | intros [H|H]; [congruence | exact H]].
Qed.

Lemma get_Some_In_keys o k v : JS.get o k = Some v -> In k (JS.keys o).
Proof. intros H. apply get_In_keys. now rewrite H. Qed.

Lemma get_None_not_In o k : JS.get o k = None <-> ~ In k (JS.keys o).
Proof.
  rewrite <- get_In_keys. destruct (JS.get o k); simpl; split; intros H;
  try congruence; try discriminate; try (exfalso; now apply H).
Qed.

(** Assigning to an existing property leaves the enumeration alone. *)
Lemma keys_set_present o k v : In k (JS.keys o) -> JS.keys (JS.set o k v) = JS.keys o.
Proof.
  induction o as [|[k' v'] o IH]; simpl; intros H; [tauto|].
  destruct (String.eqb k' k) eqn:E; simpl.
  - apply String.eqb_eq in E. now subst.
  - f_equal. apply IH. destruct H as [H|H]; [|exact H].
    apply String.eqb_neq in E. congruence.
Qed.

(** A new property is enumerated last. *)
Lemma keys_set_absent o k v : ~ In k (JS.keys o) -> JS.keys (JS.set o k v) = JS.keys o ++ [k].
Proof.
  induction o as [|[k' v'] o IH]; simpl; intros H; [reflexivity|].
  destruct (String.eqb k' k) eqn:E; simpl.
  - apply String.eqb_eq in E. subst. tauto.
  - f_equal. apply IH. tauto.
Qed.

Lemma length_set_le o k v : List.length (JS.set o k v) <= S (List.length o).
Proof.
  induction o as [|[k' v'] o IH]; simpl; [lia|].
  destruct (String.eqb k' k); simpl; lia.
Qed.

Lemma get_delete_same o k : JS.get (JS.delete o k) k = None.
Proof.
  induction o as [|[k' v'] o IH]; simpl; [reflexivity|].
  destruct (String.eqb k' k) eqn:E; simpl; [exact IH | now rewrite E].
Qed.

Lemma delete_absent o k : JS.get o k = None -> JS.delete o k = o.
Proof.
  induction o as [|[k' v'] o IH]; simpl; [reflexivity|].
  destruct (String.eqb k' k) eqn:E; simpl; [discriminate|].
  intros H. f_equal. now apply IH.
Qed.

Lemma In_insertIndex (x y : N * string) l :
  In x (JS.insertIndex y l) <-> x = y \/ In x l.
Proof.
  induction l as [|h t IH]; simpl.
  - intuition congruence.
  - destruct (N.leb (fst y) (fst h)); simpl; [intuition congruence|].
    rewrite IH. intuition congruence.
Qed.

Lemma In_sortedIndexKeys (x : N * string) l :
  In x (fold_right JS.insertIndex [] l) <-> In x l.
Proof.
  induction l as [|h t IH]; simpl; [tauto|].
  rewrite In_insertIndex, IH. intuition congruence.
Qed.

(** [for ... in] visits exactly the keys of the object. *)
Lemma In_ownKeys o k : In k (JS.ownKeys o) <-> In k (JS.keys o).
Proof.
  unfold JS.ownKeys. rewrite in_app_iff, in_map_iff, filter_In.
  split.
  - intros [[[n k'] [Hk Hin]] | [Hin _]]; [|exact Hin].
  simpl in Hk. subst k'. apply (proj1 (In_sortedIndexKeys _ _)) in Hin.
  unfold JS.indexKeys in Hin. apply in_flat_map in Hin.
  destruct Hin as [k0 [Hk0 Hin]].
  destruct (JS.arrayIndex k0); simpl in Hin; [|tauto].
  destruct Hin as [Hin|[]]. now inversion Hin; subst.
  - intros Hin. unfold JS.isIndex.
  destruct (JS.arrayIndex k) as [n|] eqn:E.
  + left. exists (n, k). split; [reflexivity|].
    apply (proj2 (In_sortedIndexKeys _ _)). unfold JS.indexKeys. apply in_flat_map.
    exists k. split; [exact Hin|]. rewrite E. now left.
  + right. now split.
Qed.

End Objects.

Lemma has_true_iff l x : JS.has l x = true <-> In x l.
Proof.
  unfold JS.has. rewrite existsb_exists. split.
  - intros [y [Hy E]]. apply String.eqb_eq in E. now subst.
  - intros H. exists x. split; [exact H | apply String.eqb_refl].
Qed.

Lemma has_false_iff l x : JS.has l x = false <-> ~ In x l.
Proof.
  rewrite <- has_true_iff. destruct (JS.has l x); split; intros; congruence.
Qed.

Lemma In_insertSorted x y l : In x (JS.insertSorted y l) <-> x = y \/ In x l.
Proof.
  induction l as [|h t IH]; simpl.
  - intuition congruence.
  - destruct (String.leb y h); simpl; [intuition congruence|].
    rewrite IH. intuition congruence.
Qed.

(** Sorting keeps the elements. *)
Lemma In_sort x l : In x (JS.sort l) <-> In x l.
Proof.
  unfold JS.sort. induction l as [|h t IH]; simpl; [tauto|].
  rewrite In_insertSorted, IH. intuition congruence.
Qed.

Lemma truthy_true_iff s : JS.truthy s = true <-> s <> "".
Proof.
  unfold JS.truthy. rewrite negb_true_iff. apply String.eqb_neq.
Qed.

(** ** The breadcrumb walk *)

(** The loop returns within [BREADCRUMB_GUARD - guard] iterations, whatever
    the parent map looks like. *)
Lemma breadcrumbLoop_terminates n :
  forall st currentId guard names,
    guard <= BREADCRUMB_GUARD -> BREADCRUMB_GUARD - guard <= n ->
    exists names' hops,
      (forall fuel, n < fuel ->
                    breadcrumbLoop fuel st currentId guard names = Some (names', hops))
      /\ guard <= hops <= BREADCRUMB_GUARD
      /\ List.length names' <= List.length names + (BREADCRUMB_GUARD - guard).
Proof.
  induction n as [|n IH]; intros st currentId guard names Hle Hn.
  - exists names, guard. repeat split; try lia.
    intros [|fuel] Hf; [lia|]. cbn [breadcrumbLoop].
    destruct (JS.get (nodeMap st) currentId); [|reflexivity].
    destruct (Nat.ltb_spec guard BREADCRUMB_GUARD); [lia|].
    now rewrite andb_false_r.
  - destruct (JS.get (nodeMap st) currentId) as [node|] eqn:Hnode.
    2:{ exists names, guard. repeat split; try lia.
        intros [|fuel] Hf; [lia|]. cbn [breadcrumbLoop]. now rewrite Hnode. }
    destruct (JS.truthy currentId && Nat.ltb guard BREADCRUMB_GUARD) eqn:Hcond.
    2:{ exists names, guard. repeat split; try lia.
        intros [|fuel] Hf; [lia|]. cbn [breadcrumbLoop]. now rewrite Hnode, Hcond. }
    apply andb_true_iff in Hcond as Hc. destruct Hc as [_ Hlt].
    apply Nat.ltb_lt in Hlt.
    destruct (JS.truthyOpt (JS.get (parentMap st) currentId)) eqn:Hp.
    2:{ exists (names ++ [name node]), guard. repeat split; try lia.
        - intros [|fuel] Hf; [lia|]. cbn [breadcrumbLoop]. now rewrite Hnode, Hcond, Hp.
        - rewrite length_app. cbn [List.length]. lia. }
    destruct (JS.get (parentMap st) currentId) as [parentId|] eqn:Hpar; [|discriminate].
    destruct (IH st parentId (S guard) (names ++ [name node])) as [names' [hops [Hrun [Hh Hl]]]];
      try lia.
    exists names', hops. repeat split; try lia.
    + intros [|fuel] Hf; [lia|]. cbn [breadcrumbLoop].
      rewrite Hnode, Hcond, Hpar. simpl JS.truthyOpt. simpl in Hp. rewrite Hp.
      apply Hrun. lia.
    + rewrite length_app in Hl. cbn [List.length] in Hl. lia.
Qed.

(** What the loop adds to [names]: the names of the nodes it walks through,
    hop by hop, until the walk cannot go on or the guard is reached. *)
Lemma breadcrumbLoop_walk n :
  forall st currentId guard names,
    guard <= BREADCRUMB_GUARD -> BREADCRUMB_GUARD - guard <= n ->
    exists added hops,
      (forall fuel, n < fuel ->
         breadcrumbLoop fuel st currentId guard names = Some (names ++ added, hops))
      /\ guard <= hops <= BREADCRUMB_GUARD
      /\ List.length added <= BREADCRUMB_GUARD - guard
      /\ namesOfWalk st currentId added
      /\ (List.length added < BREADCRUMB_GUARD - guard ->
          walkEndsAt st currentId (List.length added)).
Proof.
  induction n as [|n IH]; intros st currentId guard names Hle Hn.
  - exists [], guard. rewrite app_nil_r.
    split; [|split; [lia|split; [cbn [List.length]; lia|split]]].
    + intros [|fuel] Hf; [lia|]. cbn [breadcrumbLoop].
      destruct (JS.get (nodeMap st) currentId); [|reflexivity].
      destruct (Nat.ltb_spec guard BREADCRUMB_GUARD); [lia|].
      now rewrite andb_false_r.
    + intros i Hi. cbn [List.length] in Hi. lia.
    + cbn [List.length]. lia.
  - destruct (JS.get (nodeMap st) currentId) as [node|] eqn:Hnode.
    2:{ exists [], guard. rewrite app_nil_r.
        split; [|split; [lia|split; [cbn [List.length]; lia|split]]].
        - intros [|fuel] Hf; [lia|]. cbn [breadcrumbLoop]. now rewrite Hnode.
        - intros i Hi. cbn [List.length] in Hi. lia.
        - intros _. unfold walkEndsAt. cbn [List.length ancestorAt].
          rewrite Hnode. apply andb_false_r. }
    destruct (JS.truthy currentId && Nat.ltb guard BREADCRUMB_GUARD) eqn:Hcond.
    2:{ exists [], guard. rewrite app_nil_r.
        split; [|split; [lia|split; [cbn [List.length]; lia|split]]].
        - intros [|fuel] Hf; [lia|]. cbn [breadcrumbLoop]. now rewrite Hnode, Hcond.
        - intros i Hi. cbn [List.length] in Hi. lia.
        - cbn [List.length]. intros Hlt. unfold walkEndsAt. cbn [ancestorAt].
          apply andb_false_iff in Hcond. destruct Hcond as [Ht|Hg].
          + now rewrite Ht.
          + apply Nat.ltb_ge in Hg. lia. }
    apply andb_true_iff in Hcond as Hc. destruct Hc as [Htruthy Hlt].
    apply Nat.ltb_lt in Hlt.
    assert (Hhere : exists a node0,
                ancestorAt (parentMap st) currentId 0 = Some a
                /\ JS.truthy a = true
                /\ JS.get (nodeMap st) a = Some node0
                /\ nth_error (name node :: @nil string) 0 = Some (name node0)).
    { exists currentId, node. repeat split; auto. }
    destruct (JS.truthyOpt (JS.get (parentMap st) currentId)) eqn:Hp.
    2:{ exists [name node], guard.
        split; [|split; [lia|split; [cbn [List.length]; lia|split]]].
        - intros [|fuel] Hf; [lia|]. cbn [breadcrumbLoop]. now rewrite Hnode, Hcond, Hp.
        - intros i Hi. cbn [List.length] in Hi. assert (i = 0) by lia. subst i.
          exact Hhere.
        - intros _. unfold walkEndsAt. cbn [List.length ancestorAt].
          destruct (JS.get (parentMap st) currentId) as [p|]; [|exact I].
          cbn [JS.truthyOpt] in Hp. now rewrite Hp. }
    destruct (JS.get (parentMap st) currentId) as [parentId|] eqn:Hpar; [|discriminate].
    cbn [JS.truthyOpt] in Hp.
    destruct (IH st parentId (S guard) (names ++ [name node]))
      as [added [hops [Hrun [Hh [Hl [Hnames Hend]]]]]]; try lia.
    exists (name node :: added), hops.
    split; [|split; [lia|split; [cbn [List.length]; lia|split]]].
    + intros [|fuel] Hf; [lia|]. cbn [breadcrumbLoop].
      rewrite Hnode, Hcond, Hpar. cbn [JS.truthyOpt]. rewrite Hp.
      rewrite (Hrun fuel) by lia. now rewrite <- app_assoc.
    + intros [|i] Hi.
      * destruct Hhere as [a [node0 [Ha [Hta [Hga Hna]]]]].
        exists a, node0. repeat split; auto.
      * cbn [List.length] in Hi.
        destruct (Hnames i) as [a [node0 [Ha [Hta [Hga Hna]]]]]; [lia|].
        exists a, node0. cbn [ancestorAt nth_error]. rewrite Hpar, Hp. auto.
    + cbn [List.length]. intros Hlen. unfold walkEndsAt. cbn [ancestorAt].
      rewrite Hpar, Hp. apply Hend. lia.
Qed.

(** C10. For every state of the maps (cyclic parent maps included) and every
    node id, the breadcrumb loop stops after at most 1000 parent hops: any
    budget above the guard returns the same names, at most 1000 of them.
    The names are those of the nodes at hops 0, 1, 2, ... above the node,
    in that order, up to the first hop the walk cannot take (no parent
    entry, an empty id, a node that is not stored) or up to the guard, and
    [getBreadcrumbPath] returns them joined root-first. *)
Theorem C10_breadcrumb_walk_terminates :
  forall (st : State) (nodeId : string),
  exists names hops,
    breadcrumbLoop (S BREADCRUMB_GUARD) st nodeId 0 [] = Some (names, hops)
    /\ hops <= 1000
    /\ List.length names <= 1000
    /\ namesOfWalk st nodeId names
    /\ (List.length names < 1000 -> walkEndsAt st nodeId (List.length names))
    /\ forall fuel, BREADCRUMB_GUARD < fuel ->
                    getBreadcrumbPath fuel st nodeId = Some (JS.join " > " (rev names)).
Proof.
  intros st nodeId.
  destruct (@breadcrumbLoop_walk BREADCRUMB_GUARD st nodeId 0 [])
    as [names [hops [Hrun [Hh [Hl [Hnames Hend]]]]]]; try lia.
  cbn [app] in Hrun.
  exists names, hops. repeat split.
  - apply Hrun. lia.
  - change 1000 with BREADCRUMB_GUARD. lia.
  - change 1000 with BREADCRUMB_GUARD. lia.
  - exact Hnames.
  - change 1000 with BREADCRUMB_GUARD. intros H. apply Hend. lia.
  - intros fuel Hf. unfold getBreadcrumbPath. now rewrite (Hrun fuel Hf).
Qed.

(** A parent map with a cycle: the walk from "a" stops at the guard. *)
Example breadcrumb_on_a_cycle :
  let st := mkState [("a", mkNode "a" "A" "" "New" (Some ["b"]) None false);
                     ("b", mkNode "b" "B" "" "New" (Some ["a"]) None false)]
                    [("b", "a"); ("a", "b")] [] (Some "a") None true [] false VInitial [] 0 in
  exists names,
    breadcrumbLoop 1001 st "a" 0 [] = Some (names, 1000) /\ List.length names = 1000.
Proof. vm_compute. eexists. split; reflexivity. Qed.

(** ** The visibility filter *)

Section Visibility.

Variables (dom : Filters) (st : State) (nodeId : string) (node : Node).
Hypothesis Hnode : JS.get (nodeMap st) nodeId = Some node.

(** The function is the conjunction of its early returns. *)
Lemma isNodeVisible_unfold :
  isNodeVisible dom st nodeId =
  _forceVisible node
  || (negb (connectionRejects (connectionFilter dom) (JS.get (nodeStats st) nodeId))
    && negb (statusRejects (statusFilter dom) node)).
Proof.
  unfold isNodeVisible. rewrite Hnode.
  destruct (_forceVisible node); [reflexivity|].
  destruct (connectionRejects _ _); [reflexivity|].
  now destruct (statusRejects _ _).
Qed.

Lemma forceVisible_is_visible : _forceVisible node = true -> isNodeVisible dom st nodeId = true.
Proof. intros H. now rewrite isNodeVisible_unfold, H. Qed.

End Visibility.

(** C8. For a stored node that is not force-visible and that the status
    select lets through: without a stats entry the node is visible under
    every connection filter; with a stats entry it is hidden under "inbound"
    exactly when its inbound count is not greater than 0, and under
    "outbound" exactly when its outbound count is not greater than 0. *)
Theorem C8_connection_filter_fail_open :
  forall (dom : Filters) (st : State) (nodeId : string) (node : Node),
    JS.get (nodeMap st) nodeId = Some node ->
    _forceVisible node = false ->
    statusRejects (statusFilter dom) node = false ->
    (JS.get (nodeStats st) nodeId = None -> isNodeVisible dom st nodeId = true)
    /\ (forall stats, JS.get (nodeStats st) nodeId = Some stats ->
          (connectionFilter dom = Some "inbound" ->
             (isNodeVisible dom st nodeId = false <-> ~ (0 < inboundCount stats)%N))
          /\ (connectionFilter dom = Some "outbound" ->
             (isNodeVisible dom st nodeId = false <-> ~ (0 < outboundCount stats)%N))).
Proof.
  intros dom st nodeId node Hnode Hforce Hstatus.
  rewrite (isNodeVisible_unfold dom st nodeId Hnode), Hforce, Hstatus. simpl.
  split.
  - intros Hnone. now rewrite Hnone.
  - intros stats Hstats. rewrite Hstats. split; intros Hconn; rewrite Hconn; simpl.
    + rewrite orb_false_r, andb_true_r, negb_false_iff, N.eqb_eq. lia.
    + rewrite andb_true_r, negb_false_iff, N.eqb_eq. lia.
Qed.

Lemma C8_connection_filter_fail_open_witness :
  let dom := mkFilters (Some "inbound") (Some "all") in
  let node := mkNode "n1" "Home" "" "New" (Some []) (Some "01") false in
  let st := mkState [("n1", node)] [] [("n1", mkStats 0 3)] (Some "n1") None true []
                    false VInitial [] 0 in
  isNodeVisible dom st "n1" = false <-> ~ (0 < 0)%N.
Proof.
  intros dom node st.
  destruct (@C8_connection_filter_fail_open dom st "n1" node eq_refl eq_refl eq_refl)
    as [_ H].
  destruct (H (mkStats 0 3) eq_refl) as [Hin _].
  exact (Hin eq_refl).
Defined.

(** ** The retry wrapper *)

Section RetryAlone.

Import Retry.

Lemma settle_not_in_flight a op rc :
  opStatus op <> InFlight -> settle a op rc = (op, rc).
Proof. unfold settle. destruct (opStatus op); congruence. Qed.

Lemma fetchWithRetry_not_in_flight attempts op rc :
  opStatus op <> InFlight -> fetchWithRetry attempts op rc = (op, rc).
Proof.
  revert op rc. induction attempts as [|a rest IH]; intros op rc H; simpl; [reflexivity|].
  rewrite settle_not_in_flight by exact H. now apply IH.
Qed.

(** An operation that has the counter to itself makes at most
    [MAX_RETRIES - retryCount] further calls, and [MAX_RETRIES] more for
    each [ok] response whose body does not parse (it resets the counter).
    Without such a response it waits [100 * 2^k] with [k] growing by one
    each time.  In every case it reports a fatal error at most once. *)
Lemma fetchWithRetry_alone attempts :
  forall op rc,
  opStatus op = InFlight ->
  let op' := fst (fetchWithRetry attempts op rc) in
  exists k,
    retries op' = retries op + k
    /\ k <= (MAX_RETRIES - rc) + MAX_RETRIES * badBodies attempts
    /\ (badBodies attempts = 0 ->
        delays op' =
          delays op ++ map (fun j => Nat.pow 2 (S (rc + j)) * 100) (seq 0 k))
    /\ fatalMessages op' <= S (fatalMessages op)
    /\ (opStatus op' = Rethrown ->
          fatalMessages op' = S (fatalMessages op) /\ redirects op' = S (redirects op)).
Proof.
  induction attempts as [|a rest IH]; intros op rc Hop; cbn zeta.
  - exists 0. cbn [fetchWithRetry fst seq map]. rewrite app_nil_r, Hop.
    repeat split; try lia; discriminate.
  - cbn [fetchWithRetry]. unfold settle. rewrite Hop. destruct a; cbn [body].
    + rewrite fetchWithRetry_not_in_flight by (cbn; discriminate).
      exists 0. cbn [fst seq map opStatus retries delays fatalMessages redirects].
      rewrite app_nil_r. repeat split; try lia; discriminate.
    + unfold catchBlock. cbn [Nat.ltb Nat.leb MAX_RETRIES].
      destruct (IH (mkOp InFlight (S (retries op)) (delays op ++ [2 ^ 1 * 100])
                         (fatalMessages op) (redirects op)) 1 eq_refl)
        as [k [Hr [Hk [_ [Hf Hx]]]]].
      cbn [retries delays fatalMessages redirects] in Hr, Hf, Hx.
      exists (S k). unfold badBodies in *. cbn [filter List.length].
      unfold MAX_RETRIES in *.
      repeat split; try lia; try (apply Hx; assumption).
    + unfold catchBlock. destruct (Nat.ltb_spec rc MAX_RETRIES) as [Hlt|Hge].
      * destruct (IH (mkOp InFlight (S (retries op)) (delays op ++ [2 ^ S rc * 100])
                           (fatalMessages op) (redirects op)) (S rc) eq_refl)
          as [k [Hr [Hk [Hd [Hf Hx]]]]].
        cbn [retries delays fatalMessages redirects] in Hr, Hd, Hf, Hx.
        exists (S k). unfold badBodies in *. cbn [filter].
        repeat split; try lia; try (apply Hx; assumption).
        intros Hb. rewrite (Hd Hb), <- app_assoc. f_equal.
        cbn [seq map app]. rewrite Nat.add_0_r. f_equal.
        rewrite <- seq_shift, map_map. apply map_ext. intros j.
        now rewrite Nat.add_succ_r.
      * rewrite fetchWithRetry_not_in_flight by (cbn; discriminate).
        exists 0. cbn [fst seq map opStatus retries delays fatalMessages redirects].
        rewrite app_nil_r. repeat split; try lia.
Qed.

(** Six failures in a row, from a counter at rest: five retries with
    doubling waits, then one fatal message, one redirect, and the error is
    rethrown. *)
Example fetchWithRetry_exhausted :
  fetchWithRetry [Fails; Fails; Fails; Fails; Fails; Fails] freshOp 0
  = (mkOp Rethrown 5 [200; 400; 800; 1600; 3200] 1 1, 5).
Proof. reflexivity. Qed.

End RetryAlone.

Section RetryShared.

Import Retry.

Lemma overlapping_rounds n :
  forall start p,
  retryCount p = 0 ->
  opStatus (ops p 0) = InFlight ->
  (forall j, start < j -> opStatus (ops p j) = InFlight) ->
  let q := run (overlapping start n) p in
  retryCount q = 0
  /\ opStatus (ops q 0) = InFlight
  /\ retries (ops q 0) = retries (ops p 0) + n
  /\ delays (ops q 0) = delays (ops p 0) ++ repeat 200 n
  /\ fatalMessages (ops q 0) = fatalMessages (ops p 0).
Proof.
  induction n as [|n IH]; intros start p Hrc H0 Hfresh; cbn zeta.
  - cbn. rewrite app_nil_r. repeat split; auto.
  - unfold overlapping. cbn [seq flat_map app]. unfold run. cbn [fold_left].
  fold (overlapping (S start) n).
  set (p1 := onSettled (0, Fails) p).
  set (p2 := onSettled (S start, Succeeds) p1).
  assert (H1 : retryCount p1 = 1 /\ ops p1 0 = mkOp InFlight (S (retries (ops p 0)))
                 (delays (ops p 0) ++ [200]) (fatalMessages (ops p 0)) (redirects (ops p 0))
               /\ forall j, j <> 0 -> ops p1 j = ops p j).
  { unfold p1, onSettled, settle. rewrite H0, Hrc. cbn. repeat split; auto.
    intros j Hj. destruct (Nat.eqb_spec j 0); [contradiction | reflexivity]. }
  destruct H1 as [Hrc1 [Hop1 Hoth1]].
  assert (H2 : retryCount p2 = 0 /\ ops p2 0 = ops p1 0
               /\ forall j, S start < j -> ops p2 j = ops p j).
  { unfold p2, onSettled, settle. rewrite (Hoth1 (S start)) by lia.
    rewrite (Hfresh (S start)) by lia. cbn. repeat split; auto.
    intros j Hj. destruct (Nat.eqb_spec j (S start)); [lia|]. apply Hoth1. lia. }
  destruct H2 as [Hrc2 [Hop2 Hoth2]].
  destruct (IH (S start) p2) as [Ha [Hb [Hc [Hd He]]]].
  + exact Hrc2.
  + now rewrite Hop2, Hop1.
  + intros j Hj. rewrite Hoth2 by exact Hj. apply Hfresh. lia.
  + fold (run (overlapping (S start) n) p2).
    repeat split; auto.
    * rewrite Hc, Hop2, Hop1. cbn. lia.
    * rewrite Hd, Hop2, Hop1. cbn [delays]. rewrite <- app_assoc. reflexivity.
    * rewrite He, Hop2, Hop1. reflexivity.
Qed.

(** C9. The retry counter is one module-level variable, reset by every
    successful fetch.  With a second operation succeeding during each wait
    of a failing one, the failing operation is called again 7 times (more
    than MAX_RETRIES = 5), each time after the same 200 ms, and no fatal
    error is reported. *)
Theorem C9_shared_counter_exceeds_ceiling :
  let page := run (overlapping 0 7) initialPage in
  MAX_RETRIES = 5
  /\ retries (ops page 0) = 7
  /\ delays (ops page 0) = [200; 200; 200; 200; 200; 200; 200]
  /\ opStatus (ops page 0) = InFlight
  /\ fatalMessages (ops page 0) = 0.
Proof. vm_compute. repeat split. Qed.

(** The same schedule, continued, retries without any bound. *)
Lemma retries_without_bound :
  forall n, let page := run (overlapping 0 n) initialPage in
  retries (ops page 0) = n /\ opStatus (ops page 0) = InFlight
  /\ fatalMessages (ops page 0) = 0.
Proof.
  intros n. destruct (@overlapping_rounds n 0 initialPage) as [_ [Hb [Hc [_ He]]]];
  try reflexivity.
  repeat split; assumption.
Qed.

End RetryShared.

(** ** The renderer *)

Ltac run_m := unfold bind, modify, ret, gets, outOfFuel in *; cbn beta iota in *.

Lemma ids_app f g : ids (f ++ g) = ids f ++ ids g.
Proof. unfold ids. apply flat_map_app. Qed.

Lemma has_app r l x : JS.has (r ++ l) x = JS.has r x || JS.has l x.
Proof. unfold JS.has. apply existsb_app. Qed.

Lemma has_singleton k : JS.has [k] k = true.
Proof. unfold JS.has. cbn [existsb]. now rewrite String.eqb_refl. Qed.

Lemma unrendered_app_le ks r l : unrenderedCount ks (r ++ l) <= unrenderedCount ks r.
Proof.
  unfold unrenderedCount. induction ks as [|k ks IH]; cbn [filter List.length]; [lia|].
  rewrite has_app. destruct (JS.has r k); cbn [orb negb List.length]; [exact IH|].
  destruct (JS.has l k); cbn [negb List.length]; lia.
Qed.

Lemma unrendered_add_lt ks r k :
  In k ks -> JS.has r k = false -> unrenderedCount ks (r ++ [k]) < unrenderedCount ks r.
Proof.
  intros Hin Hr. induction ks as [|k' ks IH]; [destruct Hin|].
  pose proof (unrendered_app_le ks r [k]) as Hle.
  unfold unrenderedCount in *. cbn [filter]. rewrite has_app.
  destruct Hin as [->|Hin].
  - rewrite Hr, has_singleton. cbn [orb negb List.length]. lia.
  - specialize (IH Hin).
    destruct (JS.has r k'); cbn [orb negb List.length]; [exact IH|].
    destruct (JS.has [k] k'); cbn [negb List.length]; lia.
Qed.

Lemma unrendered_le_length ks r : unrenderedCount ks r <= List.length ks.
Proof. unfold unrenderedCount. apply filter_length_le. Qed.

Section Render.

Variables (dom : Filters) (st0 : State).

(** A state that differs from [st0] in the visited set only. *)
Local Abbreviation at_ r := (setRenderedNodes r st0).

Lemma mapRender_spec call :
  (forall c r out st', call c (at_ r) = Some (out, st') -> st' = at_ (r ++ ids out)) ->
  forall cs r out st',
  mapRender call cs (at_ r) = Some (out, st') -> st' = at_ (r ++ ids out).
Proof.
  intros Hcall. induction cs as [|c cs IH]; intros r out st' H; cbn [mapRender] in H; run_m.
  - inversion H; subst. cbn [ids flat_map]. now rewrite app_nil_r.
  - destruct (call c (at_ r)) as [[h s1]|] eqn:Hc; [|discriminate].
    apply Hcall in Hc. subst s1.
    destruct (mapRender call cs (at_ (r ++ ids h))) as [[t s2]|] eqn:Ht; [|discriminate].
    apply IH in Ht. inversion H; subst. now rewrite ids_app, app_assoc.
Qed.

(** A call of [renderNode] changes nothing but the visited set, to which it
    appends the ids of the cards it emits, in document order. *)
Lemma renderNode_spec fuel :
  forall nodeId level r out st',
  renderNode fuel dom nodeId level (at_ r) = Some (out, st') ->
  st' = at_ (r ++ ids out).
Proof.
  induction fuel as [|fuel IH]; intros nodeId level r out st' H; cbn [renderNode] in H;
  [discriminate|].
  cbn [nodeMap renderedNodes singleNodeMode setRenderedNodes] in H.
  destruct (JS.get (nodeMap st0) nodeId) as [node|];
  [|run_m; inversion H; subst; cbn [ids flat_map]; now rewrite app_nil_r].
  destruct (negb (_forceVisible node) && negb (isNodeVisible dom (at_ r) nodeId));
  [run_m; inversion H; subst; cbn [ids flat_map]; now rewrite app_nil_r|].
  destruct (JS.has r nodeId);
  [run_m; inversion H; subst; cbn [ids flat_map]; now rewrite app_nil_r|].
  run_m. cbn [renderedNodes setRenderedNodes] in H.
  change (setRenderedNodes (r ++ [nodeId]) (at_ r)) with (at_ (r ++ [nodeId])) in H.
  destruct (negb (Nat.eqb (List.length (JS.sort (childrenOrEmpty node))) 0)
          && negb (singleNodeMode st0 && Nat.eqb level 0)).
  - destruct (mapRender _ _ _) as [[kids s1]|] eqn:Hk; [|discriminate].
  apply mapRender_spec in Hk; [|intros; eapply IH; eassumption].
  inversion H; subst. cbn [ids flat_map idsOf]. fold (ids kids).
  now rewrite app_nil_r, <- app_assoc.
  - inversion H; subst. reflexivity.
Qed.

Lemma mapRender_NoDup call :
  (forall c r out st', call c (at_ r) = Some (out, st') -> st' = at_ (r ++ ids out)) ->
  (forall c r out st', NoDup r -> call c (at_ r) = Some (out, st') -> NoDup (r ++ ids out)) ->
  forall cs r out st',
  NoDup r -> mapRender call cs (at_ r) = Some (out, st') -> NoDup (r ++ ids out).
Proof.
  intros Hspec Hcall. induction cs as [|c cs IH]; intros r out st' Hr H;
  cbn [mapRender] in H; run_m.
  - inversion H; subst. cbn [ids flat_map]. now rewrite app_nil_r.
  - destruct (call c (at_ r)) as [[h s1]|] eqn:Hc; [|discriminate].
    pose proof (Hcall _ _ _ _ Hr Hc) as Hr1. apply Hspec in Hc. subst s1.
    destruct (mapRender call cs (at_ (r ++ ids h))) as [[t s2]|] eqn:Ht; [|discriminate].
    apply (IH _ _ _ Hr1) in Ht. inversion H; subst. now rewrite ids_app, app_assoc.
Qed.

(** No id enters the visited set twice. *)
Lemma renderNode_NoDup fuel :
  forall nodeId level r out st',
  NoDup r ->
  renderNode fuel dom nodeId level (at_ r) = Some (out, st') ->
  NoDup (r ++ ids out).
Proof.
  induction fuel as [|fuel IH]; intros nodeId level r out st' Hr H; cbn [renderNode] in H;
  [discriminate|].
  cbn [nodeMap renderedNodes singleNodeMode setRenderedNodes] in H.
  destruct (JS.get (nodeMap st0) nodeId) as [node|];
  [|run_m; inversion H; subst; cbn [ids flat_map]; now rewrite app_nil_r].
  destruct (negb (_forceVisible node) && negb (isNodeVisible dom (at_ r) nodeId));
  [run_m; inversion H; subst; cbn [ids flat_map]; now rewrite app_nil_r|].
  destruct (JS.has r nodeId) eqn:Hhas;
  [run_m; inversion H; subst; cbn [ids flat_map]; now rewrite app_nil_r|].
  assert (Hr1 : NoDup (r ++ [nodeId])).
  { apply NoDup_app; [exact Hr | repeat constructor; intros [] |].
  intros x Hx [<-|[]]. apply has_false_iff in Hhas. contradiction. }
  run_m. cbn [renderedNodes setRenderedNodes] in H.
  change (setRenderedNodes (r ++ [nodeId]) (at_ r)) with (at_ (r ++ [nodeId])) in H.
  destruct (negb (Nat.eqb (List.length (JS.sort (childrenOrEmpty node))) 0)
          && negb (singleNodeMode st0 && Nat.eqb level 0)).
  - destruct (mapRender _ _ _) as [[kids s1]|] eqn:Hk; [|discriminate].
  apply mapRender_NoDup in Hk;
    [| intros; eapply renderNode_spec; eassumption
     | intros; eapply IH; eassumption
     | exact Hr1 ].
  inversion H; subst. cbn [ids flat_map idsOf]. fold (ids kids).
  now rewrite app_nil_r, <- app_assoc in *.
  - inversion H; subst. exact Hr1.
Qed.

Lemma mapRender_total call n :
  (forall c r out st', call c (at_ r) = Some (out, st') -> st' = at_ (r ++ ids out)) ->
  (forall c r, unrenderedCount (JS.keys (nodeMap st0)) r < n ->
             exists out st', call c (at_ r) = Some (out, st')) ->
  forall cs r,
  unrenderedCount (JS.keys (nodeMap st0)) r < n ->
  exists out st', mapRender call cs (at_ r) = Some (out, st').
Proof.
  intros Hspec Hcall. induction cs as [|c cs IH]; intros r Hr; cbn [mapRender]; run_m.
  - eauto.
  - destruct (Hcall c r Hr) as [h [s1 Hc]]. rewrite Hc.
    apply Hspec in Hc. subst s1.
    destruct (IH (r ++ ids h)) as [t [s2 Ht]].
    + pose proof (unrendered_app_le (JS.keys (nodeMap st0)) r (ids h)). lia.
    + rewrite Ht. eauto.
Qed.

(** The recursion ends: every call that goes on adds a stored node to the
    visited set, so a budget above the number of unvisited nodes is never
    used up. *)
Lemma renderNode_total fuel :
  forall nodeId level r,
  unrenderedCount (JS.keys (nodeMap st0)) r < fuel ->
  exists out st', renderNode fuel dom nodeId level (at_ r) = Some (out, st').
Proof.
  induction fuel as [|fuel IH]; intros nodeId level r Hr; [lia|].
  cbn [renderNode]. cbn [nodeMap renderedNodes singleNodeMode setRenderedNodes].
  destruct (JS.get (nodeMap st0) nodeId) as [node|] eqn:Hnode; [|run_m; eauto].
  destruct (negb (_forceVisible node) && negb (isNodeVisible dom (at_ r) nodeId));
  [run_m; eauto|].
  destruct (JS.has r nodeId) eqn:Hhas; [run_m; eauto|].
  run_m. cbn [renderedNodes setRenderedNodes].
  change (setRenderedNodes (r ++ [nodeId]) (at_ r)) with (at_ (r ++ [nodeId])).
  destruct (negb (Nat.eqb (List.length (JS.sort (childrenOrEmpty node))) 0)
          && negb (singleNodeMode st0 && Nat.eqb level 0)); [|eauto].
  destruct (@mapRender_total (fun childId => renderNode fuel dom childId (S level)) fuel)
  with (cs := JS.sort (childrenOrEmpty node)) (r := r ++ [nodeId]) as [kids [s1 Hk]].
  - intros; eapply renderNode_spec; eassumption.
  - intros; now apply IH.
  - pose proof (@unrendered_add_lt (JS.keys (nodeMap st0)) r nodeId
                (get_Some_In_keys _ _ Hnode) Hhas). lia.
  - rewrite Hk. eauto.
Qed.

Hypothesis Hmode : singleNodeMode st0 = false.

Lemma mapRender_closed call :
  (forall c r out st', call c (at_ r) = Some (out, st') -> st' = at_ (r ++ ids out)) ->
  (forall c r out st', call c (at_ r) = Some (out, st') ->
   (passes dom st0 c = true -> In c (r ++ ids out))
   /\ (forall y, In y (ids out) -> forall z, childOf st0 y z -> passes dom st0 z = true ->
                 In z (r ++ ids out))) ->
  forall cs r out st',
  mapRender call cs (at_ r) = Some (out, st') ->
  (forall c, In c cs -> passes dom st0 c = true -> In c (r ++ ids out))
  /\ (forall y, In y (ids out) -> forall z, childOf st0 y z -> passes dom st0 z = true ->
                In z (r ++ ids out)).
Proof.
  intros Hspec Hcall. induction cs as [|c cs IH]; intros r out st' H;
  cbn [mapRender] in H; run_m.
  - inversion H; subst. split; [intros c []|intros y []].
  - destruct (call c (at_ r)) as [[h s1]|] eqn:Hc; [|discriminate].
  destruct (Hcall _ _ _ _ Hc) as [Hc1 Hc2]. apply Hspec in Hc. subst s1.
  destruct (mapRender call cs (at_ (r ++ ids h))) as [[t s2]|] eqn:Ht; [|discriminate].
  destruct (IH _ _ _ Ht) as [Ht1 Ht2]. inversion H; subst.
  rewrite ids_app, app_assoc. split.
  + intros c' [<-|Hin] Hp.
    * apply in_or_app. left. now apply Hc1.
    * now apply Ht1.
  + intros y Hy z Hz Hp. apply in_app_or in Hy. destruct Hy as [Hy|Hy].
    * apply in_or_app. left. eapply Hc2; eassumption.
    * eapply Ht2; eassumption.
Qed.

(** After a call, the node it was called on is visited if it is not
    filtered out, and so is every child, not filtered out, of every card the
    call emitted. *)
Lemma renderNode_closed fuel :
  forall nodeId level r out st',
  renderNode fuel dom nodeId level (at_ r) = Some (out, st') ->
  (passes dom st0 nodeId = true -> In nodeId (r ++ ids out))
  /\ (forall y, In y (ids out) -> forall z, childOf st0 y z -> passes dom st0 z = true ->
                In z (r ++ ids out)).
Proof.
  induction fuel as [|fuel IH]; intros nodeId level r out st' H; cbn [renderNode] in H;
  [discriminate|].
  cbn [nodeMap renderedNodes singleNodeMode setRenderedNodes] in H.
  unfold passes.
  destruct (JS.get (nodeMap st0) nodeId) as [node|] eqn:Hnode;
  [|run_m; inversion H; subst; split; [discriminate | intros y []]].
  change (isNodeVisible dom (at_ r) nodeId) with (isNodeVisible dom st0 nodeId) in H.
  destruct (_forceVisible node || isNodeVisible dom st0 nodeId) eqn:Hvis.
  2:{ apply orb_false_iff in Hvis. destruct Hvis as [Hf Hv]. rewrite Hf, Hv in H.
    run_m. inversion H; subst. split; [discriminate | intros y []]. }
  assert (Hcond : negb (_forceVisible node) && negb (isNodeVisible dom st0 nodeId) = false).
  { rewrite <- negb_orb, Hvis. reflexivity. }
  rewrite Hcond in H.
  destruct (JS.has r nodeId) eqn:Hhas.
  { run_m. inversion H; subst. split; [|intros y []].
  intros _. apply in_or_app. left. now apply has_true_iff. }
  run_m. cbn [renderedNodes setRenderedNodes] in H.
  change (setRenderedNodes (r ++ [nodeId]) (at_ r)) with (at_ (r ++ [nodeId])) in H.
  rewrite Hmode in H. cbn [andb negb] in H. rewrite andb_true_r in H.
  destruct (Nat.eqb (List.length (JS.sort (childrenOrEmpty node))) 0) eqn:Hlen;
  cbn [negb] in H.
  - inversion H; subst. cbn [ids flat_map idsOf app]. split.
  + intros _. apply in_or_app. right. now left.
  + intros y [<-|[]] z [node' [Hn' Hz]] _. rewrite Hnode in Hn'. inversion Hn'; subst node'.
    apply In_sort in Hz. apply Nat.eqb_eq in Hlen.
    destruct (JS.sort (childrenOrEmpty node)); [destruct Hz | discriminate].
  - destruct (mapRender _ _ _) as [[kids s1]|] eqn:Hk; [|discriminate].
  apply mapRender_closed in Hk;
    [| intros; eapply renderNode_spec; eassumption
     | intros; eapply IH; eassumption ].
  destruct Hk as [Hk1 Hk2].
  inversion H; subst. cbn [ids flat_map idsOf]. fold (ids kids).
  rewrite app_nil_r.
  replace (r ++ nodeId :: ids kids) with ((r ++ [nodeId]) ++ ids kids)
    by (now rewrite <- app_assoc).
  split.
  + intros _. apply in_or_app. left. apply in_or_app. right. now left.
  + intros y [<-|Hy] z Hz Hp.
    * destruct Hz as [node' [Hn' Hz]]. rewrite Hnode in Hn'. inversion Hn'; subst node'.
      apply Hk1; [now apply In_sort | exact Hp].
    * eapply Hk2; eassumption.
Qed.

End Render.

Lemma RTree_forest_ind (P : RTree -> Prop) :
  (forall id level kids, Forall P kids -> P (RNode id level kids)) -> forall t, P t.
Proof.
  intros H. fix IH 1. intros [id level kids]. apply H.
  induction kids as [|k kids IHk]; constructor; [apply IH | exact IHk].
Qed.






Lemma state_eta st : setRenderedNodes (renderedNodes st) st = st.
Proof. now destruct st. Qed.

Lemma visiblyReachable_rendered fuel dom st root forest st' :
  singleNodeMode st = false ->
  renderNode fuel dom root 0 (setRenderedNodes [] st) = Some (forest, st') ->
  forall n, visiblyReachable dom st root n -> In n (ids forest).
Proof.
  intros Hmode Hrun n Hreach.
  destruct (@renderNode_closed dom st Hmode fuel root 0 [] forest st' Hrun) as [Hroot Hclosed].
  cbn [app] in *.
  induction Hreach as [Hp | p c _ IH Hchild Hp].
  - now apply Hroot.
  - exact (Hclosed p IH c Hchild Hp).
Qed.



(** The two halves, run one after the other, are the function. *)
Lemma loadAndRenderVisuals_split fuel dom srv rootOverrideId st :
  loadAndRenderVisuals fuel dom srv rootOverrideId st
  = (a <- visualsUntilAwait fuel dom srv rootOverrideId ;; resume fuel dom srv a) st.
Proof.
  unfold loadAndRenderVisuals, visualsUntilAwait, resume, visualsAfterAwait.
  unfold bind, modify, ret, gets. cbn beta iota.
  destruct (markVisibleParents fuel dom (setView VRendering (setRenderedNodes [] st)))
    as [[[] s1]|]; [|reflexivity].
  destruct (chooseRoot rootOverrideId s1) as [rootNodeId|].
  - destruct (JS.truthy rootNodeId && isSome (JS.get (nodeMap s1) rootNodeId)).
    + reflexivity.
    + destruct (JS.truthyOpt (stableRootId s1)).
      * destruct (loadAndRenderTree fuel dom srv s1) as [[[] s2]|]; reflexivity.
      * reflexivity.
  - destruct (JS.truthyOpt (stableRootId s1)).
    + destruct (loadAndRenderTree fuel dom srv s1) as [[[] s2]|]; reflexivity.
    + reflexivity.
Qed.


(** The visited set is one module-level set, cleared where a pass starts
    and filled where it renders.  When a second pass is started while the
    first waits for its statistics, the first one draws the tree and fills
    the set, and the second finds every node visited: it replaces the tree
    by an empty one. *)
Example overlapping_passes_draw_nothing :
  let node id cs := mkNode id id "" "New" (Some cs) None false in
  let st := mkState [("r", node "r" ["p1"; "p2"]); ("p1", node "p1" ["n"]);
                     ("p2", node "p2" ["n"]); ("n", node "n" [])]
                    [("p1", "r"); ("p2", "r"); ("n", "p2")] [] (Some "r") None true []
                    false VInitial [] 0 in
  let dom := mkFilters (Some "all") (Some "all") in
  let srv := mkServer (Rejected "offline") (Some []) (Resolved tt) (Resolved tt) in
  (exists st', loadAndRenderVisuals 5 dom srv None st = Some (tt, st')
               /\ view st'
                  = VTree [RNode "r" 0 [RNode "p1" 1 [RNode "n" 2 []]; RNode "p2" 1 []]])
  /\ (exists st', overlappingPasses 5 dom srv None None st = Some (tt, st')
                  /\ view st' = VTree []
                  /\ singleNodeMode st' = false).
Proof.
  vm_compute. split; eexists; repeat split.
Qed.

Lemma fetchAllStats_run srv st :
  fetchAllStats srv st = Some (tt, setNodeStats (fetchedStats srv) st).
Proof. unfold fetchAllStats, fetchedStats. now destruct (statsResponse srv). Qed.

Lemma keys_stamp acc k : JS.keys (fst (stampFriendlyId acc k)) = JS.keys (fst acc).
Proof.
  destruct acc as [nm c]. cbn [stampFriendlyId fst].
  destruct (JS.get nm k) eqn:E; [|reflexivity].
  apply keys_set_present. eapply get_Some_In_keys; eassumption.
Qed.

Lemma keys_stamp_fold ks : forall acc,
  JS.keys (fst (fold_left stampFriendlyId ks acc)) = JS.keys (fst acc).
Proof.
  induction ks as [|k ks IH]; intros acc; cbn [fold_left]; [reflexivity|].
  now rewrite IH, keys_stamp.
Qed.

Lemma length_buildNodeMap_aux response : forall acc,
  List.length (fold_left (fun nm node => JS.set nm (contentId node) node) response acc)
  <= List.length acc + List.length response.
Proof.
  induction response as [|n rest IH]; intros acc; cbn [fold_left List.length]; [lia|].
  specialize (IH (JS.set acc (contentId n) n)).
  pose proof (length_set_le acc (contentId n) n). lia.
Qed.

Lemma length_ingestedNodeMap response :
  List.length (JS.keys (ingestedNodeMap response)) <= List.length response.
Proof.
  unfold ingestedNodeMap. rewrite keys_stamp_fold. cbn [fst].
  unfold JS.keys. rewrite length_map.
  pose proof (length_buildNodeMap_aux response []). unfold buildNodeMap. simpl in *. lia.
Qed.

Lemma loadAndRenderTree_run fuel dom srv st :
  responseSize srv < fuel ->
  exists st',
    loadAndRenderTree fuel dom srv st = Some (tt, st')
    /\ nodeMap st' = reloadedNodeMap srv
    /\ parentMap st' = reloadedParentMap srv
    /\ stableRootId st' = reloadedRoot srv (stableRootId st)
    /\ messages st' = messages st
    /\ pageReloads st' = pageReloads st
    /\ singleNodeMode st' = singleNodeMode st
    /\ (treeResponse srv = Resolved [] -> view st' = VNoRoot)
    /\ (forall msg, treeResponse srv = Rejected msg -> view st' = VLoadError msg).
Proof.
  intros Hfuel.
  unfold loadAndRenderTree, reloadedNodeMap, reloadedParentMap, reloadedRoot, responseSize in *.
  destruct (treeResponse srv) as [[|first rest]|msg] eqn:Hresp.
  - run_m. eexists. split; [reflexivity|]. cbn. repeat split; auto; discriminate.
  - unfold assignFriendlyIds. run_m.
    cbn [nodeMap parentMap setNodeMap setParentMap setView setRenderedNodes].
    fold (ingestedNodeMap (first :: rest)).
    destruct (JS.truthy (contentId first)) eqn:Htruthy; cbn [negb].
    + rewrite fetchAllStats_run.
      match goal with |- context [renderNode fuel dom _ 0 ?s] => set (pre := s) end.
      destruct (@renderNode_total dom pre fuel (contentId first) 0 (renderedNodes pre))
        as [forest [st1 Hrun]].
      { pose proof (unrendered_le_length (JS.keys (nodeMap pre)) (renderedNodes pre)).
        pose proof (length_ingestedNodeMap (first :: rest)).
        subst pre. cbn [nodeMap setNodeStats setStableRootId setNodeMap] in *. lia. }
      rewrite state_eta in Hrun. rewrite Hrun.
      rewrite <- (state_eta pre) in Hrun. apply renderNode_spec in Hrun. subst st1.
      unfold finishRender. run_m. eexists. split; [reflexivity|].
      subst pre. cbn.
      destruct (JS.truthyOpt (nodeToFocusId st)); cbn; repeat split; auto; discriminate.
    + eexists. split; [reflexivity|]. cbn. repeat split; auto; discriminate.
  - run_m. eexists. split; [reflexivity|]. cbn. repeat split; auto; try discriminate.
    intros msg' H. now inversion H.
Qed.

(** *** The node map built from a response *)

Lemma buildNodeMap_aux response : forall acc,
  NoDup (JS.keys acc ++ map contentId response) ->
  let nm := fold_left (fun nm node => JS.set nm (contentId node) node) response acc in
  JS.keys nm = JS.keys acc ++ map contentId response
  /\ (forall node, In node response -> JS.get nm (contentId node) = Some node)
  /\ (forall k, ~ In k (map contentId response) -> JS.get nm k = JS.get acc k).
Proof.
  induction response as [|n rest IH]; intros acc Hnd; cbn zeta; cbn [fold_left map].
  - rewrite app_nil_r. repeat split; auto. intros node [].
  - assert (Hfresh : ~ In (contentId n) (JS.keys acc)).
    { cbn [map] in Hnd. intros Hin. apply NoDup_remove_2 in Hnd. apply Hnd.
      apply in_or_app. now left. }
    assert (Hrest : ~ In (contentId n) (map contentId rest)).
    { cbn [map] in Hnd. apply NoDup_remove_2 in Hnd. intros Hin. apply Hnd.
      apply in_or_app. now right. }
    destruct (IH (JS.set acc (contentId n) n)) as [Hk [Hg Ho]].
    { rewrite keys_set_absent by exact Hfresh. rewrite <- app_assoc. exact Hnd. }
    rewrite keys_set_absent in Hk by exact Hfresh. rewrite <- app_assoc in Hk.
    repeat split.
    + exact Hk.
    + intros node [<-|Hin]; [|now apply Hg].
      rewrite Ho by exact Hrest. apply get_set_same.
    + intros k Hk'. rewrite Ho by (intros Hin; apply Hk'; now right).
      apply get_set_other. intros ->. apply Hk'. now left.
Qed.

Lemma buildNodeMap_NoDup response :
  NoDup (map contentId response) ->
  JS.keys (buildNodeMap response) = map contentId response
  /\ (forall node, In node response -> JS.get (buildNodeMap response) (contentId node) = Some node).
Proof.
  intros Hnd. destruct (@buildNodeMap_aux response [] Hnd) as [Hk [Hg _]]. now split.
Qed.

(** Stamping a duplicate-free list of stored keys: the key at position [i]
    gets the counter value [c + i]; nothing else changes. *)
Lemma stamp_fold ks : forall nm c,
  NoDup ks ->
  (forall k, In k ks -> isSome (JS.get nm k) = true) ->
  let nm' := fst (fold_left stampFriendlyId ks (nm, c)) in
  (forall k, ~ In k ks -> JS.get nm' k = JS.get nm k)
  /\ (forall i k n, nth_error ks i = Some k -> JS.get nm k = Some n ->
        JS.get nm' k = Some (withFriendlyId n (Some (JS.padStart0 2 (JS.ofNat (c + i)))))).
Proof.
  induction ks as [|k0 ks IH]; intros nm c Hnd Hall; cbn zeta; cbn [fold_left].
  - split; [reflexivity|]. intros [|i] k n H; discriminate.
  - inversion Hnd as [|? ? Hk0 Hnd']; subst.
    cbn [stampFriendlyId].
    destruct (JS.get nm k0) as [n0|] eqn:Hn0.
    2:{ specialize (Hall k0 (or_introl eq_refl)). rewrite Hn0 in Hall. discriminate. }
    set (nm1 := JS.set nm k0 (withFriendlyId n0 (Some (JS.padStart0 2 (JS.ofNat c))))).
    destruct (IH nm1 (S c) Hnd') as [Ho Hi].
    { intros k Hk. unfold nm1. rewrite get_set_other by (intros ->; contradiction).
      apply Hall. now right. }
    split.
    + intros k Hk. rewrite Ho by (intros Hin; apply Hk; now right).
      unfold nm1. apply get_set_other. intros ->. apply Hk. now left.
    + intros [|i] k n Hnth Hget.
      * cbn in Hnth. inversion Hnth; subst k. rewrite Ho by exact Hk0.
        unfold nm1. rewrite get_set_same. rewrite Hn0 in Hget. inversion Hget; subst.
        now rewrite Nat.add_0_r.
      * cbn in Hnth. rewrite Nat.add_succ_r. apply (Hi i k n Hnth).
        unfold nm1. rewrite get_set_other; [exact Hget|].
        intros ->. apply Hk0. eapply nth_error_In; eassumption.
Qed.

(** With distinct ids, the node map lists the response in order and the node
    at position [i] carries the friendly id [i + 1], padded to two digits. *)
Lemma ingestedNodeMap_NoDup response :
  NoDup (map contentId response) ->
  JS.keys (ingestedNodeMap response) = map contentId response
  /\ (forall i node, nth_error response i = Some node ->
        JS.get (ingestedNodeMap response) (contentId node)
        = Some (withFriendlyId node (Some (JS.padStart0 2 (JS.ofNat (S i)))))).
Proof.
  intros Hnd. destruct (@buildNodeMap_NoDup response Hnd) as [Hk Hg].
  unfold ingestedNodeMap. split.
  - now rewrite keys_stamp_fold.
  - intros i node Hnth.
    assert (Hall : forall k, In k (map contentId response) ->
                             isSome (JS.get (buildNodeMap response) k) = true).
    { intros k Hin. apply get_In_keys. now rewrite Hk. }
    assert (Hord : nodesInOrder (Some response) (buildNodeMap response)
                   = map contentId response).
    { cbn [nodesInOrder]. apply forallb_filter_id. apply forallb_forall. exact Hall. }
    rewrite Hord.
    destruct (@stamp_fold (map contentId response) (buildNodeMap response) 1 Hnd Hall)
      as [_ Hi].
    apply (Hi i (contentId node) node).
    + now apply map_nth_error.
    + apply Hg. eapply nth_error_In; eassumption.
Qed.

(** *** The parent map built from a response *)

Lemma find_append {A} (f : A -> bool) (l1 l2 : list A) :
  find f (l1 ++ l2) = match find f l1 with Some x => Some x | None => find f l2 end.
Proof.
  induction l1 as [|x l1 IH]; cbn [app find]; [reflexivity|].
  now destruct (f x).
Qed.

Section ParentMap.

Variable nm : JS.obj Node.

Lemma recordParent_fold parent cs : forall pm c,
  JS.get (fold_left (recordParent nm parent) cs pm) c
  = if eligibleChild nm c && JS.has cs c then Some parent else JS.get pm c.
Proof.
  induction cs as [|c0 cs IH]; intros pm c; cbn [fold_left].
  - cbn [JS.has existsb]. now rewrite andb_false_r.
  - rewrite IH. unfold JS.has. cbn [existsb]. fold (JS.has cs c).
  destruct (eligibleChild nm c && JS.has cs c) eqn:E.
  + apply andb_true_iff in E. destruct E as [-> ->]. now rewrite orb_true_r.
  + unfold recordParent.
    destruct (String.eqb c c0) eqn:Ec.
    * apply String.eqb_eq in Ec. subst c0. fold (eligibleChild nm c).
      destruct (eligibleChild nm c); cbn [andb orb]; [apply get_set_same | reflexivity].
    * cbn [orb]. rewrite E.
      destruct (JS.truthy c0 && isSome (JS.get nm c0)); [|reflexivity].
      apply get_set_other. intros ->. rewrite String.eqb_refl in Ec. discriminate.
Qed.

Lemma lastWriter_cons node rest c :
  lastWriter (node :: rest) c
  = match lastWriter rest c with
  | Some p => Some p
  | None => if JS.has (childrenOrEmpty node) c then Some (contentId node) else None
  end.
Proof.
  unfold lastWriter. cbn [rev]. rewrite find_append.
  destruct (find _ (rev rest)); [reflexivity|].
  cbn [find]. now destruct (JS.has (childrenOrEmpty node) c).
Qed.

Lemma buildParentMap_fold response : forall pm c,
  JS.get (fold_left (fun pm node =>
                     match children node with
                     | Some cs => fold_left (recordParent nm (contentId node)) cs pm
                     | None => pm
                     end) response pm) c
  = match lastWriter response c with
  | Some p => if eligibleChild nm c then Some p else JS.get pm c
  | None => JS.get pm c
  end.
Proof.
  induction response as [|node rest IH]; intros pm c; cbn [fold_left]; [reflexivity|].
  rewrite IH, lastWriter_cons.
  destruct (lastWriter rest c) as [p|].
  - destruct (eligibleChild nm c) eqn:E; [reflexivity|].
    unfold childrenOrEmpty. destruct (children node) as [cs|]; [|reflexivity].
    now rewrite recordParent_fold, E.
  - unfold childrenOrEmpty. destruct (children node) as [cs|]; [|reflexivity].
    rewrite recordParent_fold.
    destruct (JS.has cs c); [|now rewrite andb_false_r].
    rewrite andb_true_r. now destruct (eligibleChild nm c).
Qed.

End ParentMap.

(** The entry of [c] in the parent map that the scan builds. *)
Lemma buildParentMap_get response c :
  JS.get (buildParentMap (buildNodeMap response) response) c
  = if JS.truthy c && isSome (JS.get (buildNodeMap response) c)
    then lastWriter response c else None.
Proof.
  unfold buildParentMap. rewrite buildParentMap_fold. unfold eligibleChild.
  destruct (lastWriter response c); cbn [JS.get]; [reflexivity|].
  now destruct (JS.truthy c && isSome (JS.get (buildNodeMap response) c)).
Qed.

Lemma resolves_after_ingest response c :
  isSome (JS.get (ingestedNodeMap response) c) = isSome (JS.get (buildNodeMap response) c).
Proof.
  apply eq_true_iff_eq. rewrite !get_In_keys. unfold ingestedNodeMap.
  now rewrite keys_stamp_fold.
Qed.

(** C6. After the ingest scan, an id has a parent entry only if it is
    non-empty and resolves in the node map, and for every such id (one listed
    by several nodes included) the entry is the id of the last node, in
    response order, whose children list contains it. *)
Theorem C6_last_writer_parent :
  forall (fuel : nat) (dom : Filters) (srv : Server) (st : State) (response : list Node),
    treeResponse srv = Resolved response ->
    List.length response < fuel ->
    exists st',
      loadAndRenderTree fuel dom srv st = Some (tt, st')
      /\ (forall c p, JS.get (parentMap st') c = Some p ->
                      JS.truthy c = true /\ isSome (JS.get (nodeMap st') c) = true)
      /\ (forall c, JS.truthy c = true -> isSome (JS.get (nodeMap st') c) = true ->
                    JS.get (parentMap st') c = lastWriter response c).
Proof.
  intros fuel dom srv st response Hresp Hfuel.
  destruct (@loadAndRenderTree_run fuel dom srv st) as [st' [Hrun [Hnm [Hpm _]]]].
  { unfold responseSize. now rewrite Hresp. }
  exists st'. split; [exact Hrun|].
  unfold reloadedParentMap in Hpm. unfold reloadedNodeMap in Hnm.
  rewrite Hresp in Hpm, Hnm. rewrite Hpm, Hnm.
  split.
  - intros c p H. rewrite buildParentMap_get in H. rewrite resolves_after_ingest.
    destruct (JS.truthy c && isSome (JS.get (buildNodeMap response) c)) eqn:E; [|discriminate].
    now apply andb_true_iff in E.
  - intros c Ht Hc. rewrite resolves_after_ingest in Hc.
    now rewrite buildParentMap_get, Ht, Hc.
Qed.

Lemma C6_last_writer_parent_witness :
  let node id cs := mkNode id id "" "New" (Some cs) None false in
  let response := [node "r" ["a"; "b"]; node "a" ["x"]; node "b" ["x"]; node "x" []] in
  let srv := mkServer (Resolved response) (Some []) (Resolved tt) (Resolved tt) in
  let st := mkState [] [] [] None None true [] false VInitial [] 0 in
  exists st',
    loadAndRenderTree 5 (mkFilters (Some "all") (Some "all")) srv st = Some (tt, st')
    /\ JS.get (parentMap st') "x" = Some "b".
Proof.
  intros node response srv st.
  destruct (@C6_last_writer_parent 5 (mkFilters (Some "all") (Some "all")) srv st response
              eq_refl) as [st' [Hrun [_ Hlast]]].
  { simpl. lia. }
  exists st'. split; [exact Hrun|].
  rewrite Hlast; [reflexivity | reflexivity |].
  vm_compute in Hrun. inversion Hrun. reflexivity.
Defined.

(** *** The ingest on any list *)

Lemma buildNodeMap_get_from response : forall i acc k,
  JS.get (fold_left (fun nm node => JS.set nm (contentId node) node) response acc) k
  = match lastWithIdFrom i response k with
    | Some (_, node) => Some node
    | None => JS.get acc k
    end.
Proof.
  induction response as [|n rest IH]; intros i acc k; cbn [fold_left lastWithIdFrom].
  - reflexivity.
  - rewrite (IH (S i)). destruct (lastWithIdFrom (S i) rest k) as [[j node]|]; [reflexivity|].
    destruct (String.eqb_spec (contentId n) k) as [->|Hne].
    + apply get_set_same.
    + apply get_set_other. congruence.
Qed.

Lemma buildNodeMap_get response k :
  JS.get (buildNodeMap response) k = option_map snd (lastWithId response k).
Proof.
  unfold buildNodeMap, lastWithId. rewrite (buildNodeMap_get_from response 0 [] k).
  destruct (lastWithIdFrom 0 response k) as [[j node]|]; reflexivity.
Qed.

Lemma lastWithIdFrom_In response : forall i node,
  In node response -> isSome (lastWithIdFrom i response (contentId node)) = true.
Proof.
  induction response as [|n rest IH]; intros i node Hin; [destruct Hin|].
  cbn [lastWithIdFrom]. destruct Hin as [->|Hin].
  - destruct (lastWithIdFrom (S i) rest (contentId node)); [reflexivity|].
    now rewrite String.eqb_refl.
  - specialize (IH (S i) node Hin).
    destruct (lastWithIdFrom (S i) rest (contentId node)); [reflexivity | discriminate].
Qed.

Lemma nodesInOrder_ingest response :
  nodesInOrder (Some response) (buildNodeMap response) = map contentId response.
Proof.
  cbn [nodesInOrder]. apply forallb_filter_id. apply forallb_forall.
  intros k Hin. apply in_map_iff in Hin. destruct Hin as [node [<- Hin]].
  rewrite buildNodeMap_get. unfold lastWithId.
  pose proof (@lastWithIdFrom_In response 0 node Hin) as H.
  destruct (lastWithIdFrom 0 response (contentId node)); [reflexivity | discriminate].
Qed.

Lemma withFriendlyId_twice node a b :
  withFriendlyId (withFriendlyId node a) b = withFriendlyId node b.
Proof. reflexivity. Qed.

(** Stamping any list of keys: a key keeps the counter value of its last
    occurrence. *)
Lemma stamp_fold_get ks : forall nm c k,
  JS.get (fst (fold_left stampFriendlyId ks (nm, c))) k
  = match lastStampFrom c ks k with
    | Some j => option_map (fun node => withFriendlyId node (Some (JS.padStart0 2 (JS.ofNat j))))
                           (JS.get nm k)
    | None => JS.get nm k
    end.
Proof.
  induction ks as [|k0 ks IH]; intros nm c k; cbn [fold_left lastStampFrom].
  - reflexivity.
  - cbn [stampFriendlyId]. rewrite IH.
    destruct (JS.get nm k0) as [n0|] eqn:Hn0.
    + destruct (String.eqb_spec k0 k) as [->|Hne].
      * rewrite get_set_same, Hn0. cbn [option_map].
        destruct (lastStampFrom (S c) ks k); reflexivity.
      * rewrite get_set_other by congruence.
        destruct (lastStampFrom (S c) ks k); reflexivity.
    + destruct (String.eqb_spec k0 k) as [->|Hne].
      * rewrite Hn0. destruct (lastStampFrom (S c) ks k); reflexivity.
      * destruct (lastStampFrom (S c) ks k); reflexivity.
Qed.

Lemma lastStampFrom_ids response : forall i k,
  lastStampFrom (S i) (map contentId response) k
  = option_map (fun found => S (fst found)) (lastWithIdFrom i response k).
Proof.
  induction response as [|n rest IH]; intros i k; cbn [map lastStampFrom lastWithIdFrom].
  - reflexivity.
  - rewrite IH. destruct (lastWithIdFrom (S i) rest k) as [[j node]|]; cbn [option_map fst].
    + reflexivity.
    + destruct (String.eqb (contentId n) k); reflexivity.
Qed.

(** What the ingest stores, for every list: under each id the last element
    that carries it, stamped with the counter value of that position. *)
Lemma ingestedNodeMap_get response k :
  JS.get (ingestedNodeMap response) k = ingestedNode response k.
Proof.
  unfold ingestedNodeMap, ingestedNode. rewrite nodesInOrder_ingest, stamp_fold_get.
  rewrite buildNodeMap_get. unfold lastWithId. rewrite lastStampFrom_ids.
  destruct (lastWithIdFrom 0 response k) as [[j node]|]; reflexivity.
Qed.

(** C5. A full-tree load on any response list (budget above its length)
    returns normally and replaces both maps by what the list alone
    determines: under every id the node map holds the last element that
    carries it, with the friendly id of that position (counted from 1, padded
    to two digits), and the parent map holds for every non-empty stored id
    the last node that lists it; with distinct ids the node map lists the
    response in order and the node at position [i] carries the friendly id
    [i + 1].  For the empty list the page shows the "no root" message, both
    maps are empty and the root id is left as it was.  For a non-empty list
    the root id becomes the id of the first element when that id is a
    non-empty string; when it is empty the load stops behind its own guard
    with the error view and assigns no root id. *)
Theorem C5_full_tree_ingest :
  forall (fuel : nat) (dom : Filters) (srv : Server) (st : State) (response : list Node),
    treeResponse srv = Resolved response ->
    List.length response < fuel ->
    exists st',
      loadAndRenderTree fuel dom srv st = Some (tt, st')
      /\ (forall other other',
            loadAndRenderTree fuel dom srv other = Some (tt, other') ->
            nodeMap other' = nodeMap st' /\ parentMap other' = parentMap st')
      /\ (forall k, JS.get (nodeMap st') k = ingestedNode response k)
      /\ (forall c, JS.get (parentMap st') c
                    = if JS.truthy c && isSome (lastWithId response c)
                      then lastWriter response c else None)
      /\ (response = [] ->
            view st' = VNoRoot /\ stableRootId st' = stableRootId st
            /\ nodeMap st' = [] /\ parentMap st' = [])
      /\ (forall first rest,
            response = first :: rest ->
            (NoDup (map contentId response) ->
               JS.keys (nodeMap st') = map contentId response
               /\ (forall i node, nth_error response i = Some node ->
                     JS.get (nodeMap st') (contentId node)
                     = Some (withFriendlyId node (Some (JS.padStart0 2 (JS.ofNat (S i)))))))
            /\ (JS.truthy (contentId first) = true ->
                  stableRootId st' = Some (contentId first))
            /\ (JS.truthy (contentId first) = false ->
                  stableRootId st' = stableRootId st
                  /\ view st' = VLoadError "No root node found")).
Proof.
  intros fuel dom srv st response Hresp Hfuel.
  assert (Hsize : responseSize srv < fuel) by (unfold responseSize; now rewrite Hresp).
  destruct (@loadAndRenderTree_run fuel dom srv st Hsize)
    as [st' [Hrun [Hnm [Hpm [Hroot [_ [_ [_ [Hview _]]]]]]]]].
  exists st'. split; [exact Hrun|]. split; [|split; [|split; [|split]]].
  - intros other other' Hother.
    destruct (@loadAndRenderTree_run fuel dom srv other Hsize)
      as [other'' [Hrun' [Hnm' [Hpm' _]]]].
    rewrite Hother in Hrun'. inversion Hrun'; subst other''.
    now rewrite Hnm, Hnm', Hpm, Hpm'.
  - intros k. rewrite Hnm. unfold reloadedNodeMap. rewrite Hresp.
    apply ingestedNodeMap_get.
  - intros c. rewrite Hpm. unfold reloadedParentMap. rewrite Hresp.
    rewrite buildParentMap_get, buildNodeMap_get.
    now destruct (lastWithId response c).
  - intros ->. unfold reloadedNodeMap, reloadedParentMap, reloadedRoot in *.
    rewrite Hresp in *. repeat split; auto.
  - intros first rest ->. split; [|split].
    + intros Hnd. unfold reloadedNodeMap in Hnm. rewrite Hresp in Hnm. rewrite Hnm.
      exact (@ingestedNodeMap_NoDup (first :: rest) Hnd).
    + intros Ht. unfold reloadedRoot in Hroot. rewrite Hresp in Hroot.
      now rewrite Hroot, Ht.
    + intros Hf. unfold reloadedRoot in Hroot. rewrite Hresp in Hroot.
      rewrite Hroot, Hf. split; [reflexivity|].
      unfold loadAndRenderTree in Hrun. rewrite Hresp in Hrun.
      unfold assignFriendlyIds, bind, modify, ret in Hrun. cbn beta iota in Hrun.
      rewrite Hf in Hrun. cbn [negb] in Hrun. inversion Hrun. reflexivity.
Qed.

Lemma C5_full_tree_ingest_witness :
  let node id cs := mkNode id id "" "New" (Some cs) None false in
  let response := [node "r" ["a"]; node "a" []; node "a" ["r"]] in
  let srv := mkServer (Resolved response) (Some []) (Resolved tt) (Resolved tt) in
  let st := mkState [] [] [] None None true [] false VInitial [] 0 in
  exists st',
    loadAndRenderTree 4 (mkFilters (Some "all") (Some "all")) srv st = Some (tt, st')
    /\ stableRootId st' = Some "r"
    /\ JS.get (nodeMap st') "a" = Some (withFriendlyId (node "a" ["r"]) (Some "03"))
    /\ JS.get (parentMap st') "r" = Some "a".
Proof.
  intros node response srv st.
  destruct (@C5_full_tree_ingest 4 (mkFilters (Some "all") (Some "all")) srv st response
              eq_refl) as [st' [Hrun [_ [Hget [Hpar [_ Hne]]]]]].
  { simpl. lia. }
  exists st'. split; [exact Hrun|].
  destruct (Hne (node "r" ["a"]) [node "a" []; node "a" ["r"]] eq_refl) as [_ [Hr _]].
  split; [now apply Hr|]. split.
  - rewrite Hget. reflexivity.
  - rewrite Hpar. reflexivity.
Defined.

(** C5, the claim as it is written.  The first element of the list has the
    empty string as id: the list is not empty, yet the root id does not
    become the id of its first element; the load stops behind the guard
    [if (!rootNodeId) throw ...] and shows the error view. *)
Lemma C5_first_element_without_id_counterexample :
  let first := mkNode "" "Home" "" "New" (Some []) None false in
  let srv := mkServer (Resolved [first]) (Some []) (Resolved tt) (Resolved tt) in
  let st := mkState [] [] [] None None true [] false VInitial [] 0 in
  exists st',
    loadAndRenderTree 2 (mkFilters (Some "all") (Some "all")) srv st = Some (tt, st')
    /\ stableRootId st' <> Some (contentId first)
    /\ stableRootId st' = None
    /\ view st' = VLoadError "No root node found".
Proof.
  intros first srv st. vm_compute. eexists. split; [reflexivity|].
  repeat split. discriminate.
Qed.

(** ** Render purity *)

(** C3. The earlier copy of renderNode (flowchart.js:1631) sorts
    [node.children] itself, not a copy: after one pass over a store whose root
    lists its children as "b", "a", the store lists them as "a", "b". *)
Theorem C3_legacy_render_reorders_children :
  let node id cs := mkNode id id "" "New" (Some cs) None false in
  let st := mkState [("r", node "r" ["b"; "a"]); ("a", node "a" []); ("b", node "b" [])]
                    [("b", "r"); ("a", "r")] [] (Some "r") None true [] false VInitial [] 0 in
  let dom := mkFilters (Some "all") (Some "all") in
  let srv := mkServer (Rejected "offline") None (Rejected "offline") (Rejected "offline") in
  exists st',
    Legacy.loadAndRenderVisuals 5 dom srv (Some "r") st = Some (tt, st')
    /\ view st' = VTree [RNode "r" 0 [RNode "a" 1 []; RNode "b" 1 []]]
    /\ option_map children (JS.get (nodeMap st) "r") = Some (Some ["b"; "a"])
    /\ option_map children (JS.get (nodeMap st') "r") = Some (Some ["a"; "b"])
    /\ nodeMap st' <> nodeMap st.
Proof.
  intros node st dom srv. eexists. split; [vm_compute; reflexivity|].
  repeat split; try reflexivity. discriminate.
Qed.

(** The current copy sorts a copy of the array (flowchart.js:581): on the same
    store the pass leaves the node map as it was. *)
Example current_render_keeps_children :
  let node id cs := mkNode id id "" "New" (Some cs) None false in
  let st := mkState [("r", node "r" ["b"; "a"]); ("a", node "a" []); ("b", node "b" [])]
                    [("b", "r"); ("a", "r")] [] (Some "r") None true [] false VInitial [] 0 in
  let dom := mkFilters (Some "all") (Some "all") in
  let srv := mkServer (Rejected "offline") None (Rejected "offline") (Rejected "offline") in
  exists st',
    loadAndRenderVisuals 5 dom srv (Some "r") st = Some (tt, st')
    /\ view st' = VTree [RNode "r" 0 [RNode "a" 1 []; RNode "b" 1 []]]
    /\ nodeMap st' = nodeMap st /\ parentMap st' = parentMap st.
Proof.
  intros node st dom srv. eexists. split; [vm_compute; reflexivity|].
  repeat split; reflexivity.
Qed.

(** ** Ancestor preservation *)

(** C1. A reload renders without the marking pass.  With the status select on
    "Completed", a root of status "New" and a child of status "Completed":
    the child passes the filter, but loadAndRenderTree shows an empty tree,
    while loadAndRenderVisuals on the very same store shows the root with the
    child under it. *)
Theorem C1_reload_drops_ancestors :
  let response := [mkNode "r" "Root" "" "New" (Some ["d"]) None false;
                   mkNode "d" "Done" "" "Completed" (Some []) None false] in
  let srv := mkServer (Resolved response) (Some []) (Resolved tt) (Resolved tt) in
  let dom := mkFilters (Some "all") (Some "Completed") in
  let st := mkState [] [] [] None None true [] false VInitial [] 0 in
  exists loaded shown,
    loadAndRenderTree 3 dom srv st = Some (tt, loaded)
    /\ isNodeVisible dom loaded "d" = true
    /\ JS.get (parentMap loaded) "d" = Some "r"
    /\ view loaded = VTree []
    /\ loadAndRenderVisuals 3 dom srv None loaded = Some (tt, shown)
    /\ view shown = VTree [RNode "r" 0 [RNode "d" 1 []]].
Proof.
  intros response srv dom st. eexists. eexists.
  split; [vm_compute; reflexivity|].
  repeat split; vm_compute; reflexivity.
Qed.

(** On a parent map with a cycle the marking walk never returns: no budget is
    enough. *)
Lemma markParentsVisible_cycle :
  forall fuel flagA flagB,
    markParentsVisible fuel "a"
      (mkState [("r", mkNode "r" "r" "" "New" (Some ["a"]) None false);
                ("a", mkNode "a" "a" "" "New" (Some ["b"]) None flagA);
                ("b", mkNode "b" "b" "" "New" (Some ["a"]) None flagB)]
               [("b", "a"); ("a", "b")] [] (Some "r") None true [] false VRendering [] 0)
    = None.
Proof.
  intros fuel.
  enough (H : (forall flagA flagB, markParentsVisible fuel "a"
      (mkState [("r", mkNode "r" "r" "" "New" (Some ["a"]) None false);
                ("a", mkNode "a" "a" "" "New" (Some ["b"]) None flagA);
                ("b", mkNode "b" "b" "" "New" (Some ["a"]) None flagB)]
               [("b", "a"); ("a", "b")] [] (Some "r") None true [] false VRendering [] 0)
      = None)
    /\ (forall flagA flagB, markParentsVisible (S fuel) "a"
      (mkState [("r", mkNode "r" "r" "" "New" (Some ["a"]) None false);
                ("a", mkNode "a" "a" "" "New" (Some ["b"]) None flagA);
                ("b", mkNode "b" "b" "" "New" (Some ["a"]) None flagB)]
               [("b", "a"); ("a", "b")] [] (Some "r") None true [] false VRendering [] 0)
      = None)) by apply H.
  induction fuel as [|fuel [IH0 IH1]].
  - split; reflexivity.
  - split; [exact IH1|]. intros flagA flagB. cbn. apply (IH0 true true).
Qed.

Lemma markParentsVisible_no_parent fuel id st :
  JS.get (parentMap st) id = None -> markParentsVisible (S fuel) id st = Some (tt, st).
Proof. intros H. cbn [markParentsVisible]. now rewrite H. Qed.

(** So the whole pass hangs on the store ingested from the list
    r -> a, a -> b, b -> a. *)
Lemma loadAndRenderVisuals_hangs_on_cycle :
  forall fuel,
    loadAndRenderVisuals fuel (mkFilters (Some "all") (Some "all"))
      (mkServer (Rejected "offline") None (Rejected "offline") (Rejected "offline")) None
      (mkState [("r", mkNode "r" "r" "" "New" (Some ["a"]) None false);
                ("a", mkNode "a" "a" "" "New" (Some ["b"]) None false);
                ("b", mkNode "b" "b" "" "New" (Some ["a"]) None false)]
               [("b", "a"); ("a", "b")] [] (Some "r") None true [] false VInitial [] 0)
    = None.
Proof.
  intros [|fuel]; [reflexivity|].
  unfold loadAndRenderVisuals, markVisibleParents. run_m. cbn -[markParentsVisible].
  run_m. cbn -[markParentsVisible].
  rewrite markParentsVisible_no_parent by reflexivity.
  unfold setView, setRenderedNodes. cbn -[markParentsVisible].
  now rewrite markParentsVisible_cycle.
Qed.

(** ** Search mode *)

(** A name query of one character, with no id query, does not start a search:
    the handler does what it does with no query at all. *)
Lemma one_character_name_query_is_ignored fuel dom srv nameInput :
  String.length (queryOf nameInput) = 1 ->
  forall st, applyFilters fuel dom srv nameInput (Some "") st
             = applyFilters fuel dom srv (Some "") (Some "") st.
Proof.
  intros Hlen st. unfold applyFilters, searchActive. rewrite Hlen. reflexivity.
Qed.

(** An id query of one character starts a search, whatever the name query. *)
Lemma one_character_id_query_searches nameQ idQ :
  String.length idQ = 1 -> searchActive nameQ idQ = true.
Proof. intros H. unfold searchActive. rewrite H. apply orb_true_r. Qed.

(** In a search the name is compared only when the name query has two
    characters or more. *)
Lemma short_name_query_matches_all nameQ idQ node :
  String.length nameQ < 2 ->
  matchesSearch nameQ idQ node = matchesSearch "" idQ node.
Proof.
  intros H. unfold matchesSearch.
  destruct (Nat.leb_spec 2 (String.length nameQ)); [lia | reflexivity].
Qed.

(** The loop stops at the first key, in enumeration order, that matches. *)
Lemma findFirstMatch_first nameQ idQ nm found :
  findFirstMatch nameQ idQ nm = Some found ->
  exists before after node,
    JS.ownKeys nm = before ++ found :: after
    /\ JS.get nm found = Some node /\ matchesSearch nameQ idQ node = true
    /\ forall k n, In k before -> JS.get nm k = Some n -> matchesSearch nameQ idQ n = false.
Proof.
  unfold findFirstMatch. generalize (JS.ownKeys nm) as ks.
  induction ks as [|k ks IH]; cbn [find]; intros H; [discriminate|].
  destruct (JS.get nm k) as [n|] eqn:Hk.
  - destruct (matchesSearch nameQ idQ n) eqn:Hm.
    + inversion H; subst. exists [], ks, n. repeat split; auto. intros ? ? [].
    + destruct (IH H) as [before [after [node [-> [Hg [Hmatch Hbefore]]]]]].
      exists (k :: before), after, node. repeat split; auto.
      intros k' n' [<-|Hin] Hget; [congruence | eauto].
  - destruct (IH H) as [before [after [node [-> [Hg [Hmatch Hbefore]]]]]].
    exists (k :: before), after, node. repeat split; auto.
    intros k' n' [<-|Hin] Hget; [congruence | eauto].
Qed.

(** C7. With the status select on "Completed", a store holding one node of
    status "New" with friendly id "01", and the id query "1": the search finds
    the node, single-node mode is switched on and the message says that the
    node is displayed, but the renderer filters the node out and the tree
    wrapper is left empty. *)
Theorem C7_filtered_match_is_not_drawn :
  let node := mkNode "n1" "Alpha" "" "New" (Some []) (Some "01") false in
  let st := mkState [("n1", node)] [] [] (Some "n1") None true [] false VInitial [] 0 in
  let dom := mkFilters (Some "all") (Some "Completed") in
  let srv := mkServer (Resolved [node]) (Some []) (Resolved tt) (Resolved tt) in
  exists st',
    applyFilters 2 dom srv (Some "") (Some "1") st = Some (Returns VUndefined, st')
    /\ findFirstMatch (queryOf (Some "")) (queryOf (Some "1")) (nodeMap st) = Some "n1"
    /\ singleNodeMode st' = true
    /\ messages st' = [mkMessage "Displaying only: Alpha (ID 01)" "info"]
    /\ view st' = VTree [].
Proof.
  intros node st dom srv. eexists. split; [vm_compute; reflexivity|].
  repeat split; reflexivity.
Qed.

(** Without a status filter the same search draws the node alone. *)
Example search_draws_single_node :
  let node id cs fid := mkNode id id "" "New" (Some cs) (Some fid) false in
  let st := mkState [("r", node "r" ["k"] "01"); ("k", node "k" [] "02")] [("k", "r")] []
                    (Some "r") None true [] false VInitial [] 0 in
  let dom := mkFilters (Some "all") (Some "all") in
  let srv := mkServer (Rejected "offline") (Some []) (Resolved tt) (Resolved tt) in
  exists st',
    applyFilters 3 dom srv (Some "x") (Some "1") st = Some (Returns VUndefined, st')
    /\ singleNodeMode st' = true
    /\ view st' = VTree [RNode "r" 0 []].
Proof.
  intros node st dom srv. eexists. split; [vm_compute; reflexivity|].
  split; reflexivity.
Qed.

(** ** Mutations on an unknown id *)

Lemma showMessage_run text type st :
  exists st', showMessage text type st = Some (tt, st')
              /\ nodeMap st' = nodeMap st /\ parentMap st' = parentMap st
              /\ stableRootId st' = stableRootId st
              /\ pageReloads st' = pageReloads st
              /\ messages st' = messages st ++ [mkMessage text type].
Proof. eexists. split; [reflexivity|]. cbn. auto. Qed.

(** The local patch of deleteNode changes nothing when the id is in neither
    map. *)
Lemma deleteLocally_unknown contentId st :
  JS.get (nodeMap st) contentId = None ->
  JS.get (parentMap st) contentId = None ->
  deleteLocally contentId None st = st.
Proof.
  intros Hn Hp. unfold deleteLocally. cbn [nodeMap parentMap setNodeMap setParentMap].
  rewrite (delete_absent _ _ Hn), (delete_absent _ _ Hp). now destruct st.
Qed.

(** C4 (amended). An edit or a confirmed delete on an id that is absent from
    the node map returns undefined, without a success flag, and lets no
    exception out.  The edit shows "Failed to update node: ..." as an error
    and starts a full reload, which leaves the maps built from the tree
    response.  The delete, when its request fails, leaves both maps as they
    were, shows "Failed to delete node: ..." and reloads the page; when its
    request succeeds, it is followed by a full reload and the message
    "Node ... deleted successfully". *)
Theorem C4_unknown_id_mutations :
  forall (fuel : nat) (dom : Filters) (srv : Server) (st : State)
         (contentId editName editDescription newStatus nodeName : string),
    JS.get (nodeMap st) contentId = None ->
    responseSize srv < fuel ->
    (exists st' text,
        handleEditSubmit fuel dom srv contentId editName editDescription newStatus st
        = Some (Returns VUndefined, st')
        /\ In (mkMessage ("Failed to update node: " ++ text) "error") (messages st')
        /\ nodeMap st' = reloadedNodeMap srv
        /\ parentMap st' = reloadedParentMap srv)
    /\ (exists st',
           deleteNode fuel dom srv contentId nodeName true st = Some (Returns VUndefined, st')
           /\ (forall msg, deleteResponse srv = Rejected msg ->
                 nodeMap st' = nodeMap st /\ parentMap st' = parentMap st
                 /\ pageReloads st' = S (pageReloads st)
                 /\ In (mkMessage ("Failed to delete node: " ++ msg) "error") (messages st'))
           /\ (forall u, deleteResponse srv = Resolved u ->
                 nodeMap st' = reloadedNodeMap srv
                 /\ parentMap st' = reloadedParentMap srv
                 /\ In (mkMessage ("Node " ++ dquote ++ nodeName ++ dquote
                                   ++ " deleted successfully.") "success") (messages st'))).
Proof.
  intros fuel dom srv st contentId editName editDescription newStatus nodeName Habsent Hfuel.
  split.
  - unfold handleEditSubmit, showMessage.
    destruct (updateResponse srv) as [u|msg]; run_m; cbn [nodeMap];
      try rewrite Habsent;
      match goal with
      | |- context [loadAndRenderTree fuel dom srv ?s] =>
          destruct (@loadAndRenderTree_run fuel dom srv s Hfuel)
            as [st' [Hrun [Hnm [Hpm [_ [Hmsg _]]]]]]; rewrite Hrun
      end;
      eexists; eexists; (split; [reflexivity|]);
      (split; [rewrite Hmsg; cbn [messages]; apply in_or_app; right; left; reflexivity|]);
      split; assumption.
  - unfold deleteNode, showMessage, locationReload. cbn [negb]. run_m.
    destruct (deleteResponse srv) as [u|msg]; run_m.
    + match goal with
      | |- context [loadAndRenderTree fuel dom srv ?s] =>
          destruct (@loadAndRenderTree_run fuel dom srv s Hfuel)
            as [st' [Hrun [Hnm [Hpm [_ [Hmsg _]]]]]]; rewrite Hrun
      end.
      eexists. split; [reflexivity|]. split; [intros msg H; discriminate|].
      intros _ _. cbn. repeat split; try assumption.
      apply in_or_app. right. left. reflexivity.
    + eexists. split; [reflexivity|]. split; [|intros u H; discriminate].
      intros msg' H. inversion H; subst. cbn. repeat split.
      apply in_or_app. right. left. reflexivity.
Qed.

Lemma C4_unknown_id_mutations_witness :
  let a := mkNode "a" "Home" "" "New" (Some []) (Some "01") false in
  let b := mkNode "b" "Docs" "" "New" (Some []) None false in
  let st := mkState [("a", a)] [] [] (Some "a") None true [] false VInitial [] 0 in
  let srv := mkServer (Resolved [a; b]) (Some []) (Rejected "Node not found")
                      (Rejected "Node not found") in
  let dom := mkFilters (Some "all") (Some "all") in
  exists st' text,
    handleEditSubmit 3 dom srv "ghost" "New name" "" "Completed" st
    = Some (Returns VUndefined, st')
    /\ In (mkMessage ("Failed to update node: " ++ text) "error") (messages st')
    /\ nodeMap st' = reloadedNodeMap srv
    /\ parentMap st' = reloadedParentMap srv.
Proof.
  intros a b st srv dom.
  destruct (@C4_unknown_id_mutations 3 dom srv st "ghost" "New name" "" "Completed" "ghost")
    as [Hedit _].
  - reflexivity.
  - vm_compute. lia.
  - exact Hedit.
Defined.

(** The claim as it stands fails on the same input: what comes back is
    undefined, not a boolean, and the node map is no longer the one the
    handler started from (the reload has brought in a second node). *)
Lemma C4_unknown_id_counterexample :
  let a := mkNode "a" "Home" "" "New" (Some []) (Some "01") false in
  let b := mkNode "b" "Docs" "" "New" (Some []) None false in
  let st := mkState [("a", a)] [] [] (Some "a") None true [] false VInitial [] 0 in
  let srv := mkServer (Resolved [a; b]) (Some []) (Rejected "Node not found")
                      (Rejected "Node not found") in
  let dom := mkFilters (Some "all") (Some "all") in
  JS.get (nodeMap st) "ghost" = None
  /\ (exists st',
        handleEditSubmit 3 dom srv "ghost" "New name" "" "Completed" st
        = Some (Returns VUndefined, st')
        /\ JS.keys (nodeMap st) = ["a"]
        /\ JS.keys (nodeMap st') = ["a"; "b"])
  /\ ~ (exists flag st',
          handleEditSubmit 3 dom srv "ghost" "New name" "" "Completed" st
          = Some (Returns (VBool flag), st')
          /\ nodeMap st' = nodeMap st).
Proof.
  intros a b st srv dom. split; [reflexivity|]. split.
  - eexists. split; [vm_compute; reflexivity|]. split; reflexivity.
  - intros [flag [st' [H _]]]. vm_compute in H. discriminate.
Qed.

(** ** The marking pass *)

Lemma withForceVisible_same n : withForceVisible n (_forceVisible n) = n.
Proof. now destruct n. Qed.

Lemma sameButFlag_refl kv : sameButFlag kv kv.
Proof. unfold sameButFlag. now rewrite withForceVisible_same. Qed.

Lemma flagsExtend_refl nm : flagsExtend nm nm.
Proof. induction nm; constructor; auto using sameButFlag_refl. Qed.

Lemma sameButFlag_trans a b c : sameButFlag a b -> sameButFlag b c -> sameButFlag a c.
Proof.
  intros [H1 [H2 H3]] [H4 [H5 H6]]. unfold sameButFlag. repeat split.
  - congruence.
  - rewrite H5, H2. reflexivity.
  - auto.
Qed.

Lemma flagsExtend_trans a b c : flagsExtend a b -> flagsExtend b c -> flagsExtend a c.
Proof.
  intros Hab. revert c. induction Hab as [|x y l l' Hxy _ IH]; intros c Hbc.
  - inversion Hbc. constructor.
  - inversion Hbc; subst. constructor; [eapply sameButFlag_trans; eassumption | now apply IH].
Qed.

Lemma flagsExtend_keys nm nm' : flagsExtend nm nm' -> JS.keys nm' = JS.keys nm.
Proof.
  induction 1 as [|x y l l' [Hk _] _ IH]; [reflexivity|].
  unfold JS.keys in *. cbn [map]. now rewrite Hk, IH.
Qed.

Lemma flagsExtend_length nm nm' : flagsExtend nm nm' -> List.length nm' = List.length nm.
Proof. intros H. symmetry. eapply Forall2_length; eassumption. Qed.

Lemma flagsExtend_get nm nm' k :
  flagsExtend nm nm' ->
  match JS.get nm k with
  | Some n => exists n', JS.get nm' k = Some n'
                         /\ n' = withForceVisible n (_forceVisible n')
                         /\ (_forceVisible n = true -> _forceVisible n' = true)
  | None => JS.get nm' k = None
  end.
Proof.
  induction 1 as [|[k0 v0] [k1 v1] l l' [Hk [Hv Hf]] _ IH]; [reflexivity|].
  cbn [fst snd] in *. subst k1. cbn [JS.get].
  destruct (String.eqb k0 k); [|exact IH].
  exists v1. auto.
Qed.

Lemma flagsExtend_set nm k n :
  JS.get nm k = Some n -> flagsExtend nm (JS.set nm k (withForceVisible n true)).
Proof.
  induction nm as [|[k0 v0] nm IH]; cbn [JS.get JS.set]; [discriminate|].
  destruct (String.eqb k0 k) eqn:E; intros H.
  - inversion H; subst. apply String.eqb_eq in E. subst k0.
    constructor; [|apply flagsExtend_refl]. unfold sameButFlag. cbn. auto.
  - constructor; [apply sameButFlag_refl | now apply IH].
Qed.

Lemma flagged_mono nm nm' a : flagsExtend nm nm' -> flagged nm a -> flagged nm' a.
Proof.
  intros Hext [n [Hg Hf]]. pose proof (@flagsExtend_get nm nm' a Hext) as H. rewrite Hg in H.
  destruct H as [n' [Hg' [_ Hmono]]]. exists n'. auto.
Qed.

Lemma resolves_mono nm nm' a :
  flagsExtend nm nm' -> isSome (JS.get nm' a) = isSome (JS.get nm a).
Proof.
  intros Hext. pose proof (@flagsExtend_get nm nm' a Hext) as H.
  destruct (JS.get nm a); [destruct H as [n' [-> _]] | rewrite H]; reflexivity.
Qed.

Section Marking.

Variables (dom : Filters) (s : State).

Local Abbreviation with_ nm := (setNodeMap nm s).

Lemma isNodeVisible_mono nm nm' k :
  flagsExtend nm nm' ->
  isNodeVisible dom (with_ nm) k = true -> isNodeVisible dom (with_ nm') k = true.
Proof.
  intros Hext. pose proof (@flagsExtend_get nm nm' k Hext) as H.
  unfold isNodeVisible. cbn [nodeMap nodeStats setNodeMap].
  destruct (JS.get nm k) as [n|]; [|discriminate].
  destruct H as [n' [-> [Hn' Hmono]]].
  destruct (_forceVisible n) eqn:Hf; [now rewrite Hmono|].
  destruct (_forceVisible n'); [reflexivity|].
  rewrite Hn'. unfold statusRejects, withForceVisible. cbn [status]. auto.
Qed.

Lemma ancestorChain_mono nm nm' chain :
  flagsExtend nm nm' ->
  forall d, ancestorChain (with_ nm) d chain -> ancestorChain (with_ nm') d chain.
Proof.
  intros Hext. induction chain as [|a rest IH]; intros d; cbn [ancestorChain]; [auto|].
  cbn [nodeMap parentMap setNodeMap]. intros [H1 [H2 [H3 H4]]].
  repeat split; auto. now rewrite (@resolves_mono nm nm' a Hext).
Qed.

(** The walk from [c] ends within the bound on the parent map, and flags every
    ancestor on the chain of [c]. *)
Lemma markParentsVisible_marks n :
  forall fuel c nm,
    hopsBounded n (parentMap s) c = true -> n < fuel ->
    exists nm',
      markParentsVisible fuel c (with_ nm) = Some (tt, with_ nm')
      /\ flagsExtend nm nm'
      /\ forall chain, ancestorChain (with_ nm) c chain ->
                       forall a, In a chain -> flagged nm' a.
Proof.
  induction n as [|n IH]; intros [|fuel] c nm Hb Hfuel; try lia;
    cbn [markParentsVisible]; cbn [parentMap nodeMap setNodeMap];
    cbn [hopsBounded] in Hb.
  - destruct (JS.get (parentMap s) c) as [p|] eqn:Hp.
    + destruct (JS.truthy p) eqn:Ht; [discriminate|].
      exists nm. split; [reflexivity|]. split; [apply flagsExtend_refl|].
      intros [|a rest] Hc; [intros ? []|]. cbn [ancestorChain parentMap setNodeMap] in Hc.
      destruct Hc as [H1 [H2 _]]. rewrite Hp in H1. inversion H1; subst. congruence.
    + exists nm. split; [reflexivity|]. split; [apply flagsExtend_refl|].
      intros [|a rest] Hc; [intros ? []|]. cbn [ancestorChain parentMap setNodeMap] in Hc.
      destruct Hc as [H1 _]. rewrite Hp in H1. discriminate.
  - destruct (JS.get (parentMap s) c) as [p|] eqn:Hp.
    2:{ exists nm. split; [reflexivity|]. split; [apply flagsExtend_refl|].
        intros [|a rest] Hc; [intros ? []|]. cbn [ancestorChain parentMap setNodeMap] in Hc.
        destruct Hc as [H1 _]. rewrite Hp in H1. discriminate. }
    destruct (JS.truthy p) eqn:Ht.
    2:{ exists nm. split; [reflexivity|]. split; [apply flagsExtend_refl|].
        intros [|a rest] Hc; [intros ? []|]. cbn [ancestorChain parentMap setNodeMap] in Hc.
        destruct Hc as [H1 [H2 _]]. rewrite Hp in H1. inversion H1; subst. congruence. }
    destruct (JS.get nm p) as [pn|] eqn:Hpn.
    2:{ exists nm. split; [reflexivity|]. split; [apply flagsExtend_refl|].
        intros [|a rest] Hc; [intros ? []|].
        cbn [ancestorChain parentMap nodeMap setNodeMap] in Hc.
        destruct Hc as [H1 [_ [H3 _]]]. rewrite Hp in H1. inversion H1; subst.
        rewrite Hpn in H3. discriminate. }
    run_m.
    change (setNodeMap ?x (with_ nm)) with (with_ x).
    pose proof (@flagsExtend_set nm p pn Hpn) as Hext1.
    destruct (IH fuel p (JS.set nm p (withForceVisible pn true)) Hb ltac:(lia))
      as [nm' [Hrun [Hext Hchain]]].
    exists nm'. split; [exact Hrun|]. split; [eapply flagsExtend_trans; eassumption|].
    intros [|a rest] Hc; [intros ? []|].
    cbn [ancestorChain parentMap nodeMap setNodeMap] in Hc.
    destruct Hc as [H1 [_ [_ H4]]]. rewrite Hp in H1. inversion H1; subst a.
    intros a [<-|Hin].
    + apply (@flagged_mono _ nm' p Hext). exists (withForceVisible pn true).
      split; [apply get_set_same | reflexivity].
    + apply (Hchain rest); [|exact Hin].
      apply (@ancestorChain_mono nm _ rest Hext1). exact H4.
Qed.

Variable n : nat.
Hypothesis Hwf : forall id, hopsBounded n (parentMap s) id = true.

(** The loop over the node map: every node that is visible when the loop
    starts has its chain of ancestors flagged when the loop ends. *)
Lemma markLoop_marks fuel ks :
  n < fuel ->
  forall nm,
  exists nm',
    forEach ks (fun nodeId st =>
                  if isNodeVisible dom st nodeId then markParentsVisible fuel nodeId st
                  else ret tt st) (with_ nm) = Some (tt, with_ nm')
    /\ flagsExtend nm nm'
    /\ forall d chain, In d ks -> isNodeVisible dom (with_ nm) d = true ->
                       ancestorChain (with_ nm) d chain ->
                       forall a, In a chain -> flagged nm' a.
Proof.
  intros Hfuel. induction ks as [|k ks IH]; intros nm; cbn [forEach].
  - exists nm. split; [reflexivity|]. split; [apply flagsExtend_refl|]. intros d chain [].
  - run_m.
    assert (Hstep : exists nm1,
      (if isNodeVisible dom (with_ nm) k then markParentsVisible fuel k (with_ nm)
       else Some (tt, with_ nm)) = Some (tt, with_ nm1)
      /\ flagsExtend nm nm1
      /\ (isNodeVisible dom (with_ nm) k = true ->
          forall chain, ancestorChain (with_ nm) k chain ->
                        forall a, In a chain -> flagged nm1 a)).
    { destruct (isNodeVisible dom (with_ nm) k).
      - destruct (@markParentsVisible_marks n fuel k nm (Hwf k) Hfuel)
          as [nm1 [Hrun [Hext Hchain]]].
        exists nm1. auto.
      - exists nm. split; [reflexivity|]. split; [apply flagsExtend_refl|]. discriminate. }
    destruct Hstep as [nm1 [Hrun [Hext1 Hk]]]. rewrite Hrun.
    destruct (IH nm1) as [nm' [Hrest [Hext Hchain]]].
    exists nm'. split; [exact Hrest|]. split; [eapply flagsExtend_trans; eassumption|].
    intros d chain [<-|Hin] Hvis Hc a Ha.
    + apply (@flagged_mono nm1 nm' a Hext). eapply Hk; eassumption.
    + apply (Hchain d chain Hin); [| |exact Ha].
      * eapply isNodeVisible_mono; eassumption.
      * eapply ancestorChain_mono; eassumption.
Qed.

End Marking.

Lemma state_eta_nodeMap st : setNodeMap (nodeMap st) st = st.
Proof. now destruct st. Qed.

Lemma ownKeys_by_keys {V W} (o : JS.obj V) (o' : JS.obj W) :
  JS.keys o' = JS.keys o -> JS.ownKeys o' = JS.ownKeys o.
Proof. intros H. unfold JS.ownKeys. now rewrite H. Qed.

Lemma ancestorChain_ext st st' chain :
  parentMap st' = parentMap st -> nodeMap st' = nodeMap st ->
  forall d, ancestorChain st d chain -> ancestorChain st' d chain.
Proof.
  intros Hp Hn. induction chain as [|a rest IH]; intros d; cbn [ancestorChain]; [auto|].
  rewrite Hp, Hn. intros [H1 [H2 [H3 H4]]]. auto.
Qed.

(** The whole marking pass. *)
Lemma markVisibleParents_run n fuel dom st :
  parentsWellFounded n st -> n < fuel ->
  exists nm',
    markVisibleParents fuel dom st = Some (tt, setNodeMap nm' st)
    /\ flagsExtend (nodeMap st) nm'
    /\ forall d chain, isNodeVisible dom st d = true -> ancestorChain st d chain ->
                       forall a, In a chain -> flagged nm' a.
Proof.
  intros Hwf Hfuel. unfold markVisibleParents, bind, gets.
  destruct (@markLoop_marks dom st n Hwf fuel (JS.ownKeys (nodeMap st)) Hfuel (nodeMap st))
    as [nm' [Hmark [Hext Hflag]]].
  rewrite state_eta_nodeMap in Hmark, Hflag.
  exists nm'. split; [exact Hmark|]. split; [exact Hext|].
  intros d chain Hvis Hc. apply (Hflag d chain); auto.
  apply In_ownKeys. unfold isNodeVisible in Hvis.
  destruct (JS.get (nodeMap st) d) eqn:E; [|discriminate].
  eapply get_Some_In_keys; eassumption.
Qed.

(** A loop of plain updates always runs to its end. *)
Lemma forEach_modify {A} (f : A -> State -> State) ks :
  forall st, forEach ks (fun k => modify (f k)) st
             = Some (tt, fold_left (fun acc k => f k acc) ks st).
Proof.
  induction ks as [|k ks IH]; intros st; cbn [forEach fold_left]; [reflexivity|].
  run_m. apply IH.
Qed.

Lemma clearFlag_fold s ks : forall nm,
  exists nm',
    fold_left (fun acc k => clearFlag k acc) ks (setNodeMap nm s) = setNodeMap nm' s
    /\ JS.keys nm' = JS.keys nm
    /\ forall k, JS.get nm' k
                 = match JS.get nm k with
                   | Some node => Some (if JS.has ks k then withForceVisible node false else node)
                   | None => None
                   end.
Proof.
  induction ks as [|k0 ks IH]; intros nm; cbn [fold_left].
  - exists nm. split; [reflexivity|]. split; [reflexivity|].
    intros k. now destruct (JS.get nm k).
  - unfold clearFlag at 2. cbn [nodeMap setNodeMap].
    destruct (JS.get nm k0) as [n0|] eqn:H0.
    + change (setNodeMap ?x (setNodeMap nm s)) with (setNodeMap x s).
      destruct (IH (JS.set nm k0 (withForceVisible n0 false))) as [nm' [Hrun [Hk Hg]]].
      exists nm'. split; [exact Hrun|]. split.
      * rewrite Hk. apply keys_set_present. eapply get_Some_In_keys; eassumption.
      * intros k. rewrite Hg. unfold JS.has. cbn [existsb]. fold (JS.has ks k).
        destruct (String.eqb k k0) eqn:E.
        -- apply String.eqb_eq in E. subst k0. rewrite get_set_same, H0. cbn [orb].
           now destruct (JS.has ks k).
        -- rewrite get_set_other; [reflexivity|].
           intros ->. rewrite String.eqb_refl in E. discriminate.
    + destruct (IH nm) as [nm' [Hrun [Hk Hg]]].
      exists nm'. split; [exact Hrun|]. split; [exact Hk|].
      intros k. rewrite Hg. unfold JS.has. cbn [existsb]. fold (JS.has ks k).
      destruct (String.eqb k k0) eqn:E; [|reflexivity].
      apply String.eqb_eq in E. subst k0. now rewrite H0.
Qed.

(** The cleanup loop takes the flag off every stored node and changes nothing
    else. *)
Lemma clearForceVisible_run st :
  exists nm',
    clearForceVisible st = Some (tt, setNodeMap nm' st)
    /\ JS.keys nm' = JS.keys (nodeMap st)
    /\ forall k, JS.get nm' k
                 = option_map (fun node => withForceVisible node false) (JS.get (nodeMap st) k).
Proof.
  unfold clearForceVisible, bind, gets.
  change (fun nodeId => modify (fun st0 => match JS.get (nodeMap st0) nodeId with
                                           | Some node => _ | None => st0 end))
    with (fun nodeId => modify (clearFlag nodeId)).
  rewrite forEach_modify.
  destruct (@clearFlag_fold st (JS.ownKeys (nodeMap st)) (nodeMap st)) as [nm' [Hrun [Hk Hg]]].
  rewrite state_eta_nodeMap in Hrun.
  exists nm'. split; [now rewrite Hrun|]. split; [exact Hk|].
  intros k. rewrite Hg. destruct (JS.get (nodeMap st) k) as [node|] eqn:E; [|reflexivity].
  cbn [option_map].
  assert (Hin : JS.has (JS.ownKeys (nodeMap st)) k = true).
  { apply has_true_iff, In_ownKeys. eapply get_Some_In_keys; eassumption. }
  now rewrite Hin.
Qed.

(** What a render pass does when its root resolves: the marking pass flags
    some nodes, the stats cache is replaced by what the server returns, the
    renderer runs on that state, and the cleanup takes the flags off. *)
Lemma loadAndRenderVisuals_run n fuel dom srv rootOverrideId st root :
  parentsWellFounded n st ->
  n < fuel ->
  List.length (nodeMap st) < fuel ->
  chooseRoot rootOverrideId st = Some root ->
  JS.truthy root = true ->
  isSome (JS.get (nodeMap st) root) = true ->
  exists marked forest cleared,
    let rendering := setNodeStats (fetchedStats srv)
                       (setNodeMap marked (setView VRendering (setRenderedNodes [] st))) in
    let rendered := setRenderedNodes (ids forest) rendering in
    let shown := finalFocus (setView (VTree forest) rendered) in
    loadAndRenderVisuals fuel dom srv rootOverrideId st = Some (tt, setNodeMap cleared shown)
    /\ flagsExtend (nodeMap st) marked
    /\ (forall d chain, isNodeVisible dom st d = true -> ancestorChain st d chain ->
                        forall a, In a chain -> flagged marked a)
    /\ renderNode fuel dom root 0 (setRenderedNodes [] rendering) = Some (forest, rendered)
    /\ JS.keys cleared = JS.keys marked
    /\ forall k, JS.get cleared k
                 = option_map (fun node => withForceVisible node false) (JS.get marked k).
Proof.
  intros Hwf Hn Hlen Hroot Htruthy Hres.
  unfold loadAndRenderVisuals. run_m.
  set (s := setView VRendering (setRenderedNodes [] st)).
  destruct (@markVisibleParents_run n fuel dom s Hwf Hn) as [nm' [Hmark [Hext Hflag]]].
  rewrite Hmark.
  assert (Hroot' : chooseRoot rootOverrideId (setNodeMap nm' s) = Some root).
  { unfold chooseRoot in *. cbn [stableRootId nodeMap setNodeMap s setView setRenderedNodes].
    now rewrite (@ownKeys_by_keys _ _ (nodeMap st) nm' (flagsExtend_keys Hext)). }
  rewrite Hroot'. cbn [nodeMap setNodeMap]. rewrite Htruthy.
  rewrite (@resolves_mono _ _ root Hext). cbn [nodeMap s setView setRenderedNodes].
  rewrite Hres. cbn [andb].
  rewrite fetchAllStats_run.
  set (s2 := setNodeStats (fetchedStats srv) (setNodeMap nm' s)).
  destruct (@renderNode_total dom s2 fuel root 0 []) as [forest [s3 Hrun]].
  { pose proof (unrendered_le_length (JS.keys (nodeMap s2)) []) as Hle.
    assert (Hsize : List.length (JS.keys (nodeMap s2)) = List.length (nodeMap st)).
    { unfold JS.keys. rewrite length_map. exact (flagsExtend_length Hext). }
    lia. }
  pose proof (@renderNode_spec dom s2 fuel root 0 [] forest s3 Hrun) as Hs3.
  cbn [app] in Hs3. subst s3.
  change (setRenderedNodes [] s2) with s2 in Hrun. rewrite Hrun.
  unfold finishRender. run_m.
  match goal with |- context [clearForceVisible ?x] =>
    destruct (clearForceVisible_run x) as [cleared [Hclear [Hk Hg]]]; rewrite Hclear end.
  exists nm', forest, cleared. cbn zeta. split; [reflexivity|].
  split; [exact Hext|]. split.
  { intros d chain Hvis Hc. apply (Hflag d chain); [exact Hvis|].
    apply (@ancestorChain_ext st s chain eq_refl eq_refl d Hc). }
  split; [exact Hrun|]. split.
  - rewrite Hk. unfold finalFocus. now destruct (JS.truthyOpt _).
  - intros k. rewrite Hg. unfold finalFocus. now destruct (JS.truthyOpt _).
Qed.

Lemma last_In {A} (l : list A) (x : A) : l <> [] -> In (last l x) l.
Proof.
  induction l as [|a l IH]; [congruence|]. intros _.
  destruct l as [|b l]; [now left|]. right. apply IH. discriminate.
Qed.

Lemma chain_in_forest st (R : list string) (passing : string -> Prop) :
  parentsAreListed st ->
  (forall p c, In p R -> childOf st p c -> passing c -> In c R) ->
  forall chain d root,
    ancestorChain st d chain ->
    last chain root = root -> In root R ->
    (forall a, In a chain -> passing a) ->
    forall a, In a chain -> In a R.
Proof.
  intros Hlisted Hclosed. induction chain as [|b rest IH]; intros d root Hc Hlast Hroot Hpass a Ha;
    [destruct Ha|].
  cbn [ancestorChain] in Hc. destruct Hc as [Hpar [_ [Hres Hrest]]].
  assert (Hall : forall x, In x rest -> In x R).
  { intros x Hx. apply (IH b root Hrest); auto.
    - destruct rest; [destruct Hx | exact Hlast].
    - intros y Hy. apply Hpass. now right. }
  destruct Ha as [<-|Ha]; [|now apply Hall].
  destruct rest as [|c rest'].
  - cbn in Hlast. now subst.
  - cbn [ancestorChain] in Hrest. destruct Hrest as [Hparb [_ [Hresc _]]].
    apply (Hclosed c b).
    + apply Hall. now left.
    + apply Hlisted; assumption.
    + apply Hpass. now left.
Qed.

(** The marking pass of [loadAndRenderVisuals] does what it is there for: on
    an acyclic parent map whose entries are listed among their parents'
    children, outside single-node mode and with a render root that resolves
    in the node map, every ancestor, up to that root, of a node that passes
    the filters against the statistics cached when the pass starts is in
    the drawn tree, whether or not the ancestor passes the filters itself.
    (The marking loop reads the cache before the statistics are fetched
    again; the renderer reads it after.) *)
Theorem ancestors_preserved_by_render_pass :
  forall (n fuel : nat) (dom : Filters) (srv : Server) (rootOverrideId : option string)
         (st : State) (root d : string) (chain : list string),
    parentsWellFounded n st ->
    parentsAreListed st ->
    singleNodeMode st = false ->
    n < fuel ->
    List.length (nodeMap st) < fuel ->
    chooseRoot rootOverrideId st = Some root ->
    JS.truthy root = true ->
    isSome (JS.get (nodeMap st) root) = true ->
    isNodeVisible dom st d = true ->
    ancestorChain st d chain ->
    last chain root = root ->
    exists st' forest,
      loadAndRenderVisuals fuel dom srv rootOverrideId st = Some (tt, st')
      /\ view st' = VTree forest
      /\ forall a, In a chain -> In a (ids forest).
Proof.
  intros n fuel dom srv rootOverrideId st root d chain
         Hwf Hlisted Hmode Hn Hlen Hroot Htruthy Hres Hvis Hchain Hlast.
  destruct (@loadAndRenderVisuals_run n fuel dom srv rootOverrideId st root
              Hwf Hn Hlen Hroot Htruthy Hres)
    as [marked [forest [cleared [Hrun [Hext [Hflag [Hrender _]]]]]]].
  cbn zeta in Hrun.
  eexists. exists forest. split; [exact Hrun|]. split.
  { unfold finalFocus. now destruct (JS.truthyOpt _). }
  destruct chain as [|b rest]; [intros a []|].
  set (s2 := setNodeStats (fetchedStats srv)
               (setNodeMap marked (setView VRendering (setRenderedNodes [] st)))) in *.
  assert (Hmode2 : singleNodeMode s2 = false) by exact Hmode.
  destruct (@renderNode_closed dom s2 Hmode2 fuel root 0 [] forest _ Hrender)
    as [Hin Hclosed].
  cbn [app] in Hin, Hclosed.
  assert (Hpass : forall a, flagged marked a -> passes dom s2 a = true).
  { intros a [node [Hg Hf]]. unfold passes. cbn [nodeMap s2 setNodeStats setNodeMap].
    now rewrite Hg, Hf. }
  assert (Hflagged : forall a, In a (b :: rest) -> flagged marked a)
    by (apply (Hflag d); assumption).
  apply (@chain_in_forest st (ids forest) (fun a => passes dom s2 a = true) Hlisted)
    with (d := d) (root := root); auto.
  - intros p c Hp [node [Hg Hc]] Hpc. apply (Hclosed p Hp c); [|exact Hpc].
    pose proof (@flagsExtend_get _ _ p Hext) as Hget. rewrite Hg in Hget.
    destruct Hget as [node' [Hg' [Heq _]]]. exists node'. split; [exact Hg'|].
    rewrite Heq. exact Hc.
  - apply Hin. apply Hpass. apply Hflagged. rewrite <- Hlast.
    apply last_In. discriminate.
Qed.

(** Two objects with the same distinct keys in the same order and the same
    lookups are the same object. *)
Lemma obj_ext {V} (o o' : JS.obj V) :
  JS.keys o' = JS.keys o -> NoDup (JS.keys o) ->
  (forall k, JS.get o' k = JS.get o k) -> o' = o.
Proof.
  revert o'. induction o as [|[k v] o IH]; intros [|[k' v'] o'] Hk Hnd Hg;
    try discriminate; [reflexivity|].
  unfold JS.keys in Hk, Hnd. cbn [map fst] in Hk, Hnd.
  injection Hk as Hkk Hrest. subst k'.
  inversion Hnd as [|? ? Hnotin Hnd']; subst.
  pose proof (Hg k) as Hgk. cbn [JS.get] in Hgk. rewrite String.eqb_refl in Hgk.
  injection Hgk as Hv. subst v'. f_equal. apply IH; auto.
  intros k0. specialize (Hg k0). cbn [JS.get] in Hg.
  destruct (String.eqb k k0) eqn:E; [|exact Hg].
  apply String.eqb_eq in E. subst k0.
  assert (Ho : JS.get o k = None) by (apply get_None_not_In; exact Hnotin).
  assert (Ho' : JS.get o' k = None).
  { apply get_None_not_In. unfold JS.keys. rewrite Hrest. exact Hnotin. }
  congruence.
Qed.

(** The current render pass, on an acyclic parent map, with a render root
    that resolves in the node map, distinct keys and no flag left over,
    returns and puts the node map back as it found it; the parent map, the
    root id and the mode are not touched; the stats cache is the one thing
    it replaces. *)
Theorem render_pass_restores_node_map :
  forall (n fuel : nat) (dom : Filters) (srv : Server) (rootOverrideId : option string)
         (st : State) (root : string),
    parentsWellFounded n st ->
    n < fuel ->
    List.length (nodeMap st) < fuel ->
    chooseRoot rootOverrideId st = Some root ->
    JS.truthy root = true ->
    isSome (JS.get (nodeMap st) root) = true ->
    NoDup (JS.keys (nodeMap st)) ->
    (forall k node, JS.get (nodeMap st) k = Some node -> _forceVisible node = false) ->
    exists st',
      loadAndRenderVisuals fuel dom srv rootOverrideId st = Some (tt, st')
      /\ nodeMap st' = nodeMap st
      /\ parentMap st' = parentMap st
      /\ stableRootId st' = stableRootId st
      /\ singleNodeMode st' = singleNodeMode st
      /\ nodeStats st' = fetchedStats srv.
Proof.
  intros n fuel dom srv rootOverrideId st root Hwf Hn Hlen Hroot Htruthy Hres Hnd Hclean.
  destruct (@loadAndRenderVisuals_run n fuel dom srv rootOverrideId st root
              Hwf Hn Hlen Hroot Htruthy Hres)
    as [marked [forest [cleared [Hrun [Hext [_ [_ [Hk Hg]]]]]]]].
  cbn zeta in Hrun. eexists. split; [exact Hrun|].
  assert (Hsame : cleared = nodeMap st).
  { apply obj_ext; [|exact Hnd|].
    - rewrite Hk. apply flagsExtend_keys. exact Hext.
    - intros k. rewrite Hg. pose proof (@flagsExtend_get _ _ k Hext) as Hget.
      destruct (JS.get (nodeMap st) k) as [node|] eqn:E.
      + destruct Hget as [node' [-> [Heq _]]]. cbn [option_map]. f_equal.
        rewrite Heq. pose proof (Hclean k node E) as Hf.
        destruct node. cbn in *. now subst.
      + now rewrite Hget. }
  unfold finalFocus. destruct (JS.truthyOpt _); cbn; auto.
Qed.

Lemma render_pass_restores_node_map_witness :
  let node id st cs := mkNode id id "" st (Some cs) None false in
  let st := mkState [("r", node "r" "New" ["b"; "a"]); ("a", node "a" "New" []);
                     ("b", node "b" "Completed" [])]
                    [("b", "r"); ("a", "r")] [("a", mkStats 1 0)] (Some "r") None true []
                    false VInitial [] 0 in
  let dom := mkFilters (Some "all") (Some "Completed") in
  let srv := mkServer (Rejected "offline") (Some []) (Resolved tt) (Resolved tt) in
  exists st',
    loadAndRenderVisuals 4 dom srv None st = Some (tt, st')
    /\ nodeMap st' = nodeMap st
    /\ parentMap st' = parentMap st
    /\ stableRootId st' = stableRootId st
    /\ singleNodeMode st' = singleNodeMode st
    /\ nodeStats st' = fetchedStats srv.
Proof.
  intros node st dom srv.
  apply (@render_pass_restores_node_map 1 4 dom srv None st "r").
  - intros id. unfold hopsBounded, st. cbn [parentMap JS.get].
    destruct (String.eqb "b" id); [reflexivity|].
    destruct (String.eqb "a" id); reflexivity.
  - lia.
  - simpl. lia.
  - reflexivity.
  - reflexivity.
  - reflexivity.
  - repeat constructor; simpl; intuition discriminate.
  - intros k nd H. unfold st in H. cbn [nodeMap JS.get] in H.
    destruct (String.eqb "r" k); [now inversion H|].
    destruct (String.eqb "a" k); [now inversion H|].
    destruct (String.eqb "b" k); [now inversion H | discriminate].
Defined.

Lemma ancestors_preserved_by_render_pass_witness :
  let node id st cs := mkNode id id "" st (Some cs) None false in
  let st := mkState [("r", node "r" "New" ["m"]); ("m", node "m" "New" ["d"]);
                     ("d", node "d" "Completed" [])]
                    [("m", "r"); ("d", "m")] [] (Some "r") None true []
                    false VInitial [] 0 in
  let dom := mkFilters (Some "all") (Some "Completed") in
  let srv := mkServer (Rejected "offline") (Some []) (Resolved tt) (Resolved tt) in
  exists st' forest,
    loadAndRenderVisuals 4 dom srv None st = Some (tt, st')
    /\ view st' = VTree forest
    /\ forall a, In a ["m"; "r"] -> In a (ids forest).
Proof.
  intros node st dom srv.
  apply (@ancestors_preserved_by_render_pass 2 4 dom srv None st "r" "d" ["m"; "r"]).
  - intros id. unfold hopsBounded, st. cbn [parentMap JS.get].
    destruct (String.eqb "m" id); [reflexivity|].
    destruct (String.eqb "d" id); reflexivity.
  - intros c p Hp Hres. unfold st in Hp. cbn [parentMap JS.get] in Hp.
    destruct (String.eqb "m" c) eqn:Em.
    + apply String.eqb_eq in Em. subst c. inversion Hp; subst p.
      exists (node "r" "New" ["m"]). split; [reflexivity | now left].
    + destruct (String.eqb "d" c) eqn:Ed; [|discriminate].
      apply String.eqb_eq in Ed. subst c. inversion Hp; subst p.
      exists (node "m" "New" ["d"]). split; [reflexivity | now left].
  - reflexivity.
  - lia.
  - simpl. lia.
  - reflexivity.
  - reflexivity.
  - reflexivity.
  - reflexivity.
  - simpl. repeat split; reflexivity.
  - reflexivity.
Defined.

(** ** Instances of the supporting properties *)

Lemma fetchWithRetry_alone_witness :
  let op' := fst (Retry.fetchWithRetry [Retry.Fails; Retry.Fails; Retry.Succeeds] Retry.freshOp 0) in
  exists k,
    Retry.retries op' = k
    /\ k <= (Retry.MAX_RETRIES - 0)
            + Retry.MAX_RETRIES
              * Retry.badBodies [Retry.Fails; Retry.Fails; Retry.Succeeds]
    /\ (Retry.badBodies [Retry.Fails; Retry.Fails; Retry.Succeeds] = 0 ->
        Retry.delays op' = map (fun j => Nat.pow 2 (S j) * 100) (seq 0 k))
    /\ Retry.fatalMessages op' <= 1
    /\ (Retry.opStatus op' = Retry.Rethrown ->
          Retry.fatalMessages op' = 1 /\ Retry.redirects op' = 1).
Proof.
  exact (@fetchWithRetry_alone [Retry.Fails; Retry.Fails; Retry.Succeeds] Retry.freshOp 0 eq_refl).
Defined.

Lemma findFirstMatch_first_witness :
  let node id nm fid := mkNode id nm "" "New" (Some []) (Some fid) false in
  let nm := [("n1", node "n1" "Beta" "01"); ("n2", node "n2" "Alpha" "02");
             ("n3", node "n3" "Alpine" "03")] in
  exists before after node,
    JS.ownKeys nm = before ++ "n2" :: after
    /\ JS.get nm "n2" = Some node /\ matchesSearch "al" "" node = true
    /\ forall k n, In k before -> JS.get nm k = Some n -> matchesSearch "al" "" n = false.
Proof.
  intros node nm.
  exact (@findFirstMatch_first "al" "" nm "n2" eq_refl).
Defined.

Lemma one_character_name_query_is_ignored_witness :
  let node id st cs := mkNode id id "" st (Some cs) None false in
  let st := mkState [("r", node "r" "New" ["a"]); ("a", node "a" "New" [])]
                    [("a", "r")] [] (Some "r") None true []
                    false VInitial [] 0 in
  let dom := mkFilters (Some "all") (Some "all") in
  let srv := mkServer (Rejected "offline") (Some []) (Resolved tt) (Resolved tt) in
  applyFilters 4 dom srv (Some " A ") (Some "") st
  = applyFilters 4 dom srv (Some "") (Some "") st.
Proof.
  intros node st dom srv.
  exact (@one_character_name_query_is_ignored 4 dom srv (Some " A ") eq_refl st).
Defined.

(** ** The level colours *)

Lemma ofNat_inj a b : JS.ofNat a = JS.ofNat b -> a = b.
Proof.
  unfold JS.ofNat. intros H.
  apply (f_equal NilEmpty.uint_of_string) in H.
  rewrite !NilEmpty.usu in H. injection H as H.
  now apply Unsigned.to_uint_inj.
Qed.

Lemma length_append (x y : string) :
  String.length (x ++ y)%string = String.length x + String.length y.
Proof. induction x as [|c x IH]; cbn; [reflexivity | now rewrite IH]. Qed.

Lemma append_cancel_r (t x y : string) : (x ++ t = y ++ t)%string -> x = y.
Proof.
  intros H.
  assert (Hlen : String.length x = String.length y).
  { apply (f_equal String.length) in H. rewrite !length_append in H. lia. }
  revert y H Hlen. induction x as [|c x IH]; intros [|d y] H Hlen; cbn in *; try lia.
  - reflexivity.
  - injection H as -> H. f_equal. apply IH; [exact H | lia].
Qed.

Lemma levelHue_mod level : levelHue level = levelHue (level mod 120).
Proof.
  unfold levelHue.
  rewrite (Nat.div_mod_eq level 120) at 1.
  replace ((120 * (level / 120) + level mod 120) * 57 + 137)
    with ((level mod 120) * 57 + 137 + (19 * (level / 120)) * 360) by lia.
  now rewrite Nat.Div0.mod_add.
Qed.

Lemma levelHue_separates x y :
  x < 120 -> y < 120 -> levelHue x = levelHue y -> x = y.
Proof.
  intros Hx Hy H.
  assert (Hall : forallb (fun a => forallb (fun b =>
                   implb (Nat.eqb (levelHue a) (levelHue b)) (Nat.eqb a b)) (seq 0 120))
                   (seq 0 120) = true) by (vm_compute; reflexivity).
  rewrite forallb_forall in Hall.
  specialize (Hall x (proj2 (in_seq _ _ _) (conj (Nat.le_0_l _) Hx))).
  rewrite forallb_forall in Hall.
  specialize (Hall y (proj2 (in_seq _ _ _) (conj (Nat.le_0_l _) Hy))).
  rewrite H, Nat.eqb_refl in Hall. cbn in Hall. now apply Nat.eqb_eq.
Qed.

(** Two nesting levels get the same connector colour exactly when they differ
    by a multiple of 120: levels less than 120 apart are told apart. *)
Theorem getLevelColor_eq_iff :
  forall a b : nat, getLevelColor a = getLevelColor b <-> a mod 120 = b mod 120.
Proof.
  intros a b. split.
  - unfold getLevelColor. intros H.
    cbn [String.append] in H.
    repeat (injection H as H).
    apply append_cancel_r, ofNat_inj in H.
    rewrite (levelHue_mod a), (levelHue_mod b) in H.
    apply levelHue_separates in H; auto using Nat.mod_upper_bound.
  - intros H. unfold getLevelColor. now rewrite (levelHue_mod a), (levelHue_mod b), H.
Qed.

(** ** The breadcrumb and its tree layout *)

Lemma append_assoc (x y z : string) : ((x ++ y) ++ z = x ++ (y ++ z))%string.
Proof. induction x as [|c x IH]; cbn; [reflexivity | now rewrite IH]. Qed.

Lemma append_empty_r (x : string) : (x ++ "")%string = x.
Proof. induction x as [|c x IH]; cbn; [reflexivity | now rewrite IH]. Qed.

Lemma includes_char c s : JS.includes s (String c EmptyString) = hasChar c s.
Proof.
  induction s as [|x s IH]; [reflexivity|].
  cbn [JS.includes hasChar String.prefix]. rewrite IH.
  destruct (ascii_dec c x) as [->|Hne].
  - rewrite Ascii.eqb_refl. now destruct s.
  - destruct (Ascii.eqb x c) eqn:E; [apply Ascii.eqb_eq in E; congruence | reflexivity].
Qed.

Lemma hasChar_append c x y : hasChar c (x ++ y)%string = hasChar c x || hasChar c y.
Proof.
  induction x as [|a x IH]; cbn [String.append hasChar]; [reflexivity|].
  now rewrite IH, orb_assoc.
Qed.

Lemma splitOn_nonempty c s : splitOn c s <> [].
Proof.
  induction s as [|x s IH]; cbn [splitOn]; [discriminate|].
  destruct (Ascii.eqb x c); [discriminate|]. now destruct (splitOn c s).
Qed.

Lemma splitOn_no_sep c s : hasChar c s = false -> splitOn c s = [s].
Proof.
  induction s as [|x s IH]; cbn [splitOn hasChar]; [reflexivity|].
  intros H. apply orb_false_iff in H as [Hx Hs]. now rewrite Hx, (IH Hs).
Qed.

Lemma splitOn_append c a b :
  hasChar c a = false -> splitOn c (a ++ String c b)%string = a :: splitOn c b.
Proof.
  induction a as [|x a IH]; cbn [splitOn hasChar String.append]; intros H.
  - now rewrite Ascii.eqb_refl.
  - apply orb_false_iff in H as [Hx Ha]. now rewrite Hx, (IH Ha).
Qed.

Lemma trimEnd_space s : JS.trimEnd (s ++ " ")%string = JS.trimEnd s.
Proof.
  induction s as [|c s IH]; [reflexivity|].
  cbn [String.append JS.trimEnd]. now rewrite IH.
Qed.

Lemma trim_space_r s : JS.trim (s ++ " ")%string = JS.trim s.
Proof.
  unfold JS.trim. induction s as [|c s IH]; [reflexivity|].
  cbn [String.append JS.trimStart]. destruct (JS.isSpace c); [exact IH|].
  apply (trimEnd_space (String c s)).
Qed.

Lemma trim_space_l s : JS.trim (String " " s) = JS.trim s.
Proof. reflexivity. Qed.

Lemma concat_cons sep x y l :
  String.concat sep (x :: y :: l) = (x ++ sep ++ String.concat sep (y :: l))%string.
Proof. reflexivity. Qed.

Lemma split_join_trimmed names :
  names <> [] ->
  Forall (fun n => hasChar ">" n = false) names ->
  map JS.trim (splitOn ">" (JS.join " > " names)) = map JS.trim names.
Proof.
  unfold JS.join. induction names as [|n rest IH]; [congruence|]. intros _ Hall.
  inversion Hall as [|? ? Hn Hrest]; subst.
  destruct rest as [|m rest].
  - cbn [String.concat]. now rewrite splitOn_no_sep.
  - rewrite concat_cons.
    change (n ++ " > " ++ String.concat " > " (m :: rest))%string
      with (n ++ String " " (String ">" (String " " (String.concat " > " (m :: rest)))))%string.
    replace (n ++ String " " (String ">" (String " " (String.concat " > " (m :: rest)))))%string
      with ((n ++ " ") ++ String ">" (String " " (String.concat " > " (m :: rest))))%string
      by (now rewrite append_assoc).
    rewrite splitOn_append by (rewrite hasChar_append, Hn; reflexivity).
    cbn [map]. rewrite trim_space_r. f_equal.
    specialize (IH ltac:(discriminate) Hrest).
    cbn [splitOn]. change (Ascii.eqb " " ">") with false. cbn iota.
    destruct (splitOn ">" (String.concat " > " (m :: rest))) as [|h t] eqn:E;
      [now apply splitOn_nonempty in E|].
    cbn [map] in IH |- *. rewrite trim_space_l. exact IH.
Qed.

(** Splitting a breadcrumb on '>' gives back the names it was joined from,
    trimmed and without the blank ones, whenever no name contains '>': the
    tree text of a breadcrumb is laid out from exactly these names. *)
Theorem formatTreePath_of_breadcrumb :
  forall names : list string,
    Forall (fun n => JS.includes n ">" = false) names ->
    pathParts (JS.join " > " names) = filter JS.truthy (map JS.trim names)
    /\ formatTreePath (JS.join " > " names) = treeText (filter JS.truthy (map JS.trim names)).
Proof.
  intros names Hall.
  assert (Hparts : pathParts (JS.join " > " names) = filter JS.truthy (map JS.trim names)).
  { unfold pathParts. destruct names as [|n rest]; [reflexivity|].
    rewrite split_join_trimmed; [reflexivity | discriminate |].
    eapply Forall_impl; [|exact Hall]. cbn beta. intros a Ha. now rewrite <- includes_char. }
  split; [exact Hparts|]. unfold formatTreePath. now rewrite Hparts.
Qed.

Lemma formatTreePath_of_breadcrumb_witness :
  pathParts (JS.join " > " ["Home"; " Our services "; "  "; "Pricing"])
  = ["Home"; "Our services"; "Pricing"]
  /\ formatTreePath (JS.join " > " ["Home"; " Our services "; "  "; "Pricing"])
     = treeText ["Home"; "Our services"; "Pricing"].
Proof.
  apply (@formatTreePath_of_breadcrumb ["Home"; " Our services "; "  "; "Pricing"]).
  repeat constructor.
Defined.

Lemma last_cons {A} (a : A) (rest : list A) (d : A) : last (a :: rest) d = last rest a.
Proof.
  revert a d. induction rest as [|b rest IH]; intros a d; [reflexivity|].
  change (last (a :: b :: rest) d) with (last (b :: rest) d).
  now rewrite (IH b d), (IH b a).
Qed.

Lemma breadcrumbLoop_chain st chain :
  forall d guard names fuel,
    JS.truthy d = true ->
    isSome (JS.get (nodeMap st) d) = true ->
    ancestorChain st d chain ->
    (forall p, JS.get (parentMap st) (last chain d) = Some p -> JS.truthy p = true ->
               JS.get (nodeMap st) p = None) ->
    guard + List.length chain < BREADCRUMB_GUARD ->
    S (List.length chain) < fuel ->
    exists hops,
      breadcrumbLoop fuel st d guard names
      = Some (names ++ map (nameAt st) (d :: chain), hops).
Proof.
  induction chain as [|a rest IH]; intros d guard names fuel Hd Hres Hchain Htop Hguard Hfuel.
  - destruct fuel as [|[|fuel]]; cbn [List.length] in *; try lia.
    cbn [breadcrumbLoop map]. unfold nameAt.
    destruct (JS.get (nodeMap st) d) as [node|]; [|discriminate].
    rewrite Hd. cbn [andb].
    destruct (Nat.ltb_spec guard BREADCRUMB_GUARD) as [_|Hge]; [|lia].
    cbn [last] in Htop.
    destruct (JS.get (parentMap st) d) as [p|] eqn:Hp; cbn [JS.truthyOpt];
      [|eexists; reflexivity].
    destruct (JS.truthy p) eqn:Htp; [|eexists; reflexivity].
    rewrite (Htop p eq_refl Htp). eexists; reflexivity.
  - destruct fuel as [|fuel]; cbn [List.length] in *; try lia.
    cbn [ancestorChain] in Hchain. destruct Hchain as [Hp [Hta [Hra Hrest]]].
    cbn [breadcrumbLoop]. unfold nameAt at 1. cbn [map].
    destruct (JS.get (nodeMap st) d) as [node|] eqn:Hnode; [|discriminate].
    rewrite Hd. cbn [andb].
    destruct (Nat.ltb_spec guard BREADCRUMB_GUARD) as [_|Hge]; [|lia].
    rewrite Hp. cbn [JS.truthyOpt]. rewrite Hta.
    rewrite last_cons in Htop.
    destruct (IH a (S guard) (names ++ [name node]) fuel Hta Hra Hrest Htop
                ltac:(lia) ltac:(lia)) as [hops Hrun].
    exists hops. rewrite Hrun. now rewrite <- app_assoc.
Qed.

(** On a parent chain of fewer than 1000 ancestors that ends at a node with
    no stored parent, the breadcrumb is the names along the chain, root
    first, joined by " > ". *)
Theorem breadcrumb_follows_parent_chain :
  forall (st : State) (d : string) (chain : list string) (fuel : nat),
    JS.truthy d = true ->
    isSome (JS.get (nodeMap st) d) = true ->
    ancestorChain st d chain ->
    (forall p, JS.get (parentMap st) (last chain d) = Some p -> JS.truthy p = true ->
               JS.get (nodeMap st) p = None) ->
    List.length chain < BREADCRUMB_GUARD ->
    BREADCRUMB_GUARD < fuel ->
    getBreadcrumbPath fuel st d
    = Some (JS.join " > " (rev (map (nameAt st) (d :: chain)))).
Proof.
  intros st d chain fuel Hd Hres Hchain Htop Hlen Hfuel.
  destruct (@breadcrumbLoop_chain st chain d 0 [] fuel Hd Hres Hchain Htop
              ltac:(lia) ltac:(unfold BREADCRUMB_GUARD in *; lia)) as [hops Hrun].
  unfold getBreadcrumbPath. now rewrite Hrun.
Qed.

Lemma breadcrumb_follows_parent_chain_witness :
  let node id nm := mkNode id nm "" "New" (Some []) None false in
  let st := mkState [("r", node "r" "Home"); ("m", node "m" "Docs"); ("d", node "d" "API")]
                    [("m", "r"); ("d", "m")] [] (Some "r") None true [] false VInitial [] 0 in
  getBreadcrumbPath 1001 st "d" = Some "Home > Docs > API".
Proof.
  intros node st.
  apply (@breadcrumb_follows_parent_chain st "d" ["m"; "r"] 1001).
  - reflexivity.
  - reflexivity.
  - cbn. repeat split; reflexivity.
  - cbn. intros p H. discriminate.
  - unfold BREADCRUMB_GUARD. cbn. lia.
  - unfold BREADCRUMB_GUARD. lia.
Defined.

(** ** The subtree listing *)

Lemma subtreeLoop_no_child recur nm prefix cs :
  forallb (fun c => negb (isSome (JS.get nm c))) cs = true ->
  subtreeLoop recur nm prefix cs = Some [].
Proof.
  induction cs as [|c cs IH]; cbn [forallb subtreeLoop]; [reflexivity|].
  intros H. apply andb_true_iff in H as [Hc Hcs].
  destruct (JS.get nm c); [discriminate | auto].
Qed.

Lemma subtreeLoop_prefix (call : string -> string -> option (list string)) nm cs :
  (forall c, In c cs -> isSome (JS.get nm c) = true ->
             exists ls, forall prefix, call c prefix = Some (map (String.append prefix) ls)) ->
  exists ls, forall prefix,
    subtreeLoop (fun c => call c (prefix ++ levelIndent)%string) nm prefix cs
    = Some (map (String.append prefix) ls).
Proof.
  induction cs as [|c cs IH]; intros Hcall.
  - exists []. reflexivity.
  - destruct IH as [more Hmore]; [intros; apply Hcall; [now right | assumption]|].
    cbn [subtreeLoop]. destruct (JS.get nm c) as [child|] eqn:Hc.
    + destruct (Hcall c (or_introl eq_refl)) as [sub Hsub]; [now rewrite Hc|].
      exists ("|" :: (branchMark ++ name child)%string
                :: map (String.append levelIndent) sub ++ more).
      intros prefix. rewrite Hsub, Hmore. cbn [map]. rewrite map_app, map_map.
      do 3 f_equal. f_equal. apply map_ext. intros x. apply append_assoc.
    + exists more. exact Hmore.
Qed.

(** On a store whose stored descendants of [nodeId] lie at most [n] levels
    deep the listing returns, and the prefix is only put in front of every
    line: the lines for a prefix are those for the empty prefix, each behind
    the prefix. *)
Theorem buildSubtreeLines_prefix :
  forall (n fuel : nat) (st : State) (nodeId : string),
    heightBounded n (nodeMap st) nodeId = true ->
    n < fuel ->
    exists lines,
      buildSubtreeLines fuel st nodeId "" = Some lines
      /\ forall prefix, buildSubtreeLines fuel st nodeId prefix
                        = Some (map (String.append prefix) lines).
Proof.
  intros n fuel st nodeId Hh Hfuel.
  enough (exists lines, forall prefix, buildSubtreeLines fuel st nodeId prefix
                                       = Some (map (String.append prefix) lines))
    as [lines H].
  { exists lines. split; [|exact H]. rewrite (H ""). f_equal.
    rewrite <- (map_id lines) at 2. now apply map_ext. }
  revert fuel nodeId Hh Hfuel.
  induction n as [|n IH]; intros [|fuel] nodeId Hh Hfuel; try lia;
    cbn [buildSubtreeLines]; cbn [heightBounded] in Hh.
  - destruct (JS.get (nodeMap st) nodeId) as [node|]; [|exists []; reflexivity].
    unfold childrenOrEmpty in Hh.
    destruct (children node) as [cs|]; [|exists []; reflexivity].
    exists []. intros prefix. now apply subtreeLoop_no_child.
  - destruct (JS.get (nodeMap st) nodeId) as [node|] eqn:Hnode.
    2:{ exists []. reflexivity. }
    assert (Hkids : forallb (heightBounded n (nodeMap st)) (childrenOrEmpty node) = true).
    { destruct n; exact Hh. }
    unfold childrenOrEmpty in Hkids.
    destruct (children node) as [cs|]; [|exists []; reflexivity].
    apply (@subtreeLoop_prefix (fun c p => buildSubtreeLines fuel st c p) (nodeMap st) cs).
    intros c Hin _. apply IH; [|lia].
    rewrite forallb_forall in Hkids. now apply Hkids.
Qed.

Lemma buildSubtreeLines_prefix_witness :
  let node id nm cs := mkNode id nm "" "New" cs None false in
  let st := mkState [("r", node "r" "Home" (Some ["a"; "ghost"; "b"]));
                     ("a", node "a" "Docs" (Some ["c"]));
                     ("b", node "b" "Blog" None); ("c", node "c" "API" (Some []))]
                    [] [] (Some "r") None true [] false VInitial [] 0 in
  exists lines,
    buildSubtreeLines 3 st "r" "" = Some lines
    /\ forall prefix, buildSubtreeLines 3 st "r" prefix
                      = Some (map (String.append prefix) lines).
Proof.
  intros node st.
  apply (@buildSubtreeLines_prefix 2 3 st "r"); [reflexivity | lia].
Defined.

(** ** What a render pass draws *)

Lemma visiblyReachable_passes dom st root n :
  visiblyReachable dom st root n -> passes dom st root = true.
Proof. induction 1; assumption. Qed.

Lemma visiblyReachable_trans dom st root p n :
  visiblyReachable dom st root p -> visiblyReachable dom st p n ->
  visiblyReachable dom st root n.
Proof.
  intros Hp Hn. induction Hn as [|q c Hq IH Hchild Hc]; [exact Hp|].
  eapply vr_child; eauto.
Qed.

Lemma passes_rendered dom st r nodeId :
  passes dom (setRenderedNodes r st) nodeId = passes dom st nodeId.
Proof. reflexivity. Qed.

Lemma mapRender_sound st0 (P : string -> string -> Prop)
      (call : string -> M (list RTree)) :
  (forall c r out st', call c (setRenderedNodes r st0) = Some (out, st') ->
                       st' = setRenderedNodes (r ++ ids out) st0) ->
  (forall c r out st', call c (setRenderedNodes r st0) = Some (out, st') ->
                       forall y, In y (ids out) -> P c y) ->
  forall cs r out st',
    mapRender call cs (setRenderedNodes r st0) = Some (out, st') ->
    forall y, In y (ids out) -> exists c, In c cs /\ P c y.
Proof.
  intros Hspec Hcall. induction cs as [|c cs IH]; intros r out st' H y Hy;
    cbn [mapRender] in H; run_m.
  - inversion H; subst. destruct Hy.
  - destruct (call c (setRenderedNodes r st0)) as [[h s1]|] eqn:Hc; [|discriminate].
    pose proof (Hspec _ _ _ _ Hc) as Hs1. subst s1.
    destruct (mapRender call cs (setRenderedNodes (r ++ ids h) st0)) as [[t s2]|] eqn:Ht;
      [|discriminate].
    inversion H; subst. rewrite ids_app in Hy. apply in_app_or in Hy as [Hy|Hy].
    + exists c. split; [now left | eapply Hcall; eassumption].
    + destruct (IH _ _ _ Ht y Hy) as [c' [Hin Hp]]. exists c'. split; [now right | exact Hp].
Qed.

Lemma renderNode_sound dom st0 fuel :
  forall nodeId level r out st',
    renderNode fuel dom nodeId level (setRenderedNodes r st0) = Some (out, st') ->
    forall y, In y (ids out) -> visiblyReachable dom st0 nodeId y.
Proof.
  induction fuel as [|fuel IH]; intros nodeId level r out st' H y Hy;
    cbn [renderNode] in H; [discriminate|].
  cbn [nodeMap renderedNodes singleNodeMode setRenderedNodes] in H.
  destruct (JS.get (nodeMap st0) nodeId) as [node|] eqn:Hnode;
    [|run_m; inversion H; subst; destruct Hy].
  destruct (negb (_forceVisible node) && negb (isNodeVisible dom (setRenderedNodes r st0) nodeId))
    eqn:Hvis; [run_m; inversion H; subst; destruct Hy|].
  assert (Hpass : passes dom st0 nodeId = true).
  { unfold passes. rewrite Hnode.
    change (isNodeVisible dom (setRenderedNodes r st0) nodeId)
      with (isNodeVisible dom st0 nodeId) in Hvis.
    destruct (_forceVisible node); [reflexivity|].
    destruct (isNodeVisible dom st0 nodeId); [reflexivity | discriminate]. }
  destruct (JS.has r nodeId); [run_m; inversion H; subst; destruct Hy|].
  run_m. cbn [renderedNodes setRenderedNodes] in H.
  change (setRenderedNodes (r ++ [nodeId]) (setRenderedNodes r st0))
    with (setRenderedNodes (r ++ [nodeId]) st0) in H.
  destruct (negb (Nat.eqb (List.length (JS.sort (childrenOrEmpty node))) 0)
            && negb (singleNodeMode st0 && Nat.eqb level 0)).
  - destruct (mapRender _ _ _) as [[kids s1]|] eqn:Hk; [|discriminate].
    inversion H; subst. cbn [ids flat_map idsOf] in Hy. fold (ids kids) in Hy.
    rewrite app_nil_r in Hy. destruct Hy as [<-|Hy]; [now apply vr_root|].
    destruct (@mapRender_sound st0 (visiblyReachable dom st0)
                (fun childId => renderNode fuel dom childId (S level))
                (fun c r0 out0 s0 Hc => @renderNode_spec dom st0 fuel c (S level) r0 out0 s0 Hc)
                (fun c r0 out0 s0 Hc => IH c (S level) r0 out0 s0 Hc)
                _ _ _ _ Hk y Hy) as [c [Hin Hreach]].
    apply visiblyReachable_trans with (p := c); [|exact Hreach].
    apply vr_child with (p := nodeId).
    + now apply vr_root.
    + exists node. split; [exact Hnode | now apply In_sort].
    + eapply visiblyReachable_passes; eassumption.
  - inversion H; subst. cbn [ids flat_map idsOf app] in Hy.
    destruct Hy as [<-|[]]. now apply vr_root.
Qed.

(** A render from [root] with an empty visited set returns on every store,
    cyclic children lists included, and draws each node that can be reached
    from the root through children lists along nodes that are not filtered
    out exactly once, and no other node. *)
Theorem render_draws_exactly_reachable :
  forall (fuel : nat) (dom : Filters) (st : State) (root : string),
    singleNodeMode st = false ->
    List.length (nodeMap st) < fuel ->
    exists forest st',
      renderNode fuel dom root 0 (setRenderedNodes [] st) = Some (forest, st')
      /\ NoDup (ids forest)
      /\ forall n, In n (ids forest) <-> visiblyReachable dom st root n.
Proof.
  intros fuel dom st root Hmode Hfuel.
  destruct (@renderNode_total dom st fuel root 0 []) as [forest [st' Hrun]].
  { eapply Nat.le_lt_trans; [apply unrendered_le_length|].
    unfold JS.keys. now rewrite length_map. }
  exists forest, st'. split; [exact Hrun|]. split.
  - apply (@renderNode_NoDup dom st fuel root 0 [] forest st' (NoDup_nil _) Hrun).
  - intros n. split.
    + eapply renderNode_sound; eassumption.
    + eapply visiblyReachable_rendered; eassumption.
Qed.

Lemma render_draws_exactly_reachable_witness :
  let node id st cs := mkNode id id "" st (Some cs) None false in
  let st := mkState [("r", node "r" "New" ["a"; "b"; "ghost"]); ("a", node "a" "New" ["r"; "c"]);
                     ("b", node "b" "Completed" ["c"]); ("c", node "c" "New" [])]
                    [] [] (Some "r") None true [] false VInitial [] 0 in
  let dom := mkFilters (Some "all") (Some "New") in
  exists forest st',
    renderNode 5 dom "r" 0 (setRenderedNodes [] st) = Some (forest, st')
    /\ NoDup (ids forest)
    /\ forall n, In n (ids forest) <-> visiblyReachable dom st "r" n.
Proof.
  intros node st dom.
  apply (@render_draws_exactly_reachable 5 dom st "r"); [reflexivity | cbn; lia].
Defined.

(** ** Order and levels of the drawn cards *)

Lemma compare_trans_le a : forall b c,
  String.compare a b <> Gt -> String.compare b c <> Gt -> String.compare a c <> Gt.
Proof.
  induction a as [|x a IH]; intros [|y b] [|z c]; cbn [String.compare]; try congruence.
  unfold Ascii.compare.
  destruct (N.compare_spec (N_of_ascii x) (N_of_ascii y)) as [Exy|Lxy|Gxy];
    destruct (N.compare_spec (N_of_ascii y) (N_of_ascii z)) as [Eyz|Lyz|Gyz];
    try congruence; intros H1 H2.
  - rewrite Exy, Eyz, N.compare_refl. now apply IH with (b := b).
  - rewrite Exy. now rewrite (proj2 (N.compare_lt_iff _ _) Lyz).
  - rewrite <- Eyz. now rewrite (proj2 (N.compare_lt_iff _ _) Lxy).
  - now rewrite (proj2 (N.compare_lt_iff _ _) (N.lt_trans _ _ _ Lxy Lyz)).
Qed.

Lemma idLe_trans a b c : idLe a b -> idLe b c -> idLe a c.
Proof.
  unfold idLe, String.leb. intros H1 H2.
  pose proof (@compare_trans_le a b c) as H.
  destruct (String.compare a b); try discriminate;
    destruct (String.compare b c); try discriminate;
    destruct (String.compare a c); try reflexivity; exfalso; apply H; congruence.
Qed.

Lemma idLe_total a b : idLe a b \/ idLe b a.
Proof. apply String.leb_total. Qed.

Lemma insertSorted_ascending x l : ascending l -> ascending (JS.insertSorted x l).
Proof.
  induction l as [|h t IH]; cbn [JS.insertSorted ascending]; [auto|].
  intros [Hh Ht]. destruct (String.leb x h) eqn:E.
  - cbn [ascending]. repeat split; auto. constructor; [exact E|].
    eapply Forall_impl; [|exact Hh]. intros a Ha. eapply idLe_trans; eassumption.
  - cbn [ascending]. split; [|auto].
    apply Forall_forall. intros a Ha. apply In_insertSorted in Ha as [->|Ha].
    + destruct (idLe_total x h) as [H|H]; [unfold idLe in H; congruence | exact H].
    + rewrite Forall_forall in Hh. now apply Hh.
Qed.

Lemma sort_ascending l : ascending (JS.sort l).
Proof.
  unfold JS.sort. induction l as [|x l IH]; cbn [fold_right]; [exact I|].
  now apply insertSorted_ascending.
Qed.

Lemma each_laidOut level kids :
  Forall (fun k => levelOf k = S level /\ laidOut k) kids ->
  (fix each (l : list RTree) : Prop :=
     match l with
     | [] => True
     | k :: rest => levelOf k = S level /\ laidOut k /\ each rest
     end) kids.
Proof. induction 1 as [|k rest [H1 H2] _ IH]; [exact I | auto]. Qed.

Lemma mapRender_laidOut (L : nat) (call : string -> M (list RTree)) :
  (forall c s out s', call c s = Some (out, s') ->
                      out = [] \/ exists kids, out = [RNode c L kids] /\ laidOut (RNode c L kids)) ->
  forall cs s out s',
    mapRender call cs s = Some (out, s') ->
    Forall (fun k => levelOf k = L /\ laidOut k) out
    /\ (forall x, In x (map rootId out) -> In x cs)
    /\ (ascending cs -> ascending (map rootId out)).
Proof.
  intros Hcall. induction cs as [|c cs IH]; intros s out s' H; cbn [mapRender] in H; run_m.
  - inversion H; subst. split; [constructor|]. split; [intros x []|]. intros _. exact I.
  - destruct (call c s) as [[h s1]|] eqn:Hc; [|discriminate].
    destruct (mapRender call cs s1) as [[t s2]|] eqn:Ht; [|discriminate].
    inversion H; subst. destruct (IH _ _ _ Ht) as [Hall [Hin Hasc]].
    destruct (Hcall _ _ _ _ Hc) as [->|[kids [-> Hlaid]]]; cbn [app map rootId].
    + split; [exact Hall|]. split; [intros x Hx; right; auto|].
      cbn [ascending]. intros [_ Hcs]. auto.
    + split; [|split].
      * constructor; auto.
      * intros x [<-|Hx]; [now left | right; auto].
      * cbn [ascending]. intros [Hc' Hcs]. split; [|auto].
        apply Forall_forall. intros x Hx. rewrite Forall_forall in Hc'. auto.
Qed.

Lemma renderNode_laidOut dom fuel :
  forall nodeId level st out st',
    renderNode fuel dom nodeId level st = Some (out, st') ->
    out = [] \/ exists kids, out = [RNode nodeId level kids] /\ laidOut (RNode nodeId level kids).
Proof.
  induction fuel as [|fuel IH]; intros nodeId level st out st' H;
    cbn [renderNode] in H; [discriminate|].
  destruct (JS.get (nodeMap st) nodeId) as [node|]; [|run_m; inversion H; auto].
  destruct (negb (_forceVisible node) && negb (isNodeVisible dom st nodeId));
    [run_m; inversion H; auto|].
  destruct (JS.has (renderedNodes st) nodeId); [run_m; inversion H; auto|].
  run_m.
  destruct (negb (Nat.eqb (List.length (JS.sort (childrenOrEmpty node))) 0)
            && negb (singleNodeMode st && Nat.eqb level 0)).
  - destruct (mapRender _ _ _) as [[kids s1]|] eqn:Hk; [|discriminate].
    inversion H; subst. right. exists kids. split; [reflexivity|].
    destruct (@mapRender_laidOut (S level)
                (fun childId => renderNode fuel dom childId (S level))
                (fun c s0 out0 s0' Hc => IH c (S level) s0 out0 s0' Hc) _ _ _ _ Hk)
      as [Hall [_ Hasc]].
    cbn [laidOut]. split; [apply Hasc, sort_ascending | now apply each_laidOut].
  - inversion H; subst. right. exists []. split; [reflexivity|]. cbn. auto.
Qed.

(** A call of [renderNode] returns on every store and emits at most one card,
    the one of the node asked for, at the level asked for; inside it every
    children container holds its cards in ascending order of their ids, each
    one level deeper than the card the container belongs to. *)
Theorem render_children_in_id_order :
  forall (fuel : nat) (dom : Filters) (st : State) (nodeId : string) (level : nat),
    List.length (nodeMap st) < fuel ->
    exists forest st',
      renderNode fuel dom nodeId level st = Some (forest, st')
      /\ (forest = []
          \/ exists kids, forest = [RNode nodeId level kids]
                          /\ laidOut (RNode nodeId level kids)).
Proof.
  intros fuel dom st nodeId level Hfuel.
  destruct (@renderNode_total dom st fuel nodeId level (renderedNodes st))
    as [forest [st' Hrun]].
  { eapply Nat.le_lt_trans; [apply unrendered_le_length|].
    unfold JS.keys. now rewrite length_map. }
  rewrite state_eta in Hrun. exists forest, st'. split; [exact Hrun|].
  eapply renderNode_laidOut; eassumption.
Qed.

Lemma render_children_in_id_order_witness :
  let node id cs := mkNode id id "" "New" (Some cs) None false in
  let st := mkState [("r", node "r" ["c"; "a"; "b"]); ("a", node "a" ["z"; "y"]);
                     ("b", node "b" []); ("c", node "c" []);
                     ("y", node "y" []); ("z", node "z" [])]
                    [] [] (Some "r") None true [] false VInitial [] 0 in
  let dom := mkFilters (Some "all") (Some "all") in
  exists forest st',
    renderNode 7 dom "r" 0 st = Some (forest, st')
    /\ (forest = []
        \/ exists kids, forest = [RNode "r" 0 kids] /\ laidOut (RNode "r" 0 kids)).
Proof.
  intros node st dom.
  apply (@render_children_in_id_order 7 dom st "r" 0). cbn. lia.
Defined.

(** ** Handlers that re-render *)

(** What a render pass leaves behind on a store with distinct keys and no
    flag set. *)
Lemma visuals_pass_frame n fuel dom srv rootOverrideId st root :
  parentsWellFounded n st ->
  n < fuel ->
  List.length (nodeMap st) < fuel ->
  chooseRoot rootOverrideId st = Some root ->
  JS.truthy root = true ->
  isSome (JS.get (nodeMap st) root) = true ->
  NoDup (JS.keys (nodeMap st)) ->
  noFlags (nodeMap st) ->
  exists st' forest,
    loadAndRenderVisuals fuel dom srv rootOverrideId st = Some (tt, st')
    /\ nodeMap st' = nodeMap st
    /\ parentMap st' = parentMap st
    /\ stableRootId st' = stableRootId st
    /\ singleNodeMode st' = singleNodeMode st
    /\ messages st' = messages st
    /\ pageReloads st' = pageReloads st
    /\ view st' = VTree forest.
Proof.
  intros Hwf Hn Hlen Hroot Htruthy Hres Hnd Hclean.
  destruct (@loadAndRenderVisuals_run n fuel dom srv rootOverrideId st root
              Hwf Hn Hlen Hroot Htruthy Hres)
    as [marked [forest [cleared [Hrun [Hext [_ [_ [Hk Hg]]]]]]]].
  cbn zeta in Hrun. eexists. exists forest. split; [exact Hrun|].
  assert (Hsame : cleared = nodeMap st).
  { apply obj_ext; [|exact Hnd|].
    - rewrite Hk. apply flagsExtend_keys. exact Hext.
    - intros k. rewrite Hg. pose proof (@flagsExtend_get _ _ k Hext) as Hget.
      destruct (JS.get (nodeMap st) k) as [node|] eqn:E.
      + destruct Hget as [node' [-> [Heq _]]]. cbn [option_map]. f_equal.
        rewrite Heq. pose proof (Hclean k node E) as Hf.
        destruct node. cbn in *. now subst.
      + now rewrite Hget. }
  unfold finalFocus. destruct (JS.truthyOpt _); cbn; auto 10.
Qed.

Lemma length_keys {V} (o : JS.obj V) : List.length (JS.keys o) = List.length o.
Proof. unfold JS.keys. apply length_map. Qed.

Lemma length_set_present {V} (o : JS.obj V) k v :
  In k (JS.keys o) -> List.length (JS.set o k v) = List.length o.
Proof.
  intros H. rewrite <- !length_keys. now rewrite keys_set_present.
Qed.

(** On a page whose parent map is acyclic, whose recorded root id resolves
    in the node map and whose node map has distinct keys and no flag left
    set, a successful edit of a stored node changes the name, the
    description and the status of that node and nothing else in the store:
    its children, its friendly id, every other node and the parent map are
    as before; the name and the description are stored trimmed. *)
Theorem edit_changes_content_only :
  forall (n fuel : nat) (dom : Filters) (srv : Server) (st : State)
         (contentId editName editDescription newStatus root : string) (node : Node),
    parentsWellFounded n st ->
    n < fuel ->
    List.length (nodeMap st) < fuel ->
    (exists u, updateResponse srv = Resolved u) ->
    JS.get (nodeMap st) contentId = Some node ->
    stableRootId st = Some root ->
    JS.truthy root = true ->
    isSome (JS.get (nodeMap st) root) = true ->
    NoDup (JS.keys (nodeMap st)) ->
    noFlags (nodeMap st) ->
    exists st',
      handleEditSubmit fuel dom srv contentId editName editDescription newStatus st
      = Some (Returns VUndefined, st')
      /\ nodeMap st'
         = JS.set (nodeMap st) contentId
                  (withContent node (JS.trim editName) (JS.trim editDescription) newStatus)
      /\ (forall other, other <> contentId ->
                        JS.get (nodeMap st') other = JS.get (nodeMap st) other)
      /\ parentMap st' = parentMap st
      /\ stableRootId st' = stableRootId st
      /\ pageReloads st' = pageReloads st
      /\ In (mkMessage ("Node updated to '" ++ JS.trim editName ++ "' (Status: "
                          ++ newStatus ++ ").")%string "success")
            (messages st').
Proof.
  intros n fuel dom srv st contentId editName editDescription newStatus root node
         Hwf Hn Hlen [u Hupd] Hnode Hstable Htruthy Hres Hnd Hclean.
  unfold handleEditSubmit, showMessage. rewrite Hupd. run_m.
  cbn [nodeMap]. rewrite Hnode. cbn [stableRootId setPreserveViewport setNodeToFocusId setNodeMap].
  set (nm2 := JS.set (nodeMap st) contentId
                     (withContent node (JS.trim editName) (JS.trim editDescription) newStatus)).
  match goal with |- context [loadAndRenderVisuals fuel dom srv _ ?s] => set (s2 := s) end.
  assert (Hin : In contentId (JS.keys (nodeMap st))) by (eapply get_Some_In_keys; eassumption).
  destruct (@visuals_pass_frame n fuel dom srv (stableRootId st) s2 root)
    as [st' [forest [Hrun [Hnm [Hpm [Hsr [_ [Hmsg [Hpr _]]]]]]]]].
  - exact Hwf.
  - exact Hn.
  - change (nodeMap s2) with nm2. unfold nm2. now rewrite length_set_present.
  - unfold chooseRoot. rewrite Hstable. cbn [JS.orElse]. now rewrite Htruthy.
  - exact Htruthy.
  - change (nodeMap s2) with nm2. unfold nm2.
    destruct (String.eqb_spec root contentId) as [->|Hne].
    + now rewrite get_set_same.
    + now rewrite get_set_other.
  - change (nodeMap s2) with nm2. unfold nm2. now rewrite keys_set_present.
  - change (nodeMap s2) with nm2. unfold nm2. intros k x Hk.
    destruct (String.eqb_spec k contentId) as [->|Hne].
    + rewrite get_set_same in Hk. inversion Hk; subst. cbn. eapply Hclean; eassumption.
    + rewrite get_set_other in Hk by exact Hne. eapply Hclean; eassumption.
  - rewrite Hrun. exists st'. split; [reflexivity|].
    split; [exact Hnm|]. split.
    { intros other Hne. rewrite Hnm. change (nodeMap s2) with nm2. now apply get_set_other. }
    split; [exact Hpm|]. split; [exact Hsr|]. split; [exact Hpr|].
    match goal with
    | |- In ?m _ => assert (Hm : messages st' = messages st ++ [m]) by exact Hmsg
    end.
    rewrite Hm. apply in_or_app. right. left. reflexivity.
Qed.

Lemma edit_changes_content_only_witness :
  let r := mkNode "r" "Home" "" "New" (Some ["a"]) (Some "01") false in
  let a := mkNode "a" "Docs" "old" "New" (Some []) (Some "02") false in
  let st := mkState [("r", r); ("a", a)] [("a", "r")] [] (Some "r") None true []
                    false VInitial [] 0 in
  let dom := mkFilters (Some "all") (Some "all") in
  let srv := mkServer (Rejected "offline") (Some []) (Resolved tt) (Resolved tt) in
  exists st',
    handleEditSubmit 3 dom srv "a" " Guides " "new" "Completed" st
    = Some (Returns VUndefined, st')
    /\ nodeMap st' = JS.set (nodeMap st) "a" (withContent a "Guides" "new" "Completed")
    /\ (forall other, other <> "a" -> JS.get (nodeMap st') other = JS.get (nodeMap st) other)
    /\ parentMap st' = parentMap st
    /\ stableRootId st' = stableRootId st
    /\ pageReloads st' = pageReloads st
    /\ In (mkMessage "Node updated to 'Guides' (Status: Completed)." "success") (messages st').
Proof.
  intros r a st dom srv.
  apply (@edit_changes_content_only 1 3 dom srv st "a" " Guides " "new" "Completed" "r" a).
  - intros id. unfold hopsBounded, st. cbn [parentMap JS.get].
    destruct (String.eqb "a" id); reflexivity.
  - lia.
  - cbn. lia.
  - exists tt. reflexivity.
  - reflexivity.
  - reflexivity.
  - reflexivity.
  - reflexivity.
  - repeat constructor; cbn; intuition discriminate.
  - intros k nd H. unfold st in H. cbn [nodeMap JS.get] in H.
    destruct (String.eqb "r" k); [now inversion H|].
    destruct (String.eqb "a" k); [now inversion H | discriminate].
Defined.

(** ** Search mode, when the match is drawn *)

(** On an acyclic parent map, when the first match passes the filters
    against the statistics fetched during the pass, the search draws it
    alone: one card at level 0 with an empty children container, whatever
    children the node has; the mode flag is set, the focus request is used
    up and the message names the match. *)
Theorem search_match_drawn_alone :
  forall (n fuel : nat) (dom : Filters) (srv : Server) (nameInput idInput : option string)
         (st : State) (found : string) (node : Node),
    parentsWellFounded n st ->
    n < fuel ->
    List.length (nodeMap st) < fuel ->
    searchActive (queryOf nameInput) (queryOf idInput) = true ->
    findFirstMatch (queryOf nameInput) (queryOf idInput) (nodeMap st) = Some found ->
    JS.truthy found = true ->
    JS.get (nodeMap st) found = Some node ->
    isNodeVisible dom (setNodeStats (fetchedStats srv) st) found = true ->
    exists st',
      applyFilters fuel dom srv nameInput idInput st = Some (Returns VUndefined, st')
      /\ view st' = VTree [RNode found 0 []]
      /\ singleNodeMode st' = true
      /\ nodeToFocusId st' = None
      /\ In (mkMessage ("Displaying only: " ++ name node ++ " (ID "
                          ++ orEmpty (friendlyId node) ++ ")")%string "info")
            (messages st').
Proof.
  intros n fuel dom srv nameInput idInput st found node
         Hwf Hn Hlen Hsearch Hfind Htruthy Hnode Hvis.
  unfold applyFilters. cbn zeta. rewrite Hsearch. run_m. rewrite Hfind, Htruthy.
  match goal with |- context [loadAndRenderVisuals fuel dom srv (Some found) ?s] =>
    set (s1 := s) end.
  destruct (@loadAndRenderVisuals_run n fuel dom srv (Some found) s1 found)
    as [marked [forest [cleared [Hrun [Hext [_ [Hrender [Hk Hg]]]]]]]].
  - exact Hwf.
  - exact Hn.
  - exact Hlen.
  - unfold chooseRoot. cbn [JS.orElse]. now rewrite Htruthy.
  - exact Htruthy.
  - change (nodeMap s1) with (nodeMap st). now rewrite Hnode.
  - cbn zeta in Hrun, Hrender. rewrite Hrun. cbn [nodeMap setNodeMap].
    change (nodeMap s1) with (nodeMap st) in Hext.
    pose proof (@flagsExtend_get _ _ found Hext) as Hget. rewrite Hnode in Hget.
    destruct Hget as [node' [Hmarked [Heq _]]].
    rewrite Hg, Hmarked. cbn [option_map]. unfold showMessage. run_m.
    assert (Hforest : forest = [RNode found 0 []]).
    { destruct fuel as [|fuel]; [lia|].
      cbn [renderNode] in Hrender.
      cbn [nodeMap setRenderedNodes setNodeStats setNodeMap] in Hrender.
      rewrite Hmarked in Hrender.
      match type of Hrender with context [isNodeVisible dom ?s found] =>
        assert (Hv : isNodeVisible dom s found = true) end.
      { match goal with |- isNodeVisible dom ?s found = true =>
          change (isNodeVisible dom (setNodeMap marked s) found = true) end.
        eapply isNodeVisible_mono; [exact Hext|]. exact Hvis. }
      rewrite Hv in Hrender. rewrite andb_false_r in Hrender.
      cbn [renderedNodes setRenderedNodes setNodeStats setNodeMap setView JS.has existsb]
        in Hrender.
      run_m.
      cbn [singleNodeMode setRenderedNodes setNodeStats setNodeMap setView s1
           setPreserveViewport setNodeToFocusId setSingleNodeMode Nat.eqb andb negb]
        in Hrender.
      rewrite andb_false_r in Hrender. now inversion Hrender. }
    subst forest. eexists. split; [reflexivity|].
    unfold finalFocus. cbn [nodeToFocusId setView setRenderedNodes setNodeStats setNodeMap s1
                            setPreserveViewport setNodeToFocusId JS.truthyOpt].
    rewrite Htruthy. cbn [messages setView setRenderedNodes setNodeStats setNodeMap s1
                          setPreserveViewport setNodeToFocusId setSingleNodeMode].
    repeat split.
    apply in_or_app. right. left. rewrite Heq. reflexivity.
Qed.

Lemma search_match_drawn_alone_witness :
  let node id nm cs fid := mkNode id nm "" "New" (Some cs) (Some fid) false in
  let hit := node "k" "Pricing" ["x"] "02" in
  let st := mkState [("r", node "r" "Home" ["k"] "01"); ("k", hit); ("x", node "x" "Plans" [] "03")]
                    [("k", "r"); ("x", "k")] [] (Some "r") None true []
                    false VInitial [] 0 in
  let dom := mkFilters (Some "all") (Some "New") in
  let srv := mkServer (Rejected "offline") (Some []) (Resolved tt) (Resolved tt) in
  exists st',
    applyFilters 4 dom srv (Some " PRI ") (Some "") st = Some (Returns VUndefined, st')
    /\ view st' = VTree [RNode "k" 0 []]
    /\ singleNodeMode st' = true
    /\ nodeToFocusId st' = None
    /\ In (mkMessage "Displaying only: Pricing (ID 02)" "info") (messages st').
Proof.
  intros node hit st dom srv.
  apply (@search_match_drawn_alone 2 4 dom srv (Some " PRI ") (Some "") st "k" hit).
  - intros id. unfold hopsBounded, st. cbn [parentMap JS.get].
    destruct (String.eqb "k" id); [reflexivity|].
    destruct (String.eqb "x" id); reflexivity.
  - lia.
  - cbn. lia.
  - reflexivity.
  - reflexivity.
  - reflexivity.
  - reflexivity.
  - reflexivity.
Defined.

(** Nothing but [applyFilters] resets the single-node mode: a full reload
    that starts while the mode is on draws no more than the card of the
    root, with an empty children container, and leaves the mode on. *)
Theorem reload_in_single_node_mode :
  forall (fuel : nat) (dom : Filters) (srv : Server) (st : State)
         (first : Node) (rest : list Node),
    singleNodeMode st = true ->
    treeResponse srv = Resolved (first :: rest) ->
    JS.truthy (contentId first) = true ->
    0 < fuel ->
    exists st' forest,
      loadAndRenderTree fuel dom srv st = Some (tt, st')
      /\ singleNodeMode st' = true
      /\ view st' = VTree forest
      /\ (forest = [] \/ forest = [RNode (contentId first) 0 []]).
Proof.
  intros fuel dom srv st first rest Hmode Hresp Htruthy Hfuel.
  destruct fuel as [|fuel]; [lia|].
  unfold loadAndRenderTree. rewrite Hresp. unfold assignFriendlyIds. run_m.
  rewrite Htruthy. cbn [negb]. run_m. rewrite fetchAllStats_run.
  cbn [renderNode].
  match goal with |- context [JS.get (nodeMap ?s) (contentId first)] =>
    destruct (JS.get (nodeMap s) (contentId first)) as [node|] end.
  2:{ run_m. unfold finishRender. run_m. eexists. exists []. split; [reflexivity|].
      split; [|split; [|now left]].
      - destruct (JS.truthyOpt _); exact Hmode.
      - destruct (JS.truthyOpt _); reflexivity. }
  match goal with |- context [if ?c then ret [] _ else _] => destruct c end.
  { run_m. unfold finishRender. run_m. eexists. exists []. split; [reflexivity|].
    split; [|split; [|now left]].
    - destruct (JS.truthyOpt _); exact Hmode.
    - destruct (JS.truthyOpt _); reflexivity. }
  cbn [renderedNodes setNodeStats setStableRootId setNodeMap setParentMap setRenderedNodes
       setView JS.has existsb].
  run_m.
  cbn [singleNodeMode setNodeStats setStableRootId setNodeMap setParentMap setRenderedNodes
       setView].
  rewrite Hmode. cbn [Nat.eqb andb negb]. rewrite andb_false_r.
  unfold finishRender. run_m. eexists. exists [RNode (contentId first) 0 []].
  split; [reflexivity|].
  split; [|split; [|now right]].
  - destruct (JS.truthyOpt _); exact Hmode.
  - destruct (JS.truthyOpt _); reflexivity.
Qed.

Lemma reload_in_single_node_mode_witness :
  let node id cs := mkNode id id "" "New" (Some cs) None false in
  let srv := mkServer (Resolved [node "r" ["a"]; node "a" []]) (Some [])
                      (Resolved tt) (Resolved tt) in
  let st := mkState [("r", node "r" ["a"]); ("a", node "a" [])] [("a", "r")] []
                    (Some "r") None false [] true (VTree [RNode "a" 0 []]) [] 0 in
  let dom := mkFilters (Some "all") (Some "all") in
  exists st' forest,
    loadAndRenderTree 3 dom srv st = Some (tt, st')
    /\ singleNodeMode st' = true
    /\ view st' = VTree forest
    /\ (forest = [] \/ forest = [RNode "r" 0 []]).
Proof.
  intros node srv st dom.
  apply (@reload_in_single_node_mode 3 dom srv st (node "r" ["a"]) [node "a" []]);
    [reflexivity | reflexivity | reflexivity | lia].
Defined.

(** ** Delete and reload *)

(** A confirmed delete that the server accepts ends with the store rebuilt
    from the server's tree, for a stored id as for an unknown one: the
    removal made in the local maps before the reload leaves no trace. *)
Theorem delete_rebuilds_store_from_server :
  forall (fuel : nat) (dom : Filters) (srv : Server) (st : State)
         (contentId nodeName : string),
    (exists u, deleteResponse srv = Resolved u) ->
    responseSize srv < fuel ->
    exists st',
      deleteNode fuel dom srv contentId nodeName true st = Some (Returns VUndefined, st')
      /\ nodeMap st' = reloadedNodeMap srv
      /\ parentMap st' = reloadedParentMap srv
      /\ pageReloads st' = pageReloads st
      /\ In (mkMessage ("Node " ++ dquote ++ nodeName ++ dquote
                          ++ " deleted successfully.")%string "success")
            (messages st').
Proof.
  intros fuel dom srv st contentId nodeName [u Hdel] Hfuel.
  unfold deleteNode, showMessage, locationReload. cbn [negb]. run_m. rewrite Hdel. run_m.
  match goal with
  | |- context [loadAndRenderTree fuel dom srv ?s] =>
      destruct (@loadAndRenderTree_run fuel dom srv s Hfuel)
        as [st' [Hrun [Hnm [Hpm [_ [Hmsg [Hpr _]]]]]]]; rewrite Hrun
  end.
  eexists. split; [reflexivity|]. cbn [nodeMap parentMap pageReloads messages].
  split; [exact Hnm|]. split; [exact Hpm|]. split.
  - rewrite Hpr. unfold deleteLocally.
    repeat match goal with |- context [match ?x with _ => _ end] => destruct x end;
      reflexivity.
  - rewrite Hmsg. unfold deleteLocally.
    repeat match goal with |- context [match ?x with _ => _ end] => destruct x end;
      match goal with
      | |- In ?m _ => change (In m (messages st ++ [m]))
      end;
      apply in_or_app; right; left; reflexivity.
Qed.

Lemma delete_rebuilds_store_from_server_witness :
  let node id cs := mkNode id id "" "New" (Some cs) None false in
  let srv := mkServer (Resolved [node "r" ["a"]; node "a" []]) (Some [])
                      (Resolved tt) (Resolved tt) in
  let st := mkState [("r", node "r" ["a"]); ("a", node "a" [])] [("a", "r")] []
                    (Some "r") None true [] false VInitial [] 0 in
  let dom := mkFilters (Some "all") (Some "all") in
  exists st',
    deleteNode 3 dom srv "a" "a" true st = Some (Returns VUndefined, st')
    /\ nodeMap st' = reloadedNodeMap srv
    /\ parentMap st' = reloadedParentMap srv
    /\ pageReloads st' = pageReloads st
    /\ In (mkMessage ("Node " ++ dquote ++ "a" ++ dquote
                        ++ " deleted successfully.")%string "success")
          (messages st').
Proof.
  intros node srv st dom.
  apply (@delete_rebuilds_store_from_server 3 dom srv st "a" "a").
  - exists tt. reflexivity.
  - cbn. lia.
Defined.

(** ** Apply-filters on an empty store *)

Lemma markVisibleParents_empty fuel dom st :
  nodeMap st = [] -> markVisibleParents fuel dom st = Some (tt, st).
Proof. intros H. unfold markVisibleParents. run_m. now rewrite H. Qed.

(** With nothing in the store and no search query, the handler shows "No
    nodes to display" when no root id was ever recorded, and otherwise falls
    back to a full reload of the tree from the server. *)
Theorem applyFilters_on_empty_store :
  forall (fuel : nat) (dom : Filters) (srv : Server) (nameInput idInput : option string)
         (st : State),
    searchActive (queryOf nameInput) (queryOf idInput) = false ->
    nodeMap st = [] ->
    responseSize srv < fuel ->
    exists st',
      applyFilters fuel dom srv nameInput idInput st = Some (Returns VUndefined, st')
      /\ (JS.truthyOpt (stableRootId st) = false ->
            view st' = VNoNodes /\ nodeMap st' = [] /\ parentMap st' = parentMap st)
      /\ (JS.truthyOpt (stableRootId st) = true ->
            nodeMap st' = reloadedNodeMap srv /\ parentMap st' = reloadedParentMap srv).
Proof.
  intros fuel dom srv nameInput idInput st Hsearch Hempty Hfuel.
  unfold applyFilters. cbn zeta. rewrite Hsearch.
  set (pre := if valueIs (connectionFilter dom) "inbound"
                 || valueIs (connectionFilter dom) "outbound"
              then fetchAllStats srv else ret tt).
  assert (Hpre : exists ns, pre st = Some (tt, setNodeStats ns st)).
  { unfold pre. destruct (_ || _).
    - rewrite fetchAllStats_run. eexists; reflexivity.
    - exists (nodeStats st). unfold ret. now destruct st. }
  destruct Hpre as [ns Hpre]. unfold bind at 1. rewrite Hpre.
  run_m. cbn [stableRootId nodeMap setNodeStats]. rewrite Hempty.
  cbn [JS.ownKeys JS.keys map hd_error JS.orElse].
  assert (Hroot : JS.orElse (stableRootId st) (JS.orElse None None)
                  = if JS.truthyOpt (stableRootId st) then stableRootId st else None).
  { unfold JS.orElse, JS.truthyOpt. destruct (stableRootId st) as [r|]; [|reflexivity].
    now destruct (JS.truthy r). }
  change (JS.orElse (stableRootId st)
            (JS.orElse (hd_error (JS.ownKeys (@nil (string * Node)))) None))
    with (JS.orElse (stableRootId st) (JS.orElse None None)).
  rewrite Hroot. destruct (JS.truthyOpt (stableRootId st)) eqn:Hst.
  - rewrite Hst. run_m. unfold loadAndRenderVisuals. run_m.
    rewrite markVisibleParents_empty by (cbn; exact Hempty).
    cbn [nodeMap setView setRenderedNodes setPreserveViewport setSingleNodeMode setNodeStats
         stableRootId].
    unfold chooseRoot. cbn [stableRootId setView setRenderedNodes setPreserveViewport
                            setSingleNodeMode setNodeStats].
    destruct (stableRootId st) as [r|] eqn:Hr; [|discriminate]. cbn [JS.truthyOpt] in Hst.
    cbn [JS.orElse]. rewrite Hst. rewrite Hempty. cbn [JS.get isSome andb].
    rewrite andb_false_r. cbn beta.
    cbn [stableRootId setView setRenderedNodes setPreserveViewport setSingleNodeMode
         setNodeStats].
    rewrite Hr. cbn [JS.truthyOpt]. rewrite Hst.
    match goal with
    | |- context [loadAndRenderTree fuel dom srv ?s] =>
        destruct (@loadAndRenderTree_run fuel dom srv s Hfuel)
          as [st' [Hrun [Hnm [Hpm _]]]]; rewrite Hrun
    end.
    eexists. split; [reflexivity|]. split; [discriminate|]. intros _. now split.
  - cbn [JS.truthyOpt]. run_m. eexists. split; [reflexivity|].
    split; [|discriminate]. intros _. cbn. auto.
Qed.

Lemma applyFilters_on_empty_store_witness :
  let node id cs := mkNode id id "" "New" (Some cs) None false in
  let srv := mkServer (Resolved [node "r" ["a"]; node "a" []]) (Some [])
                      (Resolved tt) (Resolved tt) in
  let st := mkState [] [] [] (Some "r") None true [] false (VLoadError "offline") [] 0 in
  let dom := mkFilters (Some "all") (Some "all") in
  exists st',
    applyFilters 3 dom srv (Some "") (Some "") st = Some (Returns VUndefined, st')
    /\ (JS.truthyOpt (stableRootId st) = false ->
          view st' = VNoNodes /\ nodeMap st' = [] /\ parentMap st' = parentMap st)
    /\ (JS.truthyOpt (stableRootId st) = true ->
          nodeMap st' = reloadedNodeMap srv /\ parentMap st' = reloadedParentMap srv).
Proof.
  intros node srv st dom.
  apply (@applyFilters_on_empty_store 3 dom srv (Some "") (Some "") st);
    [reflexivity | reflexivity | cbn; lia].
Defined.

(** ** What an ingest establishes *)

Lemma stored_after_ingest response a na :
  NoDup (map contentId response) ->
  JS.get (ingestedNodeMap response) a = Some na ->
  exists i node,
    nth_error response i = Some node /\ contentId node = a
    /\ na = withFriendlyId node (Some (JS.padStart0 2 (JS.ofNat (S i)))).
Proof.
  intros Hnd Ha. destruct (@ingestedNodeMap_NoDup response Hnd) as [Hkeys Hget].
  pose proof (@get_Some_In_keys _ _ _ _ Ha) as Hin. rewrite Hkeys in Hin.
  apply in_map_iff in Hin as [node [Hid Hin]].
  destruct (In_nth_error _ _ Hin) as [i Hi].
  exists i, node. split; [exact Hi|]. split; [exact Hid|].
  pose proof (Hget i node Hi) as Hg. rewrite Hid in Hg. congruence.
Qed.

(** After a load of a response with distinct ids, the parent map agrees with
    the children lists: the parent recorded for a node is in the store and
    lists that node among its children. *)
Theorem ingest_parent_map_agrees_with_children :
  forall (fuel : nat) (dom : Filters) (srv : Server) (st : State) (response : list Node),
    treeResponse srv = Resolved response ->
    NoDup (map contentId response) ->
    List.length response < fuel ->
    exists st',
      loadAndRenderTree fuel dom srv st = Some (tt, st')
      /\ parentsAreListed st'
      /\ forall c p, JS.get (parentMap st') c = Some p ->
                     isSome (JS.get (nodeMap st') p) = true /\ childOf st' p c.
Proof.
  intros fuel dom srv st response Hresp Hnd Hfuel.
  destruct (@loadAndRenderTree_run fuel dom srv st) as [st' [Hrun [Hnm [Hpm _]]]].
  { unfold responseSize. now rewrite Hresp. }
  unfold reloadedNodeMap, reloadedParentMap in *. rewrite Hresp in *.
  assert (Hmain : forall c p, JS.get (parentMap st') c = Some p ->
                              isSome (JS.get (nodeMap st') p) = true /\ childOf st' p c).
  { intros c p Hc. rewrite Hpm, buildParentMap_get in Hc.
    destruct (JS.truthy c && isSome (JS.get (buildNodeMap response) c)); [|discriminate].
    unfold lastWriter in Hc.
    destruct (find _ (rev response)) as [node|] eqn:Hf; [|discriminate].
    inversion Hc; subst p. apply find_some in Hf as [Hin Hhas].
    apply in_rev in Hin. destruct (In_nth_error _ _ Hin) as [i Hi].
    destruct (@ingestedNodeMap_NoDup response Hnd) as [_ Hget].
    pose proof (Hget i node Hi) as Hg.
    unfold childOf. rewrite Hnm, Hg. split; [reflexivity|].
    eexists. split; [reflexivity|]. now apply has_true_iff. }
  exists st'. split; [exact Hrun|]. split; [|exact Hmain].
  intros c p Hc _. now apply Hmain.
Qed.

Lemma ingest_parent_map_agrees_with_children_witness :
  let node id cs := mkNode id id "" "New" (Some cs) None false in
  let response := [node "r" ["a"; "b"]; node "a" ["x"]; node "b" ["x"; "ghost"]; node "x" []] in
  let srv := mkServer (Resolved response) (Some []) (Resolved tt) (Resolved tt) in
  let st := mkState [] [] [] None None true [] false VInitial [] 0 in
  let dom := mkFilters (Some "all") (Some "all") in
  exists st',
    loadAndRenderTree 5 dom srv st = Some (tt, st')
    /\ parentsAreListed st'
    /\ forall c p, JS.get (parentMap st') c = Some p ->
                   isSome (JS.get (nodeMap st') p) = true /\ childOf st' p c.
Proof.
  intros node response srv st dom.
  apply (@ingest_parent_map_agrees_with_children 5 dom srv st response).
  - reflexivity.
  - repeat constructor; cbn; intuition discriminate.
  - cbn. lia.
Defined.

Lemma padded_value k n :
  option_map Nat.of_uint (NilEmpty.uint_of_string (JS.zeros k ++ JS.ofNat n)%string) = Some n.
Proof.
  induction k as [|k IH]; cbn [JS.zeros String.append].
  - unfold JS.ofNat. rewrite NilEmpty.usu. cbn [option_map]. now rewrite Unsigned.of_to.
  - cbn [NilEmpty.uint_of_string].
    destruct (NilEmpty.uint_of_string (JS.zeros k ++ JS.ofNat n)%string) as [d|];
      [|discriminate].
    cbn [option_map] in IH |- *. exact IH.
Qed.

Lemma padStart0_inj w m n :
  JS.padStart0 w (JS.ofNat m) = JS.padStart0 w (JS.ofNat n) -> m = n.
Proof.
  unfold JS.padStart0. intros H.
  pose proof (padded_value (w - String.length (JS.ofNat m)) m) as Hm.
  rewrite H, padded_value in Hm. congruence.
Qed.

(** After a load of a response with distinct ids every stored node has a
    friendly id, and no two stored nodes have the same one. *)
Theorem friendly_ids_are_distinct :
  forall (fuel : nat) (dom : Filters) (srv : Server) (st : State) (response : list Node),
    treeResponse srv = Resolved response ->
    NoDup (map contentId response) ->
    List.length response < fuel ->
    exists st',
      loadAndRenderTree fuel dom srv st = Some (tt, st')
      /\ (forall a na, JS.get (nodeMap st') a = Some na -> friendlyId na <> None)
      /\ (forall a b na nb,
            JS.get (nodeMap st') a = Some na -> JS.get (nodeMap st') b = Some nb ->
            a <> b -> friendlyId na <> friendlyId nb).
Proof.
  intros fuel dom srv st response Hresp Hnd Hfuel.
  destruct (@loadAndRenderTree_run fuel dom srv st) as [st' [Hrun [Hnm _]]].
  { unfold responseSize. now rewrite Hresp. }
  unfold reloadedNodeMap in Hnm. rewrite Hresp in Hnm.
  exists st'. split; [exact Hrun|]. rewrite Hnm. split.
  - intros a na Ha. destruct (@stored_after_ingest response a na Hnd Ha) as [i [node [_ [_ ->]]]].
    discriminate.
  - intros a b na nb Ha Hb Hab Heq.
    destruct (@stored_after_ingest response a na Hnd Ha) as [i [x [Hi [Hx ->]]]].
    destruct (@stored_after_ingest response b nb Hnd Hb) as [j [y [Hj [Hy ->]]]].
    cbn [friendlyId withFriendlyId] in Heq. injection Heq as Heq.
    apply padStart0_inj in Heq. injection Heq as <-. congruence.
Qed.

Lemma friendly_ids_are_distinct_witness :
  let node id cs := mkNode id id "" "New" (Some cs) None false in
  let response := [node "r" ["a"]; node "a" []] in
  let srv := mkServer (Resolved response) (Some []) (Resolved tt) (Resolved tt) in
  let st := mkState [] [] [] None None true [] false VInitial [] 0 in
  let dom := mkFilters (Some "all") (Some "all") in
  exists st',
    loadAndRenderTree 3 dom srv st = Some (tt, st')
    /\ (forall a na, JS.get (nodeMap st') a = Some na -> friendlyId na <> None)
    /\ (forall a b na nb,
          JS.get (nodeMap st') a = Some na -> JS.get (nodeMap st') b = Some nb ->
          a <> b -> friendlyId na <> friendlyId nb).
Proof.
  intros node response srv st dom.
  apply (@friendly_ids_are_distinct 3 dom srv st response).
  - reflexivity.
  - repeat constructor; cbn; intuition discriminate.
  - cbn. lia.
Defined.

(** ** The stats cache and the connection filter *)

Lemma fold_set_get {V W} (f : V -> W) (k : string) (v : V) (l : list (string * V)) :
  (forall kv, In kv l -> fst kv = k -> snd kv = v) ->
  forall acc,
    JS.get (fold_left (fun acc kv => JS.set acc (fst kv) (f (snd kv))) l acc) k
    = if existsb (fun kv => String.eqb (fst kv) k) l then Some (f v) else JS.get acc k.
Proof.
  induction l as [|[k1 v1] l IH]; intros Hsame acc; cbn [fold_left existsb fst snd];
    [reflexivity|].
  rewrite IH by (intros kv Hin; apply Hsame; now right).
  destruct (String.eqb_spec k1 k) as [->|Hne]; cbn [orb].
  - pose proof (Hsame (k, v1) (or_introl eq_refl) eq_refl) as Hv. cbn [snd] in Hv. subst v1.
    rewrite get_set_same. now destruct (existsb _ l).
  - rewrite get_set_other by congruence. reflexivity.
Qed.

Lemma In_entries {V} (o : JS.obj V) k v : In (k, v) (JS.entries o) <-> JS.get o k = Some v.
Proof.
  unfold JS.entries. rewrite in_flat_map. split.
  - intros [k' [_ Hin]]. destruct (JS.get o k') as [v'|] eqn:E; [|destruct Hin].
    destruct Hin as [Heq|[]]. now inversion Heq; subst.
  - intros H. exists k. split.
    + apply In_ownKeys. eapply get_Some_In_keys; eassumption.
    + rewrite H. now left.
Qed.

Lemma statsFromResponse_get all k :
  JS.get (statsFromResponse all) k = option_map statsOfRaw (JS.get all k).
Proof.
  unfold statsFromResponse.
  destruct (JS.get all k) as [v|] eqn:E; cbn [option_map].
  - rewrite (@fold_set_get _ _ statsOfRaw k v).
    + assert (Hex : existsb (fun kv => String.eqb (fst kv) k) (JS.entries all) = true).
      { apply existsb_exists. exists (k, v). split; [now apply In_entries|].
        apply String.eqb_refl. }
      now rewrite Hex.
    + intros [k' v'] Hin Hk. cbn [fst snd] in *. subst k'.
      apply In_entries in Hin. congruence.
  - rewrite (@fold_set_get _ _ statsOfRaw k (mkRawStats None None)).
    + assert (Hex : existsb (fun kv => String.eqb (fst kv) k) (JS.entries all) = false).
      { apply not_true_is_false. intros H. apply existsb_exists in H as [[k' v'] [Hin Hk]].
        cbn [fst] in Hk. apply String.eqb_eq in Hk. subst k'.
        apply In_entries in Hin. congruence. }
      now rewrite Hex.
    + intros [k' v'] Hin Hk. cbn [fst snd] in *. subst k'.
      apply In_entries in Hin. congruence.
Qed.

(** After a stats fetch, the inbound filter hides a node exactly when the
    response has an entry for it whose inbound count is 0, null or missing,
    and the outbound filter likewise on the outbound count: when the fetch
    fails, or the response has no entry for the node, the node stays. *)
Theorem connection_filter_after_stats_fetch :
  forall (dom : Filters) (srv : Server) (st : State) (nodeId : string) (node : Node),
    JS.get (nodeMap st) nodeId = Some node ->
    _forceVisible node = false ->
    statusRejects (statusFilter dom) node = false ->
    exists st',
      fetchAllStats srv st = Some (tt, st')
      /\ nodeMap st' = nodeMap st
      /\ (connectionFilter dom = Some "inbound" ->
            (isNodeVisible dom st' nodeId = false
             <-> exists all raw, statsResponse srv = Some all /\ JS.get all nodeId = Some raw
                                 /\ orZero (total_inbound_count raw) = 0%N))
      /\ (connectionFilter dom = Some "outbound" ->
            (isNodeVisible dom st' nodeId = false
             <-> exists all raw, statsResponse srv = Some all /\ JS.get all nodeId = Some raw
                                 /\ orZero (total_outbound_count raw) = 0%N)).
Proof.
  intros dom srv st nodeId node Hnode Hflag Hstatus.
  rewrite fetchAllStats_run. eexists. split; [reflexivity|]. split; [reflexivity|].
  assert (Hvis : forall conn,
             connectionFilter dom = Some conn ->
             isNodeVisible dom (setNodeStats (fetchedStats srv) st) nodeId
             = negb (connectionRejects (Some conn) (JS.get (fetchedStats srv) nodeId))).
  { intros conn Hconn. rewrite (@isNodeVisible_unfold dom (setNodeStats (fetchedStats srv) st) nodeId node Hnode).
    rewrite Hflag, Hstatus, Hconn. cbn [nodeStats setNodeStats orb negb].
    now rewrite andb_true_r. }
  split; intros Hconn; rewrite (Hvis _ Hconn); unfold fetchedStats;
    (destruct (statsResponse srv) as [all|];
     [rewrite statsFromResponse_get; destruct (JS.get all nodeId) as [raw|] eqn:Hraw|]);
    cbn [option_map connectionRejects JS.get valueIs String.eqb Ascii.eqb Bool.eqb andb orb negb
         statsOfRaw inboundCount outboundCount].
  - rewrite orb_false_r, negb_false_iff, N.eqb_eq. split.
    + intros H. exists all, raw. auto.
    + intros [all' [raw' [Ha [Hr H]]]]. congruence.
  - split; [discriminate|]. intros [all' [raw' [Ha [Hr H]]]]. congruence.
  - split; [discriminate|]. intros [all' [raw' [Ha [Hr H]]]]. congruence.
  - rewrite negb_false_iff, N.eqb_eq. split.
    + intros H. exists all, raw. auto.
    + intros [all' [raw' [Ha [Hr H]]]]. congruence.
  - split; [discriminate|]. intros [all' [raw' [Ha [Hr H]]]]. congruence.
  - split; [discriminate|]. intros [all' [raw' [Ha [Hr H]]]]. congruence.
Qed.

Lemma connection_filter_after_stats_fetch_witness :
  let node := mkNode "a" "Docs" "" "New" (Some []) (Some "01") false in
  let st := mkState [("a", node)] [] [] (Some "a") None true [] false VInitial [] 0 in
  let dom := mkFilters (Some "inbound") (Some "all") in
  let srv := mkServer (Rejected "offline") (Some [("a", mkRawStats None (Some 4%N))])
                      (Resolved tt) (Resolved tt) in
  exists st',
    fetchAllStats srv st = Some (tt, st')
    /\ nodeMap st' = nodeMap st
    /\ (connectionFilter dom = Some "inbound" ->
          (isNodeVisible dom st' "a" = false
           <-> exists all raw, statsResponse srv = Some all /\ JS.get all "a" = Some raw
                               /\ orZero (total_inbound_count raw) = 0%N))
    /\ (connectionFilter dom = Some "outbound" ->
          (isNodeVisible dom st' "a" = false
           <-> exists all raw, statsResponse srv = Some all /\ JS.get all "a" = Some raw
                               /\ orZero (total_outbound_count raw) = 0%N)).
Proof.
  intros node st dom srv.
  apply (@connection_filter_after_stats_fetch dom srv st "a" node); reflexivity.
Defined.

(** ** The retry counter after an operation has given up *)

(** Giving up does not reset the counter; an [ok] response does, before its
    body is read.  An operation that runs alone from a fresh counter and
    whose fetch fails every time gives up at its sixth failure, after waits
    of 200, 400, 800, 1600 and 3200 ms, and leaves the counter at the
    ceiling: the next operation whose fetch fails gives up at once, without
    a single retry, while one that gets an [ok] response with a body that
    does not parse is called again after 200 ms, the counter back at 1. *)
Theorem no_retry_after_exhaustion :
  forall (later later' : list Retry.Attempt),
    let first := Retry.fetchWithRetry (repeat Retry.Fails 6 ++ later) Retry.freshOp 0 in
    let second := Retry.fetchWithRetry (Retry.Fails :: later') Retry.freshOp (snd first) in
    let third := Retry.fetchWithRetry [Retry.BadBody] Retry.freshOp (snd second) in
    fst first = Retry.mkOp Retry.Rethrown 5 [200; 400; 800; 1600; 3200] 1 1
    /\ snd first = Retry.MAX_RETRIES
    /\ fst second = Retry.mkOp Retry.Rethrown 0 [] 1 1
    /\ snd second = Retry.MAX_RETRIES
    /\ third = (Retry.mkOp Retry.InFlight 1 [200] 0 0, 1).
Proof.
  intros later later'. cbn zeta.
  assert (H1 : Retry.fetchWithRetry (repeat Retry.Fails 6 ++ later) Retry.freshOp 0
               = (Retry.mkOp Retry.Rethrown 5 [200; 400; 800; 1600; 3200] 1 1, 5)).
  { cbn [repeat app Retry.fetchWithRetry]. unfold Retry.settle, Retry.freshOp.
    cbn -[Retry.fetchWithRetry].
    apply fetchWithRetry_not_in_flight. cbn. discriminate. }
  assert (H2 : Retry.fetchWithRetry (Retry.Fails :: later') Retry.freshOp 5
               = (Retry.mkOp Retry.Rethrown 0 [] 1 1, 5)).
  { cbn [Retry.fetchWithRetry]. unfold Retry.settle, Retry.freshOp.
    cbn -[Retry.fetchWithRetry].
    apply fetchWithRetry_not_in_flight. cbn. discriminate. }
  rewrite H1. cbn [fst snd]. rewrite H2. cbn [fst snd]. repeat split.
Qed.

(** ** A body that does not parse *)

Lemma unparseable_body_retried (n : nat) :
  forall (rc : nat) (op : Retry.Op),
    Retry.opStatus op = Retry.InFlight ->
    Retry.fetchWithRetry (repeat Retry.BadBody (S n)) op rc
    = (Retry.mkOp Retry.InFlight (Retry.retries op + S n)
                  (Retry.delays op ++ repeat 200 (S n))
                  (Retry.fatalMessages op) (Retry.redirects op), 1).
Proof.
  induction n as [|n IH]; intros rc op Hop.
  - cbn [repeat Retry.fetchWithRetry]. unfold Retry.settle. rewrite Hop. cbn.
    now rewrite Nat.add_1_r.
  - change (repeat Retry.BadBody (S (S n)))
      with (Retry.BadBody :: repeat Retry.BadBody (S n)).
    cbn [Retry.fetchWithRetry]. unfold Retry.settle at 1. rewrite Hop.
    cbn [Retry.body Retry.catchBlock Nat.ltb Nat.leb Retry.MAX_RETRIES].
    rewrite IH by reflexivity.
    cbn [Retry.retries Retry.delays Retry.fatalMessages Retry.redirects]. f_equal. f_equal.
    + lia.
    + rewrite <- app_assoc. reflexivity.
Qed.

(** The ceiling does not hold for an operation on its own either: an [ok]
    response resets the counter before [response.json()] is awaited, so an
    operation whose every response is [ok] with a body that does not parse
    is called again each time, after 200 ms, whatever the counter was when
    it started; it never reaches the fatal branch. *)
Theorem unparseable_body_retries_without_bound :
  forall (n rc : nat),
    Retry.fetchWithRetry (repeat Retry.BadBody (S n)) Retry.freshOp rc
    = (Retry.mkOp Retry.InFlight (S n) (repeat 200 (S n)) 0 0, 1).
Proof.
  intros n rc.
  exact (@unparseable_body_retried n rc Retry.freshOp eq_refl).
Qed.

(** ** Creating a child *)

Lemma view_insertChildLocally parentId childId childName childDescription st :
  view (insertChildLocally parentId childId childName childDescription st) = view st.
Proof. reflexivity. Qed.

Lemma messages_insertChildLocally parentId childId childName childDescription st :
  messages (insertChildLocally parentId childId childName childDescription st) = messages st.
Proof. reflexivity. Qed.

(** The run of the handler, with the messages the handler itself shows. *)
Lemma handleCreateChild_run :
  forall (fuel : nat) (dom : Filters) (srv : Server)
         (created : Fetched (option string)) (linked : Fetched unit)
         (parentId childNameInput childDescriptionInput : string) (st : State),
    responseSize srv < fuel ->
    exists st',
      handleCreateChild fuel dom srv created linked parentId childNameInput
                        childDescriptionInput st
      = Some (Returns VUndefined, st')
      /\ (JS.trim childNameInput = "" ->
            nodeMap st' = nodeMap st /\ parentMap st' = parentMap st /\ view st' = view st
            /\ messages st'
               = messages st ++ [mkMessage "Please enter a name for the new node" "error"])
      /\ (JS.trim childNameInput <> "" ->
            nodeMap st' = reloadedNodeMap srv
            /\ parentMap st' = reloadedParentMap srv
            /\ messages st'
               = messages st
                   ++ createMessages (nodeMap st) created linked parentId
                                     (JS.trim childNameInput)).
Proof.
  intros fuel dom srv created linked parentId childNameInput childDescriptionInput st Hfuel.
  unfold handleCreateChild, createFailed, showMessage. run_m.
  destruct (JS.truthy (JS.trim childNameInput)) eqn:Hname; cbn [negb].
  2:{ apply negb_true_iff in Hname. fold (JS.truthy (JS.trim childNameInput)) in Hname.
      pose proof (proj1 (truthy_true_iff (JS.trim childNameInput))) as Hnot.
      eexists. split; [reflexivity|]. split.
      - intros _. cbn. auto.
      - intros Hne. exfalso. destruct (JS.truthy (JS.trim childNameInput)) eqn:E;
          [discriminate|]. unfold JS.truthy in E. apply negb_false_iff in E.
        apply String.eqb_eq in E. contradiction. }
  assert (Hnonblank : JS.trim childNameInput <> "") by (now apply truthy_true_iff).
  unfold createMessages.
  destruct created as [result|message]; run_m.
  - destruct (JS.truthyOpt result) eqn:Hid; cbn [negb]; run_m.
    + destruct linked as [u|message]; run_m.
      * rewrite view_insertChildLocally. cbn [view setView cardDrawn negb].
        run_m.
        match goal with
        | |- context [loadAndRenderTree fuel dom srv ?s] =>
            destruct (@loadAndRenderTree_run fuel dom srv s Hfuel)
              as [st' [Hrun [Hnm [Hpm [_ [Hmsg _]]]]]]; rewrite Hrun
        end.
        eexists. split; [reflexivity|]. split; [intros H; contradiction|]. intros _.
        cbn [nodeMap parentMap messages]. rewrite Hmsg. cbn [messages].
        split; [exact Hnm|]. split; [exact Hpm|].
        cbn [messages setPreserveViewport setNodeToFocusId].
        rewrite messages_insertChildLocally. cbn [messages].
        now rewrite <- !app_assoc.
      * match goal with
        | |- context [loadAndRenderTree fuel dom srv ?s] =>
            destruct (@loadAndRenderTree_run fuel dom srv s Hfuel)
              as [st' [Hrun [Hnm [Hpm [_ [Hmsg _]]]]]]; rewrite Hrun
        end.
        eexists. split; [reflexivity|]. split; [intros H; contradiction|]. intros _.
        rewrite Hmsg. cbn [messages]. split; [exact Hnm|]. split; [exact Hpm|].
        now rewrite <- !app_assoc.
    + match goal with
      | |- context [loadAndRenderTree fuel dom srv ?s] =>
          destruct (@loadAndRenderTree_run fuel dom srv s Hfuel)
            as [st' [Hrun [Hnm [Hpm [_ [Hmsg _]]]]]]; rewrite Hrun
      end.
      eexists. split; [reflexivity|]. split; [intros H; contradiction|]. intros _.
      rewrite Hmsg. cbn [messages]. split; [exact Hnm|]. split; [exact Hpm|].
      now rewrite <- !app_assoc.
  - match goal with
    | |- context [loadAndRenderTree fuel dom srv ?s] =>
        destruct (@loadAndRenderTree_run fuel dom srv s Hfuel)
          as [st' [Hrun [Hnm [Hpm [_ [Hmsg _]]]]]]; rewrite Hrun
    end.
    eexists. split; [reflexivity|]. split; [intros H; contradiction|]. intros _.
    rewrite Hmsg. cbn [messages]. split; [exact Hnm|]. split; [exact Hpm|].
    now rewrite <- !app_assoc.
Qed.

(** The handler puts the spinner in place of the tree before it sends its
    requests, so the card of the parent is gone when it looks for it: a run
    that gets past the name check always ends in a full reload, and the
    store is the one built from the server's tree, whether the requests
    succeeded or not.  A blank name is refused with a message and nothing
    else happens. *)
Theorem create_child_always_reloads :
  forall (fuel : nat) (dom : Filters) (srv : Server)
         (created : Fetched (option string)) (linked : Fetched unit)
         (parentId childNameInput childDescriptionInput : string) (st : State),
    responseSize srv < fuel ->
    exists st',
      handleCreateChild fuel dom srv created linked parentId childNameInput
                        childDescriptionInput st
      = Some (Returns VUndefined, st')
      /\ (JS.trim childNameInput = "" ->
            nodeMap st' = nodeMap st /\ parentMap st' = parentMap st /\ view st' = view st
            /\ messages st'
               = messages st ++ [mkMessage "Please enter a name for the new node" "error"])
      /\ (JS.trim childNameInput <> "" ->
            nodeMap st' = reloadedNodeMap srv
            /\ parentMap st' = reloadedParentMap srv
            /\ incl (createMessages (nodeMap st) created linked parentId
                                    (JS.trim childNameInput))
                    (messages st')).
Proof.
  intros fuel dom srv created linked parentId childNameInput childDescriptionInput st Hfuel.
  destruct (@handleCreateChild_run fuel dom srv created linked parentId childNameInput
              childDescriptionInput st Hfuel) as [st' [Hrun [Hblank Hnonblank]]].
  exists st'. split; [exact Hrun|]. split; [exact Hblank|].
  intros Hne. destruct (Hnonblank Hne) as [Hnm [Hpm Hmsg]].
  split; [exact Hnm|]. split; [exact Hpm|].
  rewrite Hmsg. intros m Hm. apply in_or_app. now right.
Qed.

Lemma create_child_always_reloads_witness :
  let node id cs := mkNode id id "" "New" (Some cs) None false in
  let srv := mkServer (Resolved [node "r" ["a"; "n7"]; node "a" []; node "n7" []]) (Some [])
                      (Resolved tt) (Resolved tt) in
  let st := mkState [("r", node "r" ["a"]); ("a", node "a" [])] [("a", "r")] []
                    (Some "r") None true ["r"; "a"] false
                    (VTree [RNode "r" 0 [RNode "a" 1 []]]) [] 0 in
  let dom := mkFilters (Some "all") (Some "all") in
  exists st',
    handleCreateChild 4 dom srv (Resolved (Some "n7")) (Resolved tt) "r" " Blog " "" st
    = Some (Returns VUndefined, st')
    /\ (JS.trim " Blog " = "" ->
          nodeMap st' = nodeMap st /\ parentMap st' = parentMap st /\ view st' = view st
          /\ messages st'
             = messages st ++ [mkMessage "Please enter a name for the new node" "error"])
    /\ (JS.trim " Blog " <> "" ->
          nodeMap st' = reloadedNodeMap srv
          /\ parentMap st' = reloadedParentMap srv
          /\ incl (createMessages (nodeMap st) (Resolved (Some "n7")) (Resolved tt) "r"
                                  (JS.trim " Blog "))
                  (messages st')).
Proof.
  intros node srv st dom.
  apply (@create_child_always_reloads 4 dom srv (Resolved (Some "n7")) (Resolved tt)
           "r" " Blog " "" st).
  cbn. lia.
Defined.

(** ** updateParentContainer after a render pass *)

Lemma mapRender_all_empty (call : string -> M (list RTree)) cs s :
  (forall c, In c cs -> call c s = Some ([], s)) ->
  mapRender call cs s = Some ([], s).
Proof.
  induction cs as [|c cs IH]; intros H; cbn [mapRender]; run_m; [reflexivity|].
  rewrite (H c (or_introl eq_refl)). rewrite IH by (intros; apply H; now right).
  reflexivity.
Qed.

Lemma setKids_in_forest id newKids (kids : list RTree) :
  Forall (fun t =>
            (In id (idsOf t) ->
             exists t', setKids id newKids t = Some t' /\ kidsOf id t' = Some newKids)
            /\ (~ In id (idsOf t) -> setKids id newKids t = None /\ kidsOf id t = None))
         kids ->
  (In id (flat_map idsOf kids) ->
   exists kids', replaceFirst (setKids id newKids) kids = Some kids'
                 /\ firstSome (kidsOf id) kids' = Some newKids)
  /\ (~ In id (flat_map idsOf kids) ->
      replaceFirst (setKids id newKids) kids = None /\ firstSome (kidsOf id) kids = None).
Proof.
  induction 1 as [|k rest [Hyes Hno] _ [IHyes IHno]]; cbn [flat_map replaceFirst firstSome].
  - split; [intros [] | auto].
  - destruct (in_dec string_dec id (idsOf k)) as [Hi|Hni].
    + split.
      * intros _. destruct (Hyes Hi) as [k' [Hset Hkids]]. rewrite Hset.
        exists (k' :: rest). split; [reflexivity|]. cbn [firstSome]. now rewrite Hkids.
      * intros Hnot. exfalso. apply Hnot, in_or_app. now left.
    + destruct (Hno Hni) as [Hset Hkids]. rewrite Hset, Hkids. split.
      * intros Hin. apply in_app_or in Hin as [Hin|Hin]; [contradiction|].
        destruct (IHyes Hin) as [rest' [Hr Hf]]. rewrite Hr. cbn [option_map].
        exists (k :: rest'). split; [reflexivity|]. cbn [firstSome]. now rewrite Hkids.
      * intros Hnot. destruct IHno as [Hr Hf].
        { intros Hin. apply Hnot, in_or_app. now right. }
        rewrite Hr. now split.
Qed.

Lemma setKids_spec id newKids :
  forall t,
    (In id (idsOf t) ->
     exists t', setKids id newKids t = Some t' /\ kidsOf id t' = Some newKids)
    /\ (~ In id (idsOf t) -> setKids id newKids t = None /\ kidsOf id t = None).
Proof.
  apply RTree_forest_ind. intros x level kids IH.
  destruct (@setKids_in_forest id newKids kids IH) as [Hyes Hno].
  cbn [setKids kidsOf idsOf]. destruct (String.eqb_spec x id) as [->|Hne].
  - split.
    + intros _. eexists. split; [reflexivity|]. cbn [kidsOf]. now rewrite String.eqb_refl.
    + intros Hnot. exfalso. apply Hnot. now left.
  - split.
    + intros [Heq|Hin]; [contradiction|].
      destruct (Hyes Hin) as [kids' [Hr Hf]]. rewrite Hr. cbn [option_map].
      eexists. split; [reflexivity|]. cbn [kidsOf].
      destruct (String.eqb_spec x id); [contradiction | exact Hf].
    + intros Hnot. destruct Hno as [Hr Hf].
      { intros Hin. apply Hnot. now right. }
      rewrite Hr. now split.
Qed.

Lemma replaceContainer_drawn id newKids forest st :
  view st = VTree forest ->
  In id (ids forest) ->
  exists forest',
    replaceContainer id newKids st = setView (VTree forest') st
    /\ firstSome (kidsOf id) forest' = Some newKids.
Proof.
  intros Hview Hin. unfold replaceContainer. rewrite Hview.
  destruct (@setKids_in_forest id newKids forest) as [Hyes _].
  { apply Forall_forall. intros t _. apply setKids_spec. }
  destruct (Hyes Hin) as [forest' [Hr Hf]]. rewrite Hr. now exists forest'.
Qed.

(** Called on the page a render pass has just drawn (outside single-node
    mode), for a parent whose card is drawn, [updateParentContainer] leaves
    the children container of that card empty: the visited set is not reset,
    every child that passes the filters was drawn in the pass, and
    [renderNode] emits nothing for a visited node.  The store is not
    touched. *)
Theorem updateParentContainer_after_pass :
  forall (fuel : nat) (dom : Filters) (st : State) (root parentId : string),
    singleNodeMode st = false ->
    List.length (nodeMap st) < fuel ->
    JS.truthy parentId = true ->
    exists forest drawn,
      renderNode fuel dom root 0 (setRenderedNodes [] st) = Some (forest, drawn)
      /\ (In parentId (ids forest) ->
          exists st' forest',
            updateParentContainer fuel dom parentId (setView (VTree forest) drawn)
            = Some (tt, st')
            /\ view st' = VTree forest'
            /\ firstSome (kidsOf parentId) forest' = Some []
            /\ nodeMap st' = nodeMap st
            /\ renderedNodes st' = ids forest).
Proof.
  intros fuel dom st root parentId Hmode Hfuel Htruthy.
  destruct (@renderNode_total dom st fuel root 0 []) as [forest [drawn Hrun]].
  { eapply Nat.le_lt_trans; [apply unrendered_le_length|].
    unfold JS.keys. now rewrite length_map. }
  exists forest, drawn. split; [exact Hrun|]. intros Hdrawn.
  pose proof (@renderNode_spec dom st fuel root 0 [] forest drawn Hrun) as Hst.
  cbn [app] in Hst. subst drawn.
  destruct (@renderNode_closed dom st Hmode fuel root 0 [] forest _ Hrun) as [_ Hclosed].
  cbn [app] in Hclosed.
  set (s := setView (VTree forest) (setRenderedNodes (ids forest) st)).
  unfold updateParentContainer. rewrite Htruthy. cbn [negb]. run_m.
  change (nodeMap s) with (nodeMap st). change (view s) with (VTree forest).
  destruct (hasNoChildren (JS.get (nodeMap st) parentId)) eqn:Hnone.
  - destruct (@replaceContainer_drawn parentId [] forest s eq_refl Hdrawn) as [forest' [Hr Hf]].
    rewrite Hr. exists (setView (VTree forest') s), forest'. repeat split; assumption.
  - change (view s) with (VTree forest). cbn [cardDrawn].
    rewrite (proj2 (has_true_iff _ _) Hdrawn). cbn [negb].
    destruct (JS.get (nodeMap st) parentId) as [parentNode|] eqn:Hparent; [|discriminate].
    rewrite mapRender_all_empty.
    + destruct (@replaceContainer_drawn parentId [] forest s eq_refl Hdrawn)
        as [forest' [Hr Hf]].
      rewrite Hr. exists (setView (VTree forest') s), forest'. repeat split; assumption.
    + intros c Hc. change (nodeMap s) with (nodeMap st).
      destruct (JS.get (nodeMap st) c) as [child|] eqn:Hchild; cbn [isSome]; [|reflexivity].
      destruct fuel as [|fuel]; [lia|]. cbn [renderNode].
      change (nodeMap s) with (nodeMap st). rewrite Hchild.
      destruct (negb (_forceVisible child) && negb (isNodeVisible dom s c)) eqn:Hvis;
        [reflexivity|].
      assert (Hpass : passes dom st c = true).
      { unfold passes. rewrite Hchild.
        change (isNodeVisible dom s c) with (isNodeVisible dom st c) in Hvis.
        destruct (_forceVisible child); [reflexivity|].
        destruct (isNodeVisible dom st c); [reflexivity | discriminate]. }
      assert (Hin : In c (ids forest)).
      { apply (Hclosed parentId Hdrawn c); [|exact Hpass].
        exists parentNode. split; [exact Hparent | exact Hc]. }
      change (renderedNodes s) with (ids forest).
      now rewrite (proj2 (has_true_iff _ _) Hin).
Qed.

Lemma updateParentContainer_after_pass_witness :
  let node id cs := mkNode id id "" "New" (Some cs) None false in
  let st := mkState [("r", node "r" ["a"; "b"]); ("a", node "a" []); ("b", node "b" [])]
                    [("a", "r"); ("b", "r")] [] (Some "r") None true [] false VInitial [] 0 in
  let dom := mkFilters (Some "all") (Some "all") in
  exists forest drawn,
    renderNode 4 dom "r" 0 (setRenderedNodes [] st) = Some (forest, drawn)
    /\ (In "r" (ids forest) ->
        exists st' forest',
          updateParentContainer 4 dom "r" (setView (VTree forest) drawn) = Some (tt, st')
          /\ view st' = VTree forest'
          /\ firstSome (kidsOf "r") forest' = Some []
          /\ nodeMap st' = nodeMap st
          /\ renderedNodes st' = ids forest).
Proof.
  intros node st dom.
  apply (@updateParentContainer_after_pass 4 dom st "r" "r"); [reflexivity | cbn; lia | reflexivity].
Defined.

(** ** The link modal *)

Lemma storeResults_get results : forall nm k,
  JS.get (storeResults results nm) k
  = match lastResult results k with
    | Some node => Some node
    | None => JS.get nm k
    end.
Proof.
  unfold storeResults, lastResult.
  induction results as [|node results IH]; intros nm k; cbn [fold_left rev find];
    [reflexivity|].
  rewrite IH, find_append. cbn [find].
  destruct (find _ (rev results)); [reflexivity|].
  destruct (String.eqb_spec (contentId node) k) as [<-|Hne].
  - apply get_set_same.
  - apply get_set_other. congruence.
Qed.

(** A term of fewer than three characters (after trimming) sends no request
    and changes nothing in the store.  A search that succeeds writes every
    result into the node map under its id, over a node already stored there
    (the last result of an id wins); every other node and the parent map are
    as before.  A search that fails leaves the store alone. *)
Theorem handleSearch_stores_results :
  forall (search : string -> Fetched (list Node)) (input : string) (st : State),
  exists modal st',
    handleSearch search input st = Some (modal, st')
    /\ parentMap st' = parentMap st
    /\ (String.length (JS.trim input) < 3 ->
          st' = st /\ resultsList modal = [] /\ confirmDisabled modal = true)
    /\ (3 <= String.length (JS.trim input) ->
          (forall results,
             search (underscoreSpaces (JS.trim input)) = Resolved results ->
             resultsList modal = map contentId results
             /\ confirmDisabled modal = false
             /\ forall k, JS.get (nodeMap st') k
                          = match lastResult results k with
                            | Some node => Some node
                            | None => JS.get (nodeMap st) k
                            end)
          /\ (forall message,
                search (underscoreSpaces (JS.trim input)) = Rejected message ->
                st' = st /\ resultsList modal = [] /\ confirmDisabled modal = true)).
Proof.
  intros search input st. unfold handleSearch. cbn zeta.
  destruct (Nat.ltb_spec (String.length (JS.trim input)) 3) as [Hshort|Hlong].
  - eexists. exists st. split; [reflexivity|]. split; [reflexivity|].
    split; [auto | intros H; lia].
  - destruct (search (underscoreSpaces (JS.trim input))) as [results|message]; run_m.
    + eexists. eexists. split; [reflexivity|]. split; [reflexivity|].
      split; [intros H; lia|]. intros _. split; [|intros m H; discriminate].
      intros results' H. inversion H; subst results'. cbn [resultsList confirmDisabled].
      split; [reflexivity|]. split; [reflexivity|].
      intros k. cbn [nodeMap setNodeMap]. apply storeResults_get.
    + eexists. exists st. split; [reflexivity|]. split; [reflexivity|].
      split; [intros H; lia|]. intros _. split; [intros r H; discriminate|].
      intros m H. cbn. auto.
Qed.

Lemma linkLoop_run relationCreate linkClick parentName checked :
  forall successCount st,
  exists st',
    linkLoop relationCreate linkClick parentName checked successCount st
    = Some (successCount + List.length (filter (bothStepsPass relationCreate linkClick) checked), st')
    /\ nodeMap st' = nodeMap st /\ parentMap st' = parentMap st
    /\ stableRootId st' = stableRootId st /\ pageReloads st' = pageReloads st
    /\ exists shown, messages st' = messages st ++ shown
                     /\ List.length checked <= List.length shown.
Proof.
  induction checked as [|c rest IH]; intros successCount st; cbn [linkLoop filter].
  - exists st. run_m. rewrite Nat.add_0_r. repeat split; try reflexivity.
    exists []. now rewrite app_nil_r.
  - unfold showMessage. run_m. unfold bothStepsPass at 1.
    destruct (relationPassed (relationCreate c));
      destruct (linkFailure (relationCreate c) (linkClick c)) as [message|]; run_m;
      match goal with
      | |- context [linkLoop relationCreate linkClick parentName rest ?n ?s] =>
          destruct (IH n s) as [st' [Hrun [Hnm [Hpm [Hsr [Hpr [shown [Hmsg Hlen]]]]]]]];
          rewrite Hrun
      end;
      exists st'; cbn [List.length];
      (split; [f_equal; f_equal; lia|]);
      (split; [exact Hnm|]); (split; [exact Hpm|]); (split; [exact Hsr|]);
      (split; [exact Hpr|]);
      cbn [messages] in Hmsg; rewrite Hmsg, <- ?app_assoc;
      eexists; (split; [reflexivity|]); cbn [app List.length]; lia.
Qed.

(** Every selected node is tried in turn, a failure for one of them does not
    stop the loop, and the handler counts the nodes for which both requests
    went through (a relation that exists already counts as created).  With
    at least one such node the count is reported and the tree is reloaded
    from the server; with none the store is left as it was. *)
Theorem handleLinkSelected_counts_links :
  forall (fuel : nat) (dom : Filters) (srv : Server)
         (relationCreate linkClick : string -> Fetched unit)
         (parentId : string) (checked : list string) (st : State) (parent : Node),
    JS.get (nodeMap st) parentId = Some parent ->
    checked <> [] ->
    responseSize srv < fuel ->
    exists st',
      handleLinkSelected fuel dom srv relationCreate linkClick parentId checked st
      = Some (Returns VUndefined, st')
      /\ List.length (messages st) + List.length checked < List.length (messages st')
      /\ (List.length (filter (bothStepsPass relationCreate linkClick) checked) = 0 ->
            nodeMap st' = nodeMap st /\ parentMap st' = parentMap st
            /\ In (mkMessage "No new links were successfully created." "error")
                  (messages st'))
      /\ (0 < List.length (filter (bothStepsPass relationCreate linkClick) checked) ->
            nodeMap st' = reloadedNodeMap srv /\ parentMap st' = reloadedParentMap srv
            /\ In (mkMessage ("Successfully linked "
                                ++ JS.ofNat (List.length
                                               (filter (bothStepsPass relationCreate linkClick) checked))
                                ++ " node(s) to " ++ name parent
                                ++ ". Updating view...")%string "success")
                  (messages st')).
Proof.
  intros fuel dom srv relationCreate linkClick parentId checked st parent
         Hparent Hchecked Hfuel.
  unfold handleLinkSelected. run_m. rewrite Hparent.
  destruct checked as [|c rest]; [congruence|].
  destruct (@linkLoop_run relationCreate linkClick (name parent) (c :: rest) 0 st)
    as [s1 [Hrun [Hnm [Hpm [_ [_ [shown [Hmsg Hlen]]]]]]]].
  rewrite Hrun. cbn [Nat.add].
  set (k := List.length (filter (bothStepsPass relationCreate linkClick) (c :: rest))) in *.
  unfold showMessage. run_m.
  destruct (Nat.ltb_spec 0 k) as [Hpos|Hzero]; run_m.
  - match goal with
    | |- context [loadAndRenderTree fuel dom srv ?s] =>
        destruct (@loadAndRenderTree_run fuel dom srv s Hfuel)
          as [st' [Hrun' [Hnm' [Hpm' [_ [Hmsg' _]]]]]]; rewrite Hrun'
    end.
    exists st'. split; [reflexivity|]. cbn [messages setNodeToFocusId] in Hmsg'.
    rewrite Hmsg', Hmsg. split; [rewrite !length_app; cbn [List.length] in *; lia|].
    split; [intros H; lia|]. intros _. split; [exact Hnm'|]. split; [exact Hpm'|].
    apply in_or_app. right. now left.
  - eexists. split; [reflexivity|]. cbn [messages nodeMap parentMap]. rewrite Hmsg.
    split; [rewrite !length_app; cbn [List.length] in *; lia|].
    split; [|intros H; lia]. intros _. split; [exact Hnm|]. split; [exact Hpm|].
    apply in_or_app. right. now left.
Qed.

Lemma handleLinkSelected_counts_links_witness :
  let node id cs := mkNode id id "" "New" (Some cs) None false in
  let srv := mkServer (Resolved [node "r" ["a"; "b"]; node "a" []; node "b" []]) (Some [])
                      (Resolved tt) (Resolved tt) in
  let st := mkState [("r", node "r" ["a"]); ("a", node "a" []); ("b", node "b" [])]
                    [("a", "r")] [] (Some "r") None true [] false VInitial [] 0 in
  let dom := mkFilters (Some "all") (Some "all") in
  let relationCreate := fun c : string =>
        if String.eqb c "a" then Rejected "Relationship exists" else
        if String.eqb c "b" then Resolved tt else Rejected "Node not found" in
  let linkClick := fun c : string => @Resolved unit tt in
  exists st',
    handleLinkSelected 4 dom srv relationCreate linkClick "r" ["a"; "ghost"; "b"] st
    = Some (Returns VUndefined, st')
    /\ List.length (messages st) + 3 < List.length (messages st')
    /\ (List.length (filter (bothStepsPass relationCreate linkClick) ["a"; "ghost"; "b"]) = 0 ->
          nodeMap st' = nodeMap st /\ parentMap st' = parentMap st
          /\ In (mkMessage "No new links were successfully created." "error") (messages st'))
    /\ (0 < List.length (filter (bothStepsPass relationCreate linkClick) ["a"; "ghost"; "b"]) ->
          nodeMap st' = reloadedNodeMap srv /\ parentMap st' = reloadedParentMap srv
          /\ In (mkMessage "Successfully linked 2 node(s) to r. Updating view..." "success")
                (messages st')).
Proof.
  intros node srv st dom relationCreate linkClick.
  apply (@handleLinkSelected_counts_links 4 dom srv relationCreate linkClick "r"
           ["a"; "ghost"; "b"] st (node "r" ["a"])).
  - reflexivity.
  - discriminate.
  - cbn. lia.
Defined.

(** ** Links in descriptions *)

Lemma stripPrefix_spec p : forall s rest, stripPrefix p s = Some rest -> s = (p ++ rest)%string.
Proof.
  induction p as [|a p IH]; intros s rest H; cbn [stripPrefix] in H.
  - now inversion H.
  - destruct s as [|b s]; [discriminate|].
    destruct (Ascii.eqb_spec a b) as [->|]; [|discriminate].
    cbn [String.append]. f_equal. now apply IH.
Qed.

Lemma spanNonSpace_spec s :
  s = (fst (spanNonSpace s) ++ snd (spanNonSpace s))%string
  /\ hasSpace (fst (spanNonSpace s)) = false
  /\ endsRun (snd (spanNonSpace s)) = true.
Proof.
  induction s as [|c s [IH1 [IH2 IH3]]]; cbn [spanNonSpace]; [auto|].
  destruct (JS.isSpace c) eqn:E; cbn [fst snd String.append hasSpace endsRun]; [auto|].
  destruct (spanNonSpace s) as [run tail]. cbn [fst snd] in *.
  cbn [String.append hasSpace]. rewrite E, IH2. repeat split; auto. now f_equal.
Qed.

Lemma hasSpace_append x y : hasSpace (x ++ y)%string = hasSpace x || hasSpace y.
Proof.
  induction x as [|c x IH]; cbn [String.append hasSpace]; [reflexivity|].
  now rewrite IH, orb_assoc.
Qed.

Lemma schemeThenRun_spec scheme s url :
  hasSpace scheme = false ->
  schemeThenRun scheme s = Some url ->
  exists run after,
    s = (url ++ after)%string /\ url = (scheme ++ run)%string /\ run <> ""
    /\ hasSpace url = false /\ endsRun after = true.
Proof.
  intros Hscheme H. unfold schemeThenRun in H.
  destruct (stripPrefix scheme s) as [rest|] eqn:Hp; [|discriminate].
  apply stripPrefix_spec in Hp.
  destruct (spanNonSpace_spec rest) as [Hsplit [Hrun Hend]].
  destruct (fst (spanNonSpace rest)) as [|c run] eqn:Hfst; [discriminate|].
  inversion H; subst url. exists (String c run), (snd (spanNonSpace rest)).
  split; [rewrite append_assoc, <- Hsplit; exact Hp|].
  split; [reflexivity|]. split; [discriminate|].
  split; [now rewrite hasSpace_append, Hscheme, Hrun | exact Hend].
Qed.

Lemma matchUrlHere_spec s url :
  matchUrlHere s = Some url ->
  exists scheme run after,
    s = (url ++ after)%string /\ url = (scheme ++ run)%string
    /\ (scheme = "http://" \/ scheme = "https://") /\ run <> ""
    /\ hasSpace url = false /\ endsRun after = true.
Proof.
  unfold matchUrlHere. intros H.
  destruct (stripPrefix "https" s);
    apply schemeThenRun_spec in H; try reflexivity;
    destruct H as [run [after [H1 [H2 [H3 [H4 H5]]]]]].
  - exists "https://", run, after. auto 10.
  - exists "http://", run, after. auto 10.
Qed.

Lemma escapeQuotes_clean s : hasChar (ascii_of_nat 34) (escapeQuotes s) = false.
Proof.
  induction s as [|c s IH]; [reflexivity|]. cbn [escapeQuotes].
  destruct (Ascii.eqb c (ascii_of_nat 34)) eqn:E.
  - rewrite hasChar_append, IH. reflexivity.
  - cbn [hasChar]. now rewrite E, IH.
Qed.

(** The link found in a description is a piece of the description that
    starts with http:// or https://, goes on for at least one character,
    holds no white space and ends where white space or the end of the text
    follows; no link starts before it.  Once escaped for the attribute it
    holds no double quote. *)
Theorem getFirstUrl_shape :
  forall (text url : string),
    getFirstUrl text = Some url ->
    exists before after scheme run,
      text = (before ++ url ++ after)%string
      /\ url = (scheme ++ run)%string
      /\ (scheme = "http://" \/ scheme = "https://")
      /\ run <> ""
      /\ hasSpace url = false
      /\ endsRun after = true
      /\ (forall k, k < String.length before ->
                    matchUrlHere (String.substring k (String.length text - k) text) = None)
      /\ hasChar (ascii_of_nat 34) (escapeQuotes url) = false.
Proof.
  induction text as [|c text IH]; intros url H; cbn [getFirstUrl] in H.
  - discriminate.
  - destruct (matchUrlHere (String c text)) as [u|] eqn:Hm.
    + inversion H; subst u.
      destruct (matchUrlHere_spec _ Hm) as [scheme [run [after [H1 [H2 [H3 [H4 [H5 H6]]]]]]]].
      exists "", after, scheme, run. cbn [String.append String.length].
      repeat split; auto; [intros k Hk; lia | apply escapeQuotes_clean].
    + destruct (IH url H) as [before [after [scheme [run [H1 [H2 [H3 [H4 [H5 [H6 [H7 H8]]]]]]]]]]].
      exists (String c before), after, scheme, run. cbn [String.append String.length].
      split; [now f_equal|]. repeat split; auto.
      intros [|k] Hk.
      * assert (Hall : forall s, String.substring 0 (String.length s) s = s).
        { induction s as [|x s IHs]; cbn; [reflexivity | now rewrite IHs]. }
        rewrite Nat.sub_0_r.
        change (S (String.length text)) with (String.length (String c text)).
        rewrite Hall. exact Hm.
      * cbn [Nat.sub String.substring]. apply H7. lia.
Qed.

Lemma getFirstUrl_shape_witness :
  exists before after scheme run,
    "Docs at https://example.com/a?b=1 (new)" = (before ++ "https://example.com/a?b=1" ++ after)%string
    /\ "https://example.com/a?b=1" = (scheme ++ run)%string
    /\ (scheme = "http://" \/ scheme = "https://")
    /\ run <> ""
    /\ hasSpace "https://example.com/a?b=1" = false
    /\ endsRun after = true
    /\ (forall k, k < String.length before ->
                  matchUrlHere (String.substring k
                                  (String.length "Docs at https://example.com/a?b=1 (new)" - k)
                                  "Docs at https://example.com/a?b=1 (new)") = None)
    /\ hasChar (ascii_of_nat 34) (escapeQuotes "https://example.com/a?b=1") = false.
Proof.
  apply (@getFirstUrl_shape "Docs at https://example.com/a?b=1 (new)" "https://example.com/a?b=1").
  reflexivity.
Defined.

Lemma linkifyFrom_skip x : forall y,
  linkifyFrom (String.length x) (x ++ y)%string = linkifyFrom 0 y.
Proof.
  induction x as [|a x IH]; intros y; cbn [String.length String.append]; [reflexivity|].
  cbn [linkifyFrom]. apply IH.
Qed.

Lemma getFirstUrl_none_here text :
  getFirstUrl text = None -> matchUrlHere text = None.
Proof.
  destruct text as [|c text]; cbn [getFirstUrl];
    destruct (matchUrlHere _); [discriminate | reflexivity | discriminate | reflexivity].
Qed.

(** A description without a link comes back as it is.  Otherwise the text up
    to the first link is kept, the link is replaced by its anchor, and what
    follows the link is treated in the same way. *)
Theorem linkifyDescription_first_link :
  forall text : string,
    (getFirstUrl text = None -> linkifyDescription text = text)
    /\ (forall url, getFirstUrl text = Some url ->
          exists before after,
            text = (before ++ url ++ after)%string
            /\ linkifyDescription text
               = (before ++ anchorOf url ++ linkifyDescription after)%string).
Proof.
  unfold linkifyDescription. induction text as [|c text [IHnone IHsome]].
  - split; [reflexivity | intros url H; discriminate].
  - split.
    + intros H. pose proof (getFirstUrl_none_here _ H) as Hhere.
      cbn [getFirstUrl] in H. rewrite Hhere in H.
      cbn [linkifyFrom]. rewrite Hhere. f_equal. now apply IHnone.
    + intros url H. cbn [getFirstUrl] in H.
      destruct (matchUrlHere (String c text)) as [u|] eqn:Hm.
      * inversion H; subst u.
        destruct (matchUrlHere_spec _ Hm)
          as [scheme [run [after [Htext [Hurl [Hscheme [Hrun _]]]]]]].
        exists "", after. split; [exact Htext|]. cbn [String.append linkifyFrom].
        rewrite Hm. f_equal.
        destruct url as [|x url'].
        { destruct Hscheme as [-> | ->]; discriminate. }
        cbn [String.append] in Htext. injection Htext as _ Htext. subst text.
        cbn [String.length Nat.sub]. rewrite Nat.sub_0_r. apply linkifyFrom_skip.
      * destruct (IHsome url H) as [before [after [Htext Hlink]]].
        exists (String c before), after. cbn [String.append]. split; [now f_equal|].
        cbn [linkifyFrom]. rewrite Hm. now f_equal.
Qed.

(** ** The zoom scale *)

Lemma compare_cont_flip (p q : positive) :
  Pos.compare_cont Eq p q = CompOpp (Pos.compare_cont Eq q p).
Proof. symmetry. exact (Pos.compare_cont_antisym q p Eq). Qed.

Lemma SFcompare_total (x y : spec_float) :
  SFeqb x x = true -> SFeqb y y = true ->
  SFleb x y = false -> SFleb y x = true.
Proof.
  unfold SFeqb, SFleb.
  destruct x as [sx| sx | |sx mx ex], y as [sy|sy| |sy my ey]; cbn;
    try discriminate; try reflexivity;
    try (destruct sx; cbn; try discriminate; reflexivity);
    try (destruct sy; cbn; try discriminate; reflexivity);
    try (destruct sx, sy; cbn; try discriminate; reflexivity).
  intros _ _.
  destruct sx, sy; cbn; try discriminate; try reflexivity.
  - rewrite (Z.compare_antisym ex ey).
    destruct (ex ?= ey)%Z; cbn; try discriminate; try reflexivity.
    rewrite (compare_cont_flip my mx).
    destruct (Pos.compare_cont Eq mx my); cbn; try discriminate; reflexivity.
  - rewrite (Z.compare_antisym ex ey).
    destruct (ex ?= ey)%Z; cbn; try discriminate; try reflexivity.
    rewrite (compare_cont_flip my mx).
    destruct (Pos.compare_cont Eq mx my); cbn; try discriminate; reflexivity.
Qed.

Lemma float_leb_total (x y : float) :
  is_nan x = false -> is_nan y = false ->
  (x <=? y)%float = false -> (y <=? x)%float = true.
Proof.
  unfold is_nan. rewrite !eqb_spec, !leb_spec.
  intros Hx Hy. apply negb_false_iff in Hx. apply negb_false_iff in Hy.
  now apply SFcompare_total.
Qed.

Lemma float_leb_refl (x : float) : is_nan x = false -> (x <=? x)%float = true.
Proof.
  unfold is_nan. rewrite eqb_spec, leb_spec. intros H.
  apply negb_false_iff in H. unfold SFeqb, SFleb in *.
  destruct (SFcompare (Prim2SF x) (Prim2SF x)) as [[]|]; try discriminate;
    reflexivity.
Qed.

(** X: [applyZoom] never stores a scale outside the zoom limits: whatever
    number it is given, the scale it assigns is [NaN] exactly when the
    argument is [NaN], and lies between [MIN_SCALE] and [MAX_SCALE]
    otherwise. *)
Theorem applyZoom_within_limits (scale : float) :
  is_nan (applyZoom scale) = is_nan scale /\
  (is_nan scale = false ->
   (MIN_SCALE <=? applyZoom scale)%float = true /\
   (applyZoom scale <=? MAX_SCALE)%float = true).
Proof.
  assert (Hmin : is_nan MIN_SCALE = false) by reflexivity.
  assert (Hmax : is_nan MAX_SCALE = false) by reflexivity.
  assert (Hmm : (MIN_SCALE <=? MAX_SCALE)%float = true) by reflexivity.
  assert (Hzmin : is_zero MIN_SCALE = false) by reflexivity.
  assert (Hzmax : is_zero MAX_SCALE = false) by reflexivity.
  unfold applyZoom, mathMax, mathMin.
  destruct (is_nan scale) eqn:Hn; cbn [orb].
  - split; [reflexivity | discriminate].
  - rewrite Hmin, Hzmin, Hmax, Hzmax, !andb_false_r. cbn [orb andb].
    destruct (scale <=? MIN_SCALE)%float eqn:Hle.
    + rewrite Hmin, Hmm. cbn [orb]. rewrite Hmin.
      split; [reflexivity|]. intros _. split; [now apply float_leb_refl | exact Hmm].
    + rewrite Hn. cbn [orb].
      pose proof (@float_leb_total scale MIN_SCALE Hn Hmin Hle) as Hge.
      destruct (scale <=? MAX_SCALE)%float eqn:Hle2.
      * rewrite Hn. split; [reflexivity|]. intros _. now split.
      * rewrite Hmax. split; [reflexivity|]. intros _.
        split; [exact Hmm | now apply float_leb_refl].
Qed.
